(** * Splatoon 3 rotation tracker: the background worker's scheduling core

    A shallow embedding of the background service worker (the data
    fetch cycle, the rotation processors, the refresh scheduler, the
    cache validity check and the notification differ) and of the Salmon
    Run processor, followed by the properties proved about them. The
    stage-id helpers of the utilities and the countdowns, the refresh
    and the settings panel of the popup are embedded as well.

    Conventions of the embedding:
    - an optional JSON field is an [option]; [None] stands for a missing
      ([undefined]) field, and for [null] where the code reads the field
      with [?.] or tests it before use;
    - a time, a name or a URL of the feed is a string or missing; a value of
      another kind in one of these places only changes the value that is
      copied, and is left out;
    - an entry of a list of the feed is an [option]: [None] stands for a
      [null] entry, on which reading a property throws; an entry that is a
      number, a string or a boolean has no properties and is the record
      with every field missing;
    - a field the code iterates or maps over is a [NodesField], which tells
      a list from a value that is no list;
    - a JavaScript number that holds a timestamp is an [option Z] of
      milliseconds since the epoch, [None] standing for [NaN];
    - the built-in [Date] is an interface ([JSDate]) the functions are
      parametrised by, and so is [Array.prototype.sort] ([JSArray]), whose
      order on keys that cannot be compared differs between engines. *)

From stdpp Require Import base option list strings gmap sorting pretty.
From Stdlib Require Import ZArith Lia Ascii.

Open Scope string_scope.
Open Scope Z_scope.

(** ** JavaScript values *)

(** [new Date(s).getTime()] and [new Date(ms).toISOString()]. *)
Class JSDate := {
  Date_getTime : string -> option Z;
  Date_toISOString : Z -> string
}.

(** Truthiness of an optional string field: a missing field and the
    empty string are falsy. *)
Definition truthy (o : option string) : bool :=
  match o with
  | Some s => negb (String.eqb s EmptyString)
  | None => false
  end.

(** [x || null] on an optional string. *)
Definition orNull (o : option string) : option string :=
  if truthy o then o else None.

(** [x || d] on an optional string with a string default. *)
Definition orStr (o : option string) (d : string) : string :=
  match o with
  | Some s => if String.eqb s EmptyString then d else s
  | None => d
  end.

(** Comparisons of JavaScript numbers: every comparison with [NaN] is
    false. *)
Definition num_le (a b : option Z) : bool :=
  match a, b with
  | Some x, Some y => x <=? y
  | _, _ => false
  end.

Definition num_lt (a b : option Z) : bool :=
  match a, b with
  | Some x, Some y => x <? y
  | _, _ => false
  end.

Definition num_gt (a b : option Z) : bool := num_lt b a.

(** [a - b] on numbers. *)
Definition num_sub (a b : option Z) : option Z :=
  match a, b with
  | Some x, Some y => Some (x - y)
  | _, _ => None
  end.

(** The result of a call that may throw. *)
Inductive Try (A : Type) :=
  | Ok (a : A)
  | Threw.
Arguments Ok {A} a.
Arguments Threw {A}.

(** ** [Array.prototype.sort] *)

(** The comparators of the source subtract two dates read from the
    elements, [(a, b) => new Date(a.startTime) - new Date(b.startTime)].
    [key] reads the date of an element; it throws where reading the
    property does, which is on [null]. *)
Definition compareKeys {A} (key : A -> Try (option Z)) (a b : A)
  : Try (option Z) :=
  match key a with
  | Threw => Threw
  | Ok x =>
      match key b with
      | Threw => Threw
      | Ok y => Ok (num_sub x y)
      end
  end.

(** The date [key] reads, [NaN] where it throws. *)
Definition readKey {A} (key : A -> Try (option Z)) (x : A) : option Z :=
  match key x with
  | Ok d => d
  | Threw => None
  end.

(** The comparator of a sort by a numeric key that can always be read. *)
Definition byKey {A} (k : A -> option Z) (a b : A) : option Z :=
  num_sub (k a) (k b).

(** The stable ascending arrangement of a list: a right-to-left insertion
    that keeps [x], which stood before the elements of [l], before the
    ones it does not exceed. *)
Fixpoint insertAscending {A} (cmp : A -> A -> option Z) (x : A) (l : list A)
  : list A :=
  match l with
  | [] => [x]
  | y :: r =>
      match cmp x y with
      | Some d => if 0 <? d then y :: insertAscending cmp x r else x :: l
      | None => x :: l
      end
  end.

Definition stableSort {A} (cmp : A -> A -> option Z) (l : list A) : list A :=
  foldr (insertAscending cmp) [] l.

(** [[...l].sort(cmp)] for a comparator that subtracts two keys. What the
    language fixes of it, and every engine does:
    - a list of fewer than two elements is returned as it is, and the
      comparator is not called;
    - on a longer list every element is compared at least once, so the
      call throws when a key cannot be read;
    - when no key throws the result is a rearrangement of the list;
    - when every key is a number the sort is stable and ascending.
    The order of elements whose key is [NaN] is left to the engine. *)
Class JSArray := {
  Array_sort : forall {A : Type},
    (A -> A -> Try (option Z)) -> list A -> Try (list A);
  Array_sort_short : forall {A} (cmp : A -> A -> Try (option Z)) (l : list A),
    (length l < 2)%nat -> Array_sort cmp l = Ok l;
  Array_sort_throws : forall {A} (key : A -> Try (option Z)) (l : list A),
    (2 <= length l)%nat -> Exists (fun x => key x = Threw) l ->
    Array_sort (compareKeys key) l = Threw;
  Array_sort_rearranges : forall {A} (key : A -> Try (option Z)) (l : list A),
    Forall (fun x => key x <> Threw) l ->
    exists sorted, Array_sort (compareKeys key) l = Ok sorted /\ sorted ≡ₚ l;
  Array_sort_stable : forall {A} (key : A -> Try (option Z)) (l : list A),
    Forall (fun x => is_Some (readKey key x)) l ->
    Array_sort (compareKeys key) l = Ok (stableSort (byKey (readKey key)) l)
}.

(** An engine to evaluate the functions with: the insertion above, with
    the comparator called on every pair it compares. *)
Fixpoint insertSorted {A} (cmp : A -> A -> Try (option Z)) (x : A) (l : list A)
  : Try (list A) :=
  match l with
  | [] => Ok [x]
  | y :: r =>
      match cmp x y with
      | Threw => Threw
      | Ok (Some d) =>
          if 0 <? d
          then match insertSorted cmp x r with
               | Threw => Threw
               | Ok r' => Ok (y :: r')
               end
          else Ok (x :: l)
      | Ok None => Ok (x :: l)
      end
  end.

Fixpoint insertionSort {A} (cmp : A -> A -> Try (option Z)) (l : list A)
  : Try (list A) :=
  match l with
  | [] => Ok []
  | x :: rest =>
      match insertionSort cmp rest with
      | Threw => Threw
      | Ok sorted => insertSorted cmp x sorted
      end
  end.

(** The insertion meets what the language fixes. *)
Definition insertion : JSArray.
Proof.
  assert (forall A (cmp : A -> A -> option Z) x l,
            insertAscending cmp x l ≡ₚ x :: l) as Hins.
  { intros A cmp x l. induction l as [|y r IH]; cbn [insertAscending]; [done|].
    destruct (cmp x y) as [d|]; [|done].
    destruct (0 <? d); [|done]. rewrite IH. apply Permutation_swap. }
  assert (forall A (cmp : A -> A -> option Z) l, stableSort cmp l ≡ₚ l)
    as Hperm.
  { intros A cmp l. induction l as [|x l IH]; [done|]. cbn.
    fold (stableSort cmp l). by rewrite Hins, IH. }
  assert (forall A (key : A -> Try (option Z)) x l,
            key x <> Threw -> Forall (fun y => key y <> Threw) l ->
            insertSorted (compareKeys key) x l
            = Ok (insertAscending (byKey (readKey key)) x l)) as Hone.
  { intros A key x l Hx Hl.
    induction l as [|y r IH]; cbn [insertSorted insertAscending]; [done|].
    apply Forall_cons in Hl as [Hy Hr].
    assert (compareKeys key x y = Ok (byKey (readKey key) x y)) as ->.
    { unfold compareKeys, byKey, readKey.
      destruct (key x); [|done]. by destruct (key y). }
    destruct (byKey (readKey key) x y) as [d|]; [|done].
    destruct (0 <? d); [|done]. by rewrite (IH Hr). }
  assert (forall A (key : A -> Try (option Z)) l,
            Forall (fun y => key y <> Threw) l ->
            insertionSort (compareKeys key) l
            = Ok (stableSort (byKey (readKey key)) l)) as Hall.
  { intros A key l Hl. induction l as [|x l IH]; [done|].
    apply Forall_cons in Hl as [Hx Hl]. cbn [insertionSort].
    rewrite (IH Hl). apply Hone; [done|]. by rewrite Hperm. }
  assert (forall A (cmp : A -> A -> Try (option Z)) x l l',
            insertSorted cmp x l = Ok l' -> l' ≡ₚ x :: l) as Hins'.
  { intros A cmp x l. induction l as [|y r IH]; intros l';
      cbn [insertSorted]; [by intros [= <-]|].
    destruct (cmp x y) as [[d|]|]; [| by intros [= <-] |done].
    destruct (0 <? d); [|by intros [= <-]].
    destruct (insertSorted cmp x r) as [r'|]; [|done]. intros [= <-].
    rewrite (IH r' eq_refl). apply Permutation_swap. }
  assert (forall A (cmp : A -> A -> Try (option Z)) l l',
            insertionSort cmp l = Ok l' -> l' ≡ₚ l) as Hperm'.
  { intros A cmp l. induction l as [|x l IH]; intros l';
      cbn [insertionSort]; [by intros [= <-]|].
    destruct (insertionSort cmp l) as [sorted|]; [|done]. intros Hx.
    rewrite (Hins' _ _ _ _ _ Hx). by rewrite (IH sorted eq_refl). }
  refine {| Array_sort := @insertionSort |}.
  - intros A cmp [|x [|y l]] Hlen; cbn in *; [done|done|lia].
  - intros A key l. induction l as [|x l IH]; intros Hlen Hex; [cbn in Hlen; lia|].
    cbn [insertionSort].
    destruct (insertionSort (compareKeys key) l) as [sorted|] eqn:E; [|done].
    pose proof (Hperm' _ _ _ _ E) as Hp.
    destruct sorted as [|y r].
    { apply Permutation_nil_l in Hp. subst l. cbn in Hlen. lia. }
    cbn [insertSorted]. unfold compareKeys.
    destruct (key x) as [kx|] eqn:Kx; [|done].
    destruct (key y) as [ky|] eqn:Ky; [|done].
    exfalso. apply Exists_cons in Hex as [Hx|Hex]; [congruence|].
    destruct l as [|a [|b l]].
    + by apply Exists_nil in Hex.
    + apply Permutation_length in Hp as Hn. destruct r; [|done].
      apply Permutation_singleton_r in Hp. injection Hp as ->.
      apply Exists_cons in Hex as [Ha|Hex]; [congruence|].
      by apply Exists_nil in Hex.
    + discriminate IH; [cbn; lia|done].
  - intros A key l Hl. exists (stableSort (byKey (readKey key)) l).
    split; [by apply Hall|apply Hperm].
  - intros A key l Hl. apply Hall. eapply Forall_impl; [exact Hl|].
    intros x [k Hk] Hx. unfold readKey in Hk. by rewrite Hx in Hk.
Defined.

(** ** The upstream feed *)

Record Image := { url : option string }.

(** A stage, a weapon or a boss of the feed: a name and an image. *)
Record Named := { name : option string; image : option Image }.

Record VsRule := { rule_name : option string }.

(** A field the code iterates or maps over: missing (or another falsy
    value), a present value that is no list (an object, a number), or a
    list. A string in the place of a list the code iterates has characters
    without any of the properties that are read, and stands as [NoNodes];
    in the place of a list the code maps over it has no [map], and stands
    as [NotAList]. *)
Inductive NodesField (A : Type) :=
  | NoNodes
  | NotAList
  | NodeList (l : list A).
Arguments NoNodes {A}.
Arguments NotAList {A}.
Arguments NodeList {A} l.

(** A list of the feed with its entries, [None] for a [null] entry. *)
Definition Entries (A : Type) : Type := NodesField (option A).

Record MatchSetting := {
  vsRule : option VsRule;
  vsStages : Entries Named
}.

(** A node of [regularSchedules], [xSchedules] or [bankaraSchedules]. *)
Record VsNode := {
  node_startTime : option string;
  node_endTime : option string;
  regularMatchSetting : option MatchSetting;
  xMatchSetting : option MatchSetting;
  bankaraMatchSettings : option (list (option MatchSetting))
}.

Record LeagueMatchEvent := {
  ev_name : option string;
  ev_desc : option string;
  ev_regulation : option string
}.

Record LeagueSetting := {
  leagueMatchEvent : option LeagueMatchEvent;
  lg_vsRule : option VsRule;
  lg_vsStages : Entries Named
}.

Record TimePeriod := {
  period_startTime : option string;
  period_endTime : option string
}.

Record EventNode := {
  leagueMatchSetting : option LeagueSetting;
  timePeriods : Entries TimePeriod
}.

Record CoopSetting := {
  coopStage : option Named;
  weapons : Entries Named;
  boss : option Named
}.

Record CoopNode := {
  coop_startTime : option string;
  coop_endTime : option string;
  setting : option CoopSetting
}.

(** A team colour of the feed. The source renders it as the text
    [rgba(...)] with floating-point arithmetic; the rendering is left out
    and the colour is carried as it is. *)
Inductive Color := ColorJson (text : string).

Record FestTeam := {
  teamName : option string;
  color : option Color;
  team_image : option Image
}.

Record CurrentFest := {
  cf_title : option string;
  cf_state : option string;
  cf_startTime : option string;
  cf_endTime : option string;
  cf_teams : Entries FestTeam
}.

(** [festMatchSettings] is only tested for presence. *)
Record FestNode := {
  fest_startTime : option string;
  fest_endTime : option string;
  festMatchSettings : bool
}.

Record CoopGrouping := {
  coop_regularSchedules : option (Entries CoopNode);
  bigRunSchedules : option (Entries CoopNode)
}.

(** The root [data] object. A schedule key is [None] when missing and
    [Some nodes] when it is an object with that [nodes] field. *)
Record ApiData := {
  regularSchedules : option (Entries VsNode);
  bankaraSchedules : option (Entries VsNode);
  xSchedules : option (Entries VsNode);
  eventSchedules : option (Entries EventNode);
  coopGroupingSchedule : option CoopGrouping;
  currentFest : option CurrentFest;
  festSchedules : option (Entries FestNode)
}.

(** The parsed response; [data] is [None] when the response has no root
    [data] object (or is not an object itself). *)
Record ApiResponse := { data : option ApiData }.

(** [Array.isArray(section.nodes)] *)
Definition isArray {A} (f : NodesField A) : bool :=
  match f with NodeList _ => true | _ => false end.

(** ** Processed rotations *)

Record StageInfo := { stage_name : option string; stage_image : option string }.

Record RuleStages := { rule : VsRule; stages : list StageInfo }.

Record SalmonBody := {
  stage : StageInfo;
  sr_weapons : list StageInfo;
  sr_boss : option string;
  bossImage : option string;
  isBigRun : bool
}.

(** What a rotation carries besides its window, by the processor that
    built it: [rule]/[stages]; the same with [series]/[open]; the same
    with the event's texts; the Salmon Run fields. *)
Inductive Payload :=
  | PBattle (main : RuleStages)
  | PAnarchy (main : RuleStages) (series open : option RuleStages)
  | PEvent (eventName eventDesc regulation : string) (main : RuleStages)
  | PSalmon (b : SalmonBody).

(** A processed rotation: its window (the feed's strings, copied) and its
    payload. *)
Record Rot := {
  startTime : option string;
  endTime : option string;
  payload : Payload
}.

Record ModeState := {
  current : option Rot;
  next : option Rot
}.

Definition emptyState : ModeState := {| current := None; next := None |}.

Record Team := {
  t_teamName : option string;
  t_color : option Color;
  t_image : option string
}.

Record Fest := {
  title : string;
  state : string;
  f_startTime : option string;
  f_endTime : option string;
  teams : list Team
}.

(** [rotationData]: a key that is missing is [None]. *)
Record RotationData := {
  regular : option ModeState;
  anarchy : option ModeState;
  xbattle : option ModeState;
  challenge : option ModeState;
  splatfest : option Fest;
  salmon : option ModeState
}.

(** [rotationData?.[mode]] *)
Definition modeOf (rd : RotationData) (mode : string) : option ModeState :=
  if String.eqb mode "regular" then regular rd
  else if String.eqb mode "anarchy" then anarchy rd
  else if String.eqb mode "xbattle" then xbattle rd
  else if String.eqb mode "challenge" then challenge rd
  else if String.eqb mode "salmon" then salmon rd
  else None.

Definition unknownMode : VsRule := {| rule_name := Some "Unknown Mode" |}.

(** [x => ({ name: x.name, image: x.image?.url || null })] *)
Definition mapStage (x : Named) : StageInfo :=
  {| stage_name := name x;
     stage_image := orNull (image x ≫= url) |}.

(** [l.map(f)] for an [f] that reads a property of its argument, and so
    throws on a [null] entry. *)
Fixpoint mapObjects {A B} (f : A -> B) (l : list (option A)) : Try (list B) :=
  match l with
  | [] => Ok []
  | None :: _ => Threw
  | Some x :: rest =>
      match mapObjects f rest with
      | Threw => Threw
      | Ok r => Ok (f x :: r)
      end
  end.

(** [(field || []).map(f)]: a present value that is no array has no
    [map], and the call throws. *)
Definition mapField {A B} (f : A -> B) (field : Entries A) : Try (list B) :=
  match field with
  | NoNodes => Ok []
  | NotAList => Threw
  | NodeList l => mapObjects f l
  end.

(** [rule: s.vsRule || { name: 'Unknown Mode' }, stages: (s.vsStages || []).map(...)] *)
Definition ruleStages (r : option VsRule) (st : Entries Named)
  : Try RuleStages :=
  match mapField mapStage st with
  | Threw => Threw
  | Ok stages => Ok {| rule := default unknownMode r; stages := stages |}
  end.

Section Processing.
Context `{JSDate} `{JSArray}.

(** [new Date(field).getTime()]; a missing field gives an invalid date. *)
Definition msOf (field : option string) : option Z :=
  field ≫= Date_getTime.

(** The date the comparator [(a, b) => new Date(a.startTime) - new Date(b.startTime)]
    reads from a node: reading [startTime] of [null] throws. *)
Definition startKey (node : option VsNode) : Try (option Z) :=
  match node with
  | None => Threw
  | Some node => Ok (msOf (node_startTime node))
  end.

(** The test [startMs <= nowMs && endMs > nowMs]. *)
Definition spans (startMs endMs : option Z) (nowMs : Z) : bool :=
  num_le startMs (Some nowMs) && num_gt endMs (Some nowMs).

(** The test [startMs > nowMs && (!next || startMs < new Date(next.startTime).getTime())]. *)
Definition earlierNext (startMs : option Z) (nowMs : Z) (nx : option Rot)
  : bool :=
  num_gt startMs (Some nowMs)
  && match nx with
     | None => true
     | Some r => num_lt startMs (msOf (startTime r))
     end.

(** The body of the selection loops of [findCurrentAndNext] and
    [findCurrentAndNextAnarchy], given the construction of
    [processedNode]. The body is a [try] block whose [catch] only logs: a
    [null] node, on which [node.startTime] throws, and a node whose
    construction throws leave the selection as it is. *)
Definition selectStep (nowMs : Z) (mk : VsNode -> Try Rot)
    (acc : ModeState) (node : option VsNode) : ModeState :=
  match node with
  | None => acc
  | Some node =>
      if negb (truthy (node_startTime node))
         || negb (truthy (node_endTime node))
      then acc
      else
        let startMs := msOf (node_startTime node) in
        let endMs := msOf (node_endTime node) in
        match mk node with
        | Threw => acc
        | Ok processedNode =>
            if spans startMs endMs nowMs
            then {| current := Some processedNode; next := next acc |}
            else if earlierNext startMs nowMs (next acc)
            then {| current := current acc; next := Some processedNode |}
            else acc
        end
  end.

(** [rule] and [stages] of [findCurrentAndNext]. *)
Definition modeSetting (mode : string) (node : VsNode) : Try RuleStages :=
  let dflt := Ok {| rule := unknownMode; stages := [] |} in
  if String.eqb mode "regular" then
    match regularMatchSetting node with
    | Some s => ruleStages (vsRule s) (vsStages s)
    | None => dflt
    end
  else if String.eqb mode "xbattle" then
    match xMatchSetting node with
    | Some s => ruleStages (vsRule s) (vsStages s)
    | None => dflt
    end
  else dflt.

(** [processedNode] of [findCurrentAndNext]. *)
Definition processNode (mode : string) (node : VsNode) : Try Rot :=
  match modeSetting mode node with
  | Threw => Threw
  | Ok main =>
      Ok {| startTime := node_startTime node;
            endTime := node_endTime node;
            payload := PBattle main |}
  end.

(** The selection of both selectors: [if (!nodes?.length) return],
    then the sort, which is outside the [try] block of the loop, then the
    loop. *)
Definition selectSorted (mk : VsNode -> Try Rot) (nodes : list (option VsNode))
    (now : Z) : Try ModeState :=
  match nodes with
  | [] => Ok emptyState
  | _ =>
      match Array_sort (compareKeys startKey) nodes with
      | Threw => Threw
      | Ok sortedNodes => Ok (fold_left (selectStep now mk) sortedNodes emptyState)
      end
  end.

Definition findCurrentAndNext (nodes : list (option VsNode)) (now : Z)
    (mode : string) : Try ModeState :=
  selectSorted (processNode mode) nodes now.

Definition extractAnarchyMode (setting : option MatchSetting)
  : Try (option RuleStages) :=
  match setting with
  | None => Ok None
  | Some s =>
      match ruleStages (vsRule s) (vsStages s) with
      | Threw => Threw
      | Ok m => Ok (Some m)
      end
  end.

(** [processedNode] of [findCurrentAndNextAnarchy]. *)
Definition processAnarchyNode (node : VsNode) : Try Rot :=
  match extractAnarchyMode
          (bankaraMatchSettings node ≫= (fun l => mjoin (l !! 0%nat))) with
  | Threw => Threw
  | Ok series =>
      match extractAnarchyMode
              (bankaraMatchSettings node ≫= (fun l => mjoin (l !! 1%nat))) with
      | Threw => Threw
      | Ok open =>
          Ok {| startTime := node_startTime node;
                endTime := node_endTime node;
                payload :=
                  PAnarchy
                    {| rule :=
                         match series, open with
                         | Some s, _ => rule s
                         | None, Some o => rule o
                         | None, None => unknownMode
                         end;
                       stages :=
                         match series, open with
                         | Some s, _ => stages s
                         | None, Some o => stages o
                         | None, None => []
                         end |}
                    series open |}
      end
  end.

Definition findCurrentAndNextAnarchy (nodes : list (option VsNode)) (now : Z)
  : Try ModeState :=
  selectSorted processAnarchyNode nodes now.

(** [processedEvent] of [processEventSchedules]; [main] holds the [rule]
    and the [stages] built once for the event. *)
Definition processPeriod (main : RuleStages) (eventInfo : LeagueMatchEvent)
    (period : TimePeriod) : Rot :=
  {| startTime := period_startTime period;
     endTime := period_endTime period;
     payload :=
       PEvent (orStr (ev_name eventInfo) "Unknown Event")
              (orStr (ev_desc eventInfo) EmptyString)
              (orStr (ev_regulation eventInfo) EmptyString)
              main |}.

(** The body of the inner loop of [processEventSchedules]: the first
    window that spans [now] is kept ([&& !current]). *)
Definition periodStep (nowMs : Z) (mk : TimePeriod -> Rot)
    (acc : ModeState) (period : TimePeriod) : ModeState :=
  if negb (truthy (period_startTime period))
     || negb (truthy (period_endTime period))
  then acc
  else
    let startMs := msOf (period_startTime period) in
    let endMs := msOf (period_endTime period) in
    let processedEvent := mk period in
    if spans startMs endMs nowMs
       && match current acc with None => true | Some _ => false end
    then {| current := Some processedEvent; next := next acc |}
    else if earlierNext startMs nowMs (next acc)
    then {| current := current acc; next := Some processedEvent |}
    else acc.

(** A loop over the entries of a list whose body reads a property of the
    entry outside any [try] block: a [null] entry throws. *)
Fixpoint forEachObject {A S} (body : S -> A -> Try S) (l : list (option A))
    (acc : S) : Try S :=
  match l with
  | [] => Ok acc
  | None :: _ => Threw
  | Some x :: rest =>
      match body acc x with
      | Threw => Threw
      | Ok acc' => forEachObject body rest acc'
      end
  end.

(** The body of the outer loop of [processEventSchedules]: the stages are
    mapped before the periods are iterated. *)
Definition eventStep (nowMs : Z) (acc : ModeState) (event : EventNode)
  : Try ModeState :=
  match leagueMatchSetting event with
  | None => Ok acc
  | Some s =>
      match leagueMatchEvent s with
      | None => Ok acc
      | Some eventInfo =>
          match ruleStages (lg_vsRule s) (lg_vsStages s) with
          | Threw => Threw
          | Ok main =>
              match timePeriods event with
              | NoNodes => Ok acc
              | NotAList => Threw
              | NodeList periods =>
                  forEachObject
                    (fun acc period =>
                       Ok (periodStep nowMs (processPeriod main eventInfo)
                                      acc period))
                    periods acc
              end
          end
      end
  end.

Definition processEventSchedules (nodes : list (option EventNode)) (now : Z)
  : Try ModeState :=
  forEachObject (eventStep now) nodes emptyState.

(** [for (const x of section?.nodes || [])]: the list that is iterated;
    a present value that is not iterable throws a [TypeError]. *)
Definition iterNodes {A} (section : option (NodesField A)) : Try (list A) :=
  match section with
  | None | Some NoNodes => Ok []
  | Some NotAList => Threw
  | Some (NodeList l) => Ok l
  end.

Definition mapTeam (t : FestTeam) : Team :=
  {| t_teamName := teamName t;
     t_color := color t;
     t_image := orNull (team_image t ≫= url) |}.

(** The loop of [processSplatfestData], which returns at the first node
    with live settings that starts after [now]; reading
    [node.festMatchSettings] of a [null] node it comes to throws. *)
Fixpoint firstUpcomingFest (festNodes : list (option FestNode)) (now : Z)
  : Try (option Fest) :=
  match festNodes with
  | [] => Ok None
  | None :: _ => Threw
  | Some node :: rest =>
      if festMatchSettings node && num_gt (msOf (fest_startTime node)) (Some now)
      then Ok (Some {| title := "Upcoming Splatfest";
                       state := "SCHEDULED";
                       f_startTime := fest_startTime node;
                       f_endTime := fest_endTime node;
                       teams := [] |})
      else firstUpcomingFest rest now
  end.

Definition processSplatfestData (apiDataRoot : ApiData) (now : Z)
  : Try (option Fest) :=
  match currentFest apiDataRoot with
  | Some cf =>
      match mapField mapTeam (cf_teams cf) with
      | Threw => Threw
      | Ok teams =>
          Ok (Some {| title := orStr (cf_title cf) "Splatfest";
                      state := orStr (cf_state cf) "ACTIVE";
                      f_startTime := cf_startTime cf;
                      f_endTime := cf_endTime cf;
                      teams := teams |})
      end
  | None =>
      match iterNodes (festSchedules apiDataRoot) with
      | Threw => Threw
      | Ok festNodes => firstUpcomingFest festNodes now
      end
  end.

(** The rotations of [createTestData]. *)
Definition testRot (s e : string) (ruleName : string) (stageNames : list string)
  : Rot :=
  {| startTime := Some s;
     endTime := Some e;
     payload :=
       PBattle {| rule := {| rule_name := Some ruleName |};
                  stages := (fun n => {| stage_name := Some n;
                                         stage_image := None |}) <$> stageNames |} |}.

Definition createTestData (now : Z) : RotationData :=
  let nowS := Date_toISOString now in
  let twoHoursLater := Date_toISOString (now + 2 * 60 * 60 * 1000) in
  let fourHoursLater := Date_toISOString (now + 4 * 60 * 60 * 1000) in
  {| regular := Some
       {| current := Some (testRot nowS twoHoursLater "Turf War"
                             ["Scorch Gorge"; "Mahi-Mahi Resort"]);
          next := Some (testRot twoHoursLater fourHoursLater "Turf War"
                          ["Hagglefish Market"; "MakoMart"]) |};
     anarchy := Some
       {| current := Some (testRot nowS twoHoursLater "Splat Zones"
                             ["Mincemeat Metalworks"; "Undertow Spillway"]);
          next := Some (testRot twoHoursLater fourHoursLater "Tower Control"
                          ["Hammerhead Bridge"; "Museum d'Alfonsino"]) |};
     xbattle := Some
       {| current := Some (testRot nowS twoHoursLater "Clam Blitz"
                             ["Inkblot Art Academy"; "Sturgeon Shipyard"]);
          next := Some (testRot twoHoursLater fourHoursLater "Rainmaker"
                          ["Eeltail Alley"; "Wahoo World"]) |};
     challenge := None;
     splatfest := None;
     salmon := None |}.

(** The condition [d[key] && !Array.isArray(d[key].nodes)]. *)
Definition badSection {A} (section : option (NodesField A)) : bool :=
  match section with
  | Some f => negb (isArray f)
  | None => false
  end.

Definition validateApiResponse (response : ApiResponse) : bool :=
  match data response with
  | None => false
  | Some d =>
      if badSection (regularSchedules d) then false
      else if badSection (bankaraSchedules d) then false
      else if badSection (xSchedules d) then false
      else
        match coopGroupingSchedule d with
        | Some coop =>
            if badSection (coop_regularSchedules coop) then false
            else if badSection (bigRunSchedules coop) then false
            else true
        | None => true
        end
  end.

(** [if (section?.nodes) result.mode = select(section.nodes)] for the
    three battle keys, whose [nodes] the validation has found to be
    arrays. *)
Definition selectIfNodes {A} (section : option (NodesField A))
    (select : list A -> Try ModeState) : Try ModeState :=
  match section with
  | Some (NodeList l) => select l
  | _ => Ok emptyState
  end.

(** [if (data.data.eventSchedules?.nodes) result.challenge = processEventSchedules(...)]:
    the loop over a present value that cannot be iterated throws. *)
Definition eventsIfNodes (section : option (Entries EventNode)) (now : Z)
  : Try ModeState :=
  match section with
  | Some (NodeList l) => processEventSchedules l now
  | Some NotAList => Threw
  | _ => Ok emptyState
  end.

(** [processRotationData]: [None] is the [null] returned when the
    validation fails or an exception reaches the [catch]. The [salmon] key
    is added by the caller. *)
Definition processRotationData (response : ApiResponse) (now : Z)
  : option RotationData :=
  if negb (validateApiResponse response) then None
  else
    match data response with
    | None => None
    | Some d =>
        match selectIfNodes (regularSchedules d)
                (fun l => findCurrentAndNext l now "regular") with
        | Threw => None
        | Ok regular =>
        match selectIfNodes (bankaraSchedules d)
                (fun l => findCurrentAndNextAnarchy l now) with
        | Threw => None
        | Ok anarchy =>
        match selectIfNodes (xSchedules d)
                (fun l => findCurrentAndNext l now "xbattle") with
        | Threw => None
        | Ok xbattle =>
        match eventsIfNodes (eventSchedules d) now with
        | Threw => None
        | Ok challenge =>
        match processSplatfestData d now with
        | Threw => None
        | Ok fest =>
            Some {| regular := Some regular;
                    anarchy := Some anarchy;
                    xbattle := Some xbattle;
                    challenge := Some challenge;
                    splatfest := fest;
                    salmon := None |}
        end end end end end
    end.

(** The entry pushed on [allSchedules] for a node of the coop lists. The
    callback of the weapons reads its argument with [?.], so only a
    value of [weapons] that is no array throws. *)
Definition salmonEntry (bigRun : bool) (schedule : CoopNode) : Try Rot :=
  let setting : option CoopSetting := setting schedule in
  match match setting with
        | Some s =>
            match weapons s with
            | NoNodes => Ok []
            | NotAList => Threw
            | NodeList l => Ok l
            end
        | None => Ok []
        end with
  | Threw => Threw
  | Ok weapons =>
      Ok {| startTime := coop_startTime schedule;
            endTime := coop_endTime schedule;
            payload :=
              PSalmon
                {| stage :=
                     {| stage_name :=
                          Some (orStr ((setting ≫= coopStage) ≫= name)
                                      "Unknown Stage");
                        stage_image :=
                          orNull (((setting ≫= coopStage) ≫= image) ≫= url) |};
                   sr_weapons :=
                     (fun w => {| stage_name :=
                                    Some (orStr (w ≫= name) "Unknown Weapon");
                                  stage_image :=
                                    orNull ((w ≫= image) ≫= url) |})
                       <$> weapons;
                   sr_boss := orNull ((setting ≫= boss) ≫= name);
                   bossImage := orNull (((setting ≫= boss) ≫= image) ≫= url);
                   isBigRun := bigRun |} |}
  end.

(** One of the two loops that fill [allSchedules]: a [null] node and a
    node without a start or an end are passed over
    ([!schedule?.startTime || !schedule?.endTime]). *)
Fixpoint salmonEntries (bigRun : bool) (nodes : list (option CoopNode))
  : Try (list Rot) :=
  match nodes with
  | [] => Ok []
  | node :: rest =>
      match match node with
            | Some schedule =>
                if truthy (coop_startTime schedule)
                   && truthy (coop_endTime schedule)
                then match salmonEntry bigRun schedule with
                     | Threw => Threw
                     | Ok entry => Ok [entry]
                     end
                else Ok []
            | None => Ok []
            end with
      | Threw => Threw
      | Ok pushed =>
          match salmonEntries bigRun rest with
          | Threw => Threw
          | Ok more => Ok (pushed ++ more)%list
          end
      end
  end.

(** The selection loop of [processSalmonRunData], which leaves at the
    second schedule that starts after [now]. *)
Fixpoint salmonScan (nowMs : Z) (allSchedules : list Rot)
    (current next : option Rot) : ModeState :=
  match allSchedules with
  | [] => {| current := current; next := next |}
  | schedule :: rest =>
      let startMs := msOf (startTime schedule) in
      let endMs := msOf (endTime schedule) in
      if spans startMs endMs nowMs
      then salmonScan nowMs rest (Some schedule) next
      else if num_gt startMs (Some nowMs)
      then match next with
           | None => salmonScan nowMs rest current (Some schedule)
           | Some _ => {| current := current; next := next |}
           end
      else salmonScan nowMs rest current next
  end.

Definition salmonTestWeapon (n : string) : StageInfo :=
  {| stage_name := Some n; stage_image := None |}.

Definition createSalmonRunTestData (now : Z) : ModeState :=
  let twelveHoursLater := Date_toISOString (now + 12 * 60 * 60 * 1000) in
  let thirtySixHoursLater := Date_toISOString (now + 36 * 60 * 60 * 1000) in
  let sixtyHoursLater := Date_toISOString (now + 60 * 60 * 60 * 1000) in
  {| current := Some
       {| startTime := Some (Date_toISOString now);
          endTime := Some twelveHoursLater;
          payload :=
            PSalmon
              {| stage := {| stage_name := Some "Gone Fission Hydroplant";
                             stage_image := None |};
                 sr_weapons := salmonTestWeapon
                   <$> ["Splattershot"; "Splat Roller"; "E-liter 4K";
                        "Splat Dualies"];
                 sr_boss := Some "Cohozuna";
                 bossImage := None;
                 isBigRun := false |} |};
     next := Some
       {| startTime := Some thirtySixHoursLater;
          endTime := Some sixtyHoursLater;
          payload :=
            PSalmon
              {| stage := {| stage_name := Some "Spawning Grounds";
                             stage_image := None |};
                 sr_weapons := salmonTestWeapon
                   <$> ["N-ZAP '85"; "Slosher"; "Heavy Splatling";
                        "Tri-Stringer"];
                 sr_boss := Some "Horrorboros";
                 bossImage := None;
                 isBigRun := false |} |} |}.

(** [allSchedules] before it is sorted: the Big Run entries, then the
    regular ones. The regular nodes are read once the first loop is
    done. *)
Definition salmonSchedules (coop : CoopGrouping) : Try (list Rot) :=
  match iterNodes (bigRunSchedules coop) with
  | Threw => Threw
  | Ok bigRunNodes =>
      match salmonEntries true bigRunNodes with
      | Threw => Threw
      | Ok bigRuns =>
          match iterNodes (coop_regularSchedules coop) with
          | Threw => Threw
          | Ok regularNodes =>
              match salmonEntries false regularNodes with
              | Threw => Threw
              | Ok regulars => Ok (bigRuns ++ regulars)%list
              end
          end
      end
  end.

(** The date the comparator of [allSchedules.sort] reads. *)
Definition scheduleKey (schedule : Rot) : Try (option Z) :=
  Ok (msOf (startTime schedule)).

Definition processSalmonRunData (response : ApiResponse) (now : Z)
  : Try ModeState :=
  match data response ≫= coopGroupingSchedule with
  | None => Ok (createSalmonRunTestData now)
  | Some coop =>
      match salmonSchedules coop with
      | Threw => Threw
      | Ok unsorted =>
          match Array_sort (compareKeys scheduleKey) unsorted with
          | Threw => Threw
          | Ok allSchedules =>
              let found := salmonScan now allSchedules None None in
              match current found, next found with
              | None, None => Ok (createSalmonRunTestData now)
              | _, _ => Ok found
              end
          end
      end
  end.

End Processing.

(** ** The worker: storage, alarms and notifications *)

(** The argument of [chrome.alarms.create]. *)
Inductive AlarmInfo :=
  | When (time : Z)
  | DelayInMinutes (minutes : Z).

(** [chrome.storage.sync]: the notification settings. *)
Record Settings := {
  enableNotifications : bool;
  notifyRegular : bool;
  notifyAnarchy : bool;
  notifyXbattle : bool;
  notifySalmon : bool
}.

(** [settings[key]] *)
Definition settingOf (settings : Settings) (key : string) : bool :=
  if String.eqb key "enableNotifications" then enableNotifications settings
  else if String.eqb key "notifyRegular" then notifyRegular settings
  else if String.eqb key "notifyAnarchy" then notifyAnarchy settings
  else if String.eqb key "notifyXbattle" then notifyXbattle settings
  else if String.eqb key "notifySalmon" then notifySalmon settings
  else false.

(** [chrome.storage.local] *)
Record LocalStore := {
  rotationData : option RotationData;
  lastUpdated : option string;
  isOffline : option bool
}.

(** A call of [chrome.notifications.create]; [n_key] is the key of the
    mode it was made for, which is also part of the id. *)
Record Notification := {
  n_key : string;
  notificationId : string;
  n_title : string;
  message : string
}.

(** What the worker acts on: the two stores, the armed alarms by name,
    and the notifications created so far. *)
Record World := {
  local : LocalStore;
  sync : Settings;
  alarms : gmap string AlarmInfo;
  notifications : list Notification
}.

Definition REFRESH_INTERVAL : Z := 30.

(** A value that is [null] or a number, as a condition. *)
Definition numTruthy (v : option Z) : bool :=
  match v with
  | None => false
  | Some n => negb (n =? 0)
  end.

Definition newline : string := String (Ascii.ascii_of_nat 10) EmptyString.

(** [`${x}`] of an optional string. *)
Definition template (o : option string) : string := default "undefined" o.

Section Worker.
Context `{JSDate} `{JSArray}.

Definition refreshModes : list string :=
  ["regular"; "anarchy"; "xbattle"; "challenge"; "salmon"].

(** The body of the loop of [scheduleNextRefresh]. *)
Definition refreshStep (rotationData : RotationData) (now : Z)
    (nextRefreshTime : option Z) (mode : string) : option Z :=
  match modeOf rotationData mode ≫= current with
  | None => nextRefreshTime
  | Some current =>
      if truthy (endTime current) then
        match msOf (endTime current) with
        | None => nextRefreshTime
        | Some endTime =>
            let refreshTime := endTime + 1 * 60 * 1000 in
            if (now <? refreshTime)
               && (negb (numTruthy nextRefreshTime)
                   || num_lt (Some refreshTime) nextRefreshTime)
            then Some refreshTime
            else nextRefreshTime
        end
      else nextRefreshTime
  end.

Definition scheduleNextRefresh (rotationData : RotationData) (now : Z)
    (alarms : gmap string AlarmInfo) : gmap string AlarmInfo :=
  let nextRefreshTime :=
    fold_left (refreshStep rotationData now) refreshModes None in
  let alarms := delete "smartRefresh" alarms in
  match nextRefreshTime with
  | Some t =>
      if numTruthy nextRefreshTime
      then <["smartRefresh" := When t]> alarms
      else <["refreshRotations" := DelayInMinutes REFRESH_INTERVAL]> alarms
  | None => <["refreshRotations" := DelayInMinutes REFRESH_INTERVAL]> alarms
  end.

Definition validityModes : list string :=
  ["regular"; "anarchy"; "xbattle"; "salmon"].

(** The test of the first loop of [isDataStillValid]. *)
Definition currentNotEnded (rotationData : RotationData) (now : Z)
    (mode : string) : bool :=
  match modeOf rotationData mode ≫= current with
  | None => false
  | Some current =>
      truthy (endTime current) && num_gt (msOf (endTime current)) (Some now)
  end.

(** The test of the second loop of [isDataStillValid]. *)
Definition hasUpcoming (rotationData : RotationData) (mode : string) : bool :=
  match modeOf rotationData mode ≫= next with
  | None => false
  | Some next => truthy (startTime next)
  end.

Definition isDataStillValid (rotationData : RotationData) (now : Z) : bool :=
  if existsb (currentNotEnded rotationData now) validityModes then true
  else if existsb (hasUpcoming rotationData) validityModes then true
  else false.

(** An entry of the [modes] table of [sendRotationNotifications]. *)
Record ModeInfo := {
  key : string;
  mi_name : string;
  mi_setting : string
}.

Definition notifyModes : list ModeInfo :=
  [ {| key := "regular"; mi_name := "Regular"; mi_setting := "notifyRegular" |};
    {| key := "anarchy"; mi_name := "Anarchy"; mi_setting := "notifyAnarchy" |};
    {| key := "xbattle"; mi_name := "X Battle"; mi_setting := "notifyXbattle" |};
    {| key := "salmon"; mi_name := "Salmon Run"; mi_setting := "notifySalmon" |} ].

Definition isNewRotation (newCurrent oldCurrent : option Rot) : bool :=
  match newCurrent with
  | None => false
  | Some n =>
      match oldCurrent with
      | None => true
      | Some o =>
          negb (bool_decide (startTime n = startTime o))
      end
  end.

(** [rot.rule] and [rot.stages], which the Salmon Run rotations lack. *)
Definition mainOf (p : Payload) : option RuleStages :=
  match p with
  | PBattle m | PAnarchy m _ _ | PEvent _ _ _ m => Some m
  | PSalmon _ => None
  end.

(** [rot.stage] and [rot.isBigRun], which only the Salmon Run rotations
    have. *)
Definition salmonOf (p : Payload) : option SalmonBody :=
  match p with
  | PSalmon b => Some b
  | _ => None
  end.

(** [names.join(', ')]: a missing name is joined as the empty string. *)
Definition joinNames (l : list StageInfo) : string :=
  String.concat ", " ((fun s => default EmptyString (stage_name s)) <$> l).

(** The notification of one mode, made when its setting is on and its
    rotation is new. *)
Definition notificationFor (modeInfo : ModeInfo) (newCurrent : Rot)
  : Notification :=
  let isSalmon := String.eqb (key modeInfo) "salmon" in
  {| n_key := key modeInfo;
     notificationId :=
       "rotation-" +:+ key modeInfo +:+ "-" +:+ template (startTime newCurrent);
     n_title :=
       if isSalmon
          && match salmonOf (payload newCurrent) with
             | Some b => isBigRun b
             | None => false
             end
       then "BIG RUN IS HERE!"
       else "New " +:+ mi_name modeInfo +:+ " Rotation!";
     message :=
       if isSalmon
       then "Stage: "
            +:+ orStr ((salmonOf (payload newCurrent)) ≫= (fun b => stage_name (stage b)))
                      "N/A"
       else "Mode: "
            +:+ orStr ((mainOf (payload newCurrent)) ≫= (fun m => rule_name (rule m)))
                      "N/A"
            +:+ newline +:+ "Stages: "
            +:+ orStr (joinNames <$> (stages <$> mainOf (payload newCurrent)))
                      "N/A" |}.

(** The body of the loop of [sendRotationNotifications]: the
    notifications created for one entry of the table. *)
Definition notifyStep (settings : Settings) (newRotations : RotationData)
    (oldRotations : option RotationData) (modeInfo : ModeInfo)
  : list Notification :=
  let newCurrent := modeOf newRotations (key modeInfo) ≫= current in
  let oldCurrent :=
    (oldRotations ≫= (fun o => modeOf o (key modeInfo))) ≫= current in
  if settingOf settings (mi_setting modeInfo)
     && isNewRotation newCurrent oldCurrent
  then match newCurrent with
       | Some n => [notificationFor modeInfo n]
       | None => []
       end
  else [].

(** [sendRotationNotifications]: the notifications it creates, in order. *)
Definition sendRotationNotifications (settings : Settings)
    (newRotations : RotationData) (oldRotations : option RotationData)
  : list Notification :=
  if negb (enableNotifications settings) then []
  else notifyModes ≫= notifyStep settings newRotations oldRotations.

(** What the request of the feed gives: a transport failure, or a
    response with its [ok] flag and its body ([None] when the body is not
    JSON and [response.json()] throws). *)
Inductive FetchResult :=
  | NetworkError
  | Response (ok : bool) (json : option ApiResponse).

(** The [try] block of [fetchAllData]; [Threw] when an exception reaches
    the [catch]. Nothing has been written to the stores when it throws.
    The clock is read once per cycle. [processSalmonRunData] returns an
    object whenever it returns, so the alternative of
    [|| SalmonRun.createSalmonRunTestData()] is never taken. *)
Definition fetchCycle (w : World) (fetched : FetchResult) (now : Z)
  : Try World :=
  let oldRotationData := rotationData (local w) in
  match fetched with
  | Response true (Some apiData) =>
      let battleData :=
        default (createTestData now) (processRotationData apiData now) in
      match processSalmonRunData apiData now with
      | Threw => Threw
      | Ok salmonData =>
          let newRotationData :=
            {| regular := regular battleData;
               anarchy := anarchy battleData;
               xbattle := xbattle battleData;
               challenge := challenge battleData;
               splatfest := splatfest battleData;
               salmon := Some salmonData |} in
          Ok {| local := {| rotationData := Some newRotationData;
                            lastUpdated := Some (Date_toISOString now);
                            isOffline := Some false |};
                sync := sync w;
                alarms := scheduleNextRefresh newRotationData now (alarms w);
                notifications :=
                  (notifications w
                   ++ sendRotationNotifications (sync w) newRotationData
                        oldRotationData)%list |}
      end
  | _ => Threw
  end.

(** The [catch] block of [fetchAllData]. *)
Definition serveStale (w : World) (now : Z) : World * bool :=
  match rotationData (local w) with
  | Some cached =>
      if isDataStillValid cached now
      then ({| local := {| rotationData := rotationData (local w);
                           lastUpdated := lastUpdated (local w);
                           isOffline := Some true |};
               sync := sync w;
               alarms := <["refreshRotations" := DelayInMinutes 5]> (alarms w);
               notifications := notifications w |},
            true)
      else (w, false)
  | None => (w, false)
  end.

Definition fetchAllData (w : World) (fetched : FetchResult) (now : Z)
  : World * bool :=
  match fetchCycle w fetched now with
  | Ok w' => (w', true)
  | Threw => serveStale w now
  end.

End Worker.

(** ** A concrete [Date] for the feed's timestamps

    The feed and [toISOString] write instants as
    [YYYY-MM-DDTHH:MM:SSZ], with optional milliseconds. [IsoDate] reads
    and writes that format (years 0000 to 9999) with the days-from-civil
    computation of the proleptic Gregorian calendar; every other string
    is an invalid date. It instantiates [JSDate] where a property is
    evaluated on concrete feeds. *)
Module IsoDate.

Definition digit (c : Ascii.ascii) : option Z :=
  let n := Z.of_nat (Ascii.nat_of_ascii c) in
  if (48 <=? n) && (n <=? 57) then Some (n - 48) else None.

Fixpoint number (cs : list Ascii.ascii) (acc : Z) : option Z :=
  match cs with
  | [] => Some acc
  | c :: r =>
      match digit c with
      | Some d => number r (10 * acc + d)
      | None => None
      end
  end.

Definition daysFromCivil (y m d : Z) : Z :=
  let y' := if m <=? 2 then y - 1 else y in
  let era := y' / 400 in
  let yoe := y' - era * 400 in
  let mp := (m + 9) mod 12 in
  let doy := (153 * mp + 2) / 5 + d - 1 in
  let doe := yoe * 365 + yoe / 4 - yoe / 100 + doy in
  era * 146097 + doe - 719468.

Definition civilFromDays (z : Z) : Z * Z * Z :=
  let z := z + 719468 in
  let era := z / 146097 in
  let doe := z - era * 146097 in
  let yoe := (doe - doe / 1460 + doe / 36524 - doe / 146096) / 365 in
  let doy := doe - (365 * yoe + yoe / 4 - yoe / 100) in
  let mp := (5 * doy + 2) / 153 in
  let d := doy - (153 * mp + 2) / 5 + 1 in
  let m := if mp <? 10 then mp + 3 else mp - 9 in
  let y := yoe + era * 400 in
  (if m <=? 2 then y + 1 else y, m, d).

Definition inRange (lo v hi : Z) : bool := (lo <=? v) && (v <=? hi).

Definition fields (y mo d h mi s ms : list Ascii.ascii) : option Z :=
  y ← number y 0; mo ← number mo 0; d ← number d 0;
  h ← number h 0; mi ← number mi 0; s ← number s 0; ms ← number ms 0;
  if inRange 1 mo 12 && inRange 1 d 31 && inRange 0 h 23
     && inRange 0 mi 59 && inRange 0 s 59
  then Some ((((daysFromCivil y mo d * 24 + h) * 60 + mi) * 60 + s) * 1000 + ms)
  else None.

Definition getTime (s : string) : option Z :=
  match String.list_ascii_of_string s with
  | [y1; y2; y3; y4; "-"; m1; m2; "-"; d1; d2; "T";
     h1; h2; ":"; n1; n2; ":"; s1; s2; "Z"]%char =>
      fields [y1; y2; y3; y4] [m1; m2] [d1; d2] [h1; h2] [n1; n2] [s1; s2] []
  | [y1; y2; y3; y4; "-"; m1; m2; "-"; d1; d2; "T";
     h1; h2; ":"; n1; n2; ":"; s1; s2; "."; f1; f2; f3; "Z"]%char =>
      fields [y1; y2; y3; y4] [m1; m2] [d1; d2] [h1; h2] [n1; n2] [s1; s2]
             [f1; f2; f3]
  | _ => None
  end.

Definition digitChar (d : Z) : Ascii.ascii :=
  Ascii.ascii_of_nat (Z.to_nat (48 + d mod 10)).

(** The last [width] decimal digits of [v]. *)
Fixpoint pad (width : nat) (v : Z) (tail : string) : string :=
  match width with
  | O => tail
  | S w => pad w (v / 10) (String (digitChar v) tail)
  end.

Definition toISOString (t : Z) : string :=
  let ms := t mod 1000 in
  let secs := t / 1000 in
  let s := secs mod 60 in
  let mins := secs / 60 in
  let mi := mins mod 60 in
  let hours := mins / 60 in
  let h := hours mod 24 in
  let '(y, mo, d) := civilFromDays (hours / 24) in
  pad 4 y ("-" +:+ pad 2 mo ("-" +:+ pad 2 d ("T" +:+ pad 2 h (":" +:+
    pad 2 mi (":" +:+ pad 2 s ("." +:+ pad 3 ms "Z")))))).

Definition date : JSDate :=
  {| Date_getTime := getTime; Date_toISOString := toISOString |}.

End IsoDate.


(** ** Vocabulary of the properties *)

(** The keys of the modes a snapshot holds. *)
Definition allModes : list string :=
  ["regular"; "anarchy"; "xbattle"; "challenge"; "salmon"].

(** The keys of the modes that have a notification setting. *)
Definition notifiedKeys : list string :=
  ["regular"; "anarchy"; "xbattle"; "salmon"].

(** [rotationData?.[mode]?.current] and [rotationData?.[mode]?.next] *)
Definition currentOf (rd : option RotationData) (mode : string) : option Rot :=
  (rd ≫= (fun r => modeOf r mode)) ≫= current.

Definition nextOf (rd : option RotationData) (mode : string) : option Rot :=
  (rd ≫= (fun r => modeOf r mode)) ≫= next.

(** Two snapshots that hold the same state for every mode with a
    notification setting; they may differ in [challenge] and
    [splatfest]. *)
Definition sameNotified (a b : RotationData) : Prop :=
  regular a = regular b /\ anarchy a = anarchy b
  /\ xbattle a = xbattle b /\ salmon a = salmon b.

Definition sameNotifiedOld (a b : option RotationData) : Prop :=
  match a, b with
  | Some x, Some y => sameNotified x y
  | None, None => True
  | _, _ => False
  end.

(** The request failed: the transport threw, or the status is not ok. *)
Definition requestFailed (fetched : FetchResult) : Prop :=
  match fetched with
  | NetworkError => True
  | Response ok _ => ok = false
  end.

(** The wake time a mode proposes: one minute after the end of its
    current rotation, when it has one with a readable end time. *)
Definition wakeCandidate `{JSDate} (rd : RotationData) (mode : string)
  : option Z :=
  match modeOf rd mode ≫= current with
  | Some cur =>
      if truthy (endTime cur)
      then (fun e => e + 60000) <$> msOf (endTime cur)
      else None
  | None => None
  end.

(** The candidates of the given modes that lie strictly after [now]. *)
Definition futureCandidates `{JSDate} (rd : RotationData) (now : Z)
    (modes : list string) : list Z :=
  filter (fun t => now < t) (omap (wakeCandidate rd) modes).

Definition isMinimum (m : Z) (l : list Z) : Prop :=
  m ∈ l /\ forall x, x ∈ l -> m <= x.

(** What the loop of [scheduleNextRefresh] holds after the modes [seen]:
    nothing when no candidate of theirs is in the future, and otherwise
    the least of their future candidates. *)
Definition refreshInv `{JSDate} (rd : RotationData) (now : Z) (seen : list string)
    (acc : option Z) : Prop :=
  match acc with
  | None => futureCandidates rd now seen = []
  | Some m => isMinimum m (futureCandidates rd now seen)
  end.

(** An alarm of that name is pending. *)
Definition armed (al : gmap string AlarmInfo) (name : string) : Prop :=
  is_Some (al !! name).

Definition atMostOneArmed (al : gmap string AlarmInfo) : Prop :=
  ~ (armed al "smartRefresh" /\ armed al "refreshRotations").

(** A festival-schedule node with live settings that starts strictly
    after [now]. *)
Definition upcomingFest `{JSDate} (now : Z) (node : FestNode) : bool :=
  festMatchSettings node && num_gt (msOf (fest_startTime node)) (Some now).

(** The entry reported for a scheduled festival. *)
Definition scheduledFest (node : FestNode) : Fest :=
  {| title := "Upcoming Splatfest";
     state := "SCHEDULED";
     f_startTime := fest_startTime node;
     f_endTime := fest_endTime node;
     teams := [] |}.

(** An entry of the festival list that is a node and is not upcoming:
    the loop passes it over. *)
Definition notUpcoming `{JSDate} (now : Z) (entry : option FestNode) : Prop :=
  exists node, entry = Some node /\ upcomingFest now node = false.

(** [node] is the first upcoming node of [l] in feed order, and the
    entries before it are nodes. *)
Definition firstUpcoming `{JSDate} (now : Z) (l : list (option FestNode))
    (node : FestNode) : Prop :=
  exists pre post, l = (pre ++ Some node :: post)%list
    /\ upcomingFest now node = true
    /\ Forall (notUpcoming now) pre.

(** A [null] entry of [l] comes before every upcoming node. *)
Definition nullBeforeUpcoming `{JSDate} (now : Z) (l : list (option FestNode))
  : Prop :=
  exists pre post, l = (pre ++ None :: post)%list
    /\ Forall (notUpcoming now) pre.

(** [node] is an upcoming node of [l] and no upcoming node of [l] starts
    before it. *)
Definition earliestUpcoming `{JSDate} (now : Z) (l : list (option FestNode))
    (node : FestNode) : Prop :=
  Some node ∈ l /\ upcomingFest now node = true
  /\ forall x, Some x ∈ l -> upcomingFest now x = true ->
       num_le (msOf (fest_startTime node)) (msOf (fest_startTime x)) = true.

(** The upcoming nodes of a list come in ascending order of start. *)
Definition upcomingAscending `{JSDate} (now : Z) (l : list (option FestNode))
  : Prop :=
  StronglySorted
    (fun a b => forall x y, a = Some x -> b = Some y ->
                upcomingFest now x = true -> upcomingFest now y = true ->
                num_le (msOf (fest_startTime x)) (msOf (fest_startTime y))
                = true) l.

(** The objects of a list of the feed the code maps over: none when the
    field is missing, and nothing when the value is no list or holds a
    [null] entry. *)
Definition objectsOf {A} (field : Entries A) : option (list A) :=
  match field with
  | NoNodes => Some []
  | NotAList => None
  | NodeList l => mapM id l
  end.

(** A field the code maps or iterates over, reading properties of the
    entries, that makes it throw: a value that is no list, or a list that
    holds a [null]. *)
Definition illTyped {A} (field : Entries A) : Prop :=
  field = NotAList \/ exists l, field = NodeList l /\ None ∈ l.

(** A schedule key that is present without a list-shaped [nodes]
    collection. *)
Definition noListNodes {A} (section : option (NodesField A)) : Prop :=
  exists f, section = Some f /\ forall l, f <> NodeList l.

Definition battleKeyBad (d : ApiData) : Prop :=
  noListNodes (regularSchedules d) \/ noListNodes (bankaraSchedules d)
  \/ noListNodes (xSchedules d).

Definition coopKeyBad (d : ApiData) : Prop :=
  exists coop, coopGroupingSchedule d = Some coop
    /\ (noListNodes (coop_regularSchedules coop)
        \/ noListNodes (bigRunSchedules coop)).

(** A list of battle nodes the sort throws on: it holds a [null] and
    another entry, which the comparator is called on. *)
Definition nullAmongSeveral {A} (section : option (Entries A)) : Prop :=
  exists l, section = Some (NodeList l) /\ (2 <= length l)%nat /\ None ∈ l.

(** An entry of the event list the loop throws on: a [null], or an event
    with its settings whose stages or time periods are ill-typed. *)
Definition eventThrows (entry : option EventNode) : Prop :=
  match entry with
  | None => True
  | Some event =>
      exists s eventInfo,
        leagueMatchSetting event = Some s
        /\ leagueMatchEvent s = Some eventInfo
        /\ (illTyped (lg_vsStages s) \/ illTyped (timePeriods event))
  end.

(** The event collection cannot be iterated, or an entry of it throws. *)
Definition eventsThrow (d : ApiData) : Prop :=
  eventSchedules d = Some NotAList
  \/ exists l, eventSchedules d = Some (NodeList l) /\ Exists eventThrows l.

(** The festival section throws: the teams of the current festival are
    ill-typed or, without a current festival, the festival collection
    cannot be iterated or holds a [null] before its first upcoming
    node. *)
Definition festThrows `{JSDate} (d : ApiData) (now : Z) : Prop :=
  match currentFest d with
  | Some cf => illTyped (cf_teams cf)
  | None =>
      festSchedules d = Some NotAList
      \/ exists l, festSchedules d = Some (NodeList l)
                   /\ nullBeforeUpcoming now l
  end.

(** A section of the battle processor throws. *)
Definition sectionThrows `{JSDate} (d : ApiData) (now : Z) : Prop :=
  nullAmongSeveral (regularSchedules d)
  \/ nullAmongSeveral (bankaraSchedules d)
  \/ nullAmongSeveral (xSchedules d)
  \/ eventsThrow d
  \/ festThrows d now.

(** The failure condition in the words of the claim: no root data
    object, or one of the three battle keys without a list of nodes. *)
Definition rootOrBattleKeyBad (response : ApiResponse) : Prop :=
  data response = None
  \/ exists d, data response = Some d /\ battleKeyBad d.

(** The window of a rotation contains [now], or starts strictly after
    it; a rotation without a start or an end does neither. *)
Definition spansNow `{JSDate} (now : Z) (r : Rot) : bool :=
  truthy (startTime r) && truthy (endTime r)
  && spans (msOf (startTime r)) (msOf (endTime r)) now.

Definition startsAfter `{JSDate} (now : Z) (r : Rot) : bool :=
  truthy (startTime r) && truthy (endTime r)
  && num_gt (msOf (startTime r)) (Some now).

(** [c] is the last item of [items] whose window contains [now], if
    any: the last write of a scan of [items]. *)
Definition lastSpanning `{JSDate} (now : Z) (items : list Rot)
    (c : option Rot) : Prop :=
  match c with
  | Some r =>
      exists pre post, items = (pre ++ r :: post)%list
        /\ spansNow now r = true
        /\ Forall (fun x => spansNow now x = false) post
  | None => Forall (fun x => spansNow now x = false) items
  end.

(** [c] is the first item of [items] whose window contains [now], if
    any. *)
Definition firstSpanning `{JSDate} (now : Z) (items : list Rot)
    (c : option Rot) : Prop :=
  match c with
  | Some r =>
      exists pre post, items = (pre ++ r :: post)%list
        /\ spansNow now r = true
        /\ Forall (fun x => spansNow now x = false) pre
  | None => Forall (fun x => spansNow now x = false) items
  end.

(** [n] is, among the items of [items] that start strictly after [now],
    the first one with the least start, if any. *)
Definition earliestAfter `{JSDate} (now : Z) (items : list Rot)
    (n : option Rot) : Prop :=
  match n with
  | Some r =>
      exists pre post, items = (pre ++ r :: post)%list
        /\ startsAfter now r = true
        /\ Forall (fun x => startsAfter now x = true ->
                     num_lt (msOf (startTime r)) (msOf (startTime x)) = true)
                  pre
        /\ Forall (fun x => startsAfter now x = true ->
                     num_le (msOf (startTime r)) (msOf (startTime x)) = true)
                  post
  | None => Forall (fun x => startsAfter now x = false) items
  end.

(** The selection the claim describes, over the items in scan order. *)
Definition intervalIndex `{JSDate} (now : Z) (items : list Rot)
    (st : ModeState) : Prop :=
  lastSpanning now items (current st) /\ earliestAfter now items (next st).

(** The rotation a selector builds of an entry of its list, if it builds
    one: none of a [null] entry, none of a node whose construction
    throws. *)
Definition built (mk : VsNode -> Try Rot) (entry : option VsNode)
  : option Rot :=
  match entry with
  | Some node =>
      match mk node with
      | Ok r => Some r
      | Threw => None
      end
  | None => None
  end.

(** The candidate rotations of a list of battle nodes, in its order. *)
Definition candidates (mk : VsNode -> Try Rot) (l : list (option VsNode))
  : list Rot :=
  omap (built mk) l.

(** The candidate rotations of an event with its settings: one per time
    period. *)
Definition periodsOf (event : EventNode) : list Rot :=
  match leagueMatchSetting event with
  | Some s =>
      match leagueMatchEvent s with
      | Some eventInfo =>
          match objectsOf (lg_vsStages s), objectsOf (timePeriods event) with
          | Some stages, Some periods =>
              processPeriod
                {| rule := default unknownMode (lg_vsRule s);
                   stages := mapStage <$> stages |} eventInfo
              <$> periods
          | _, _ => []
          end
      | None => []
      end
  | None => []
  end.

(** The candidate rotations of the event schedule, in feed order. *)
Definition eventCandidates (nodes : list (option EventNode)) : list Rot :=
  nodes ≫= (fun entry => from_option periodsOf [] entry).

(** The selection of the event schedule: as [intervalIndex], with the
    first window that contains [now] as the current one. *)
Definition eventIndex `{JSDate} (now : Z) (items : list Rot)
    (st : ModeState) : Prop :=
  firstSpanning now items (current st) /\ earliestAfter now items (next st).

(** The shifts listed in a node collection of the coop section, and in
    the section: the Big Run ones first. *)
Definition listedShifts (section : option (Entries CoopNode))
  : list CoopNode :=
  match section with
  | Some (NodeList l) => omap id l
  | _ => []
  end.

Definition coopShifts (coop : CoopGrouping) : list CoopNode :=
  (listedShifts (bigRunSchedules coop)
   ++ listedShifts (coop_regularSchedules coop))%list.

(** The window of a shift of the feed contains [now] or starts strictly
    after it; a shift without a start or an end does neither. *)
Definition shiftAhead `{JSDate} (now : Z) (schedule : CoopNode) : bool :=
  truthy (coop_startTime schedule) && truthy (coop_endTime schedule)
  && (spans (msOf (coop_startTime schedule)) (msOf (coop_endTime schedule))
            now
      || num_gt (msOf (coop_startTime schedule)) (Some now)).

Definition noShiftAhead `{JSDate} (now : Z) (coop : CoopGrouping) : Prop :=
  Forall (fun schedule => shiftAhead now schedule = false) (coopShifts coop).




(** The rotation has both a start and an end. *)
Definition hasWindow (r : Rot) : Prop :=
  truthy (startTime r) && truthy (endTime r) = true.

(** The start of a rotation as a number. *)
Definition startMsOf `{JSDate} (r : Rot) : option Z := msOf (startTime r).

(** [sortedNodes] of [findCurrentAndNext] and
    [findCurrentAndNextAnarchy], and the start of a node as a number. *)
Definition sortedNodes `{JSDate} `{JSArray} (nodes : list (option VsNode))
  : Try (list (option VsNode)) :=
  Array_sort (compareKeys startKey) nodes.

Definition nodeStartMs `{JSDate} (node : option VsNode) : option Z :=
  readKey startKey node.

(** [allSchedules] of [processSalmonRunData] once sorted. *)
Definition sortedSchedules `{JSDate} `{JSArray} (unsorted : list Rot)
  : Try (list Rot) :=
  Array_sort (compareKeys scheduleKey) unsorted.

(** What a selection may hold: a current rotation whose window contains
    [now] and a next rotation that starts strictly after it. *)
Definition soundState `{JSDate} (now : Z) (st : ModeState) : Prop :=
  (forall c, current st = Some c -> spansNow now c = true)
  /\ (forall n, next st = Some n -> startsAfter now n = true).

(** No item of the list contains [now] or starts after it. *)
Definition nothingLeft `{JSDate} (now : Z) (items : list Rot) : Prop :=
  Forall (fun x => spansNow now x = false /\ startsAfter now x = false) items.

(** A list in ascending order of a numeric key. *)
Definition ascendingBy {A} (k : A -> option Z) (l : list A) : Prop :=
  StronglySorted (fun a b => num_le (k a) (k b) = true) l.

(** Two lists hold the items of every key in the same order. *)
Definition sameOrderPerKey {A} (k : A -> option Z) (l1 l2 : list A) : Prop :=
  forall v : Z, filter (fun a => k a = Some v) l1
                = filter (fun a => k a = Some v) l2.

(** ** Feeds and snapshots the properties are evaluated on *)

Module Sample.

(** A rotation with that window and no rule or stage. *)
Definition window (s e : string) : Rot :=
  {| startTime := Some s;
     endTime := Some e;
     payload := PBattle {| rule := unknownMode; stages := [] |} |}.

(** The rotation the event selector builds for an event of that title
    without rule or stages. *)
Definition eventRot (title s e : string) : Rot :=
  {| startTime := Some s; endTime := Some e;
     payload := PEvent title EmptyString EmptyString
                  {| rule := unknownMode; stages := [] |} |}.

(** 2024-01-01T00:00:00Z *)
Definition midnight : Z := 1704067200000.

(** 2023-12-31T22:01:00Z *)
Definition lateEvening : Z := midnight - 119 * 60 * 1000.

(** The entry the Salmon Run processor builds for a shift without
    settings. *)
Definition shift (s e : string) : Rot :=
  {| startTime := Some s; endTime := Some e;
     payload :=
       PSalmon {| stage := {| stage_name := Some "Unknown Stage";
                              stage_image := None |};
                  sr_weapons := []; sr_boss := None; bossImage := None;
                  isBigRun := false |} |}.

Definition eventNode (title s e : string) : EventNode :=
  {| leagueMatchSetting := Some
       {| leagueMatchEvent := Some {| ev_name := Some title; ev_desc := None;
                                      ev_regulation := None |};
          lg_vsRule := None; lg_vsStages := NoNodes |};
     timePeriods := NodeList [Some {| period_startTime := Some s;
                                      period_endTime := Some e |}] |}.

Definition coopNode (s e : string) : CoopNode :=
  {| coop_startTime := Some s; coop_endTime := Some e; setting := None |}.

(** A feed with a challenge from 22:00 to 02:00 around [midnight] and a
    Salmon Run shift that ends at 23:00. *)
Definition lateFeed : ApiResponse :=
  {| data := Some
       {| regularSchedules := None; bankaraSchedules := None;
          xSchedules := None;
          eventSchedules := Some (NodeList
            [Some (eventNode "Challenge" "2023-12-31T22:00:00Z"
                             "2024-01-01T02:00:00Z")]);
          coopGroupingSchedule := Some
            {| coop_regularSchedules := Some (NodeList
                 [Some (coopNode "2023-12-30T07:00:00Z"
                                 "2023-12-31T23:00:00Z")]);
               bigRunSchedules := None |};
          currentFest := None; festSchedules := None |} |}.

(** The snapshot a cycle stores of [lateFeed] at [lateEvening]: at
    [midnight] only its challenge is still running, the Salmon Run shift
    has ended and nothing is upcoming. *)
Definition challengeOnly : RotationData :=
  {| regular := Some emptyState;
     anarchy := Some emptyState;
     xbattle := Some emptyState;
     challenge := Some
       {| current := Some (eventRot "Challenge" "2023-12-31T22:00:00Z"
                                    "2024-01-01T02:00:00Z");
          next := None |};
     splatfest := None;
     salmon := Some
       {| current := Some (shift "2023-12-30T07:00:00Z" "2023-12-31T23:00:00Z");
          next := None |} |}.

(** A worker with every notification off and nothing stored, and the
    worker after a cycle that fetched [lateFeed] at [lateEvening]. *)
Definition quietWorld : World :=
  {| local := {| rotationData := None; lastUpdated := None;
                 isOffline := None |};
     sync := {| enableNotifications := false; notifyRegular := false;
                notifyAnarchy := false; notifyXbattle := false;
                notifySalmon := false |};
     alarms := ∅;
     notifications := [] |}.

Definition challengeWorld : World :=
  (fetchAllData (H := IsoDate.date) (H0 := insertion) quietWorld
     (Response true (Some lateFeed)) lateEvening).1.

Definition allOn : Settings :=
  {| enableNotifications := true;
     notifyRegular := true;
     notifyAnarchy := true;
     notifyXbattle := true;
     notifySalmon := true |}.

Definition node (s e : string) : VsNode :=
  {| node_startTime := Some s; node_endTime := Some e;
     regularMatchSetting := None; xMatchSetting := None;
     bankaraMatchSettings := None |}.

(** A feed whose only schedule is one regular rotation from 23:00 to
    01:00 around [midnight]. *)
Definition oneRegular : ApiResponse :=
  {| data := Some
       {| regularSchedules := Some (NodeList
            [Some (node "2023-12-31T23:00:00Z" "2024-01-01T01:00:00Z")]);
          bankaraSchedules := None; xSchedules := None;
          eventSchedules := None; coopGroupingSchedule := None;
          currentFest := None; festSchedules := None |} |}.

Definition freshWorld : World :=
  {| local := {| rotationData := None; lastUpdated := None;
                 isOffline := None |};
     sync := allOn;
     alarms := ∅;
     notifications := [] |}.

(** The world after a first cycle that fetched [oneRegular] at [midnight],
    and after a second one, ten minutes later, whose request failed. *)
Definition afterFetch : World :=
  (fetchAllData (H := IsoDate.date) (H0 := insertion) freshWorld
     (Response true (Some oneRegular)) midnight).1.

Definition afterFailure : World :=
  (fetchAllData (H := IsoDate.date) (H0 := insertion) afterFetch NetworkError
     (midnight + 10 * 60 * 1000)).1.

Definition festNode (s e : string) : FestNode :=
  {| fest_startTime := Some s; fest_endTime := Some e;
     festMatchSettings := true |}.

(** Two scheduled festivals, the later one listed first. *)
Definition twoFests : list (option FestNode) :=
  [Some (festNode "2024-03-01T00:00:00Z" "2024-03-03T00:00:00Z");
   Some (festNode "2024-02-01T00:00:00Z" "2024-02-03T00:00:00Z")].

Definition twoFestsData : ApiData :=
  {| regularSchedules := None; bankaraSchedules := None; xSchedules := None;
     eventSchedules := None; coopGroupingSchedule := None;
     currentFest := None; festSchedules := Some (NodeList twoFests) |}.

(** A feed whose only fault is a coop section whose [nodes] is not a
    list. *)
Definition badCoop : ApiResponse :=
  {| data := Some
       {| regularSchedules := Some (NodeList []);
          bankaraSchedules := None; xSchedules := None;
          eventSchedules := None;
          coopGroupingSchedule := Some
            {| coop_regularSchedules := Some NotAList;
               bigRunSchedules := None |};
          currentFest := None; festSchedules := None |} |}.

(** Two events whose windows both contain [midnight]: the first from 20:00 to
    04:00, the second from 22:00 to 02:00. *)
Definition overlappingEvents : list (option EventNode) :=
  [Some (eventNode "Long" "2023-12-31T20:00:00Z" "2024-01-01T04:00:00Z");
   Some (eventNode "Short" "2023-12-31T22:00:00Z" "2024-01-01T02:00:00Z")].

Definition longRot : Rot :=
  eventRot "Long" "2023-12-31T20:00:00Z" "2024-01-01T04:00:00Z".

Definition shortRot : Rot :=
  eventRot "Short" "2023-12-31T22:00:00Z" "2024-01-01T02:00:00Z".

(** 2024-01-01T11:00:00Z *)
Definition eleven : Z := midnight + 11 * 60 * 60 * 1000.

(** A snapshot whose regular rotation runs from 10:00 to 12:00 and whose
    anarchy rotation runs from 10:00 to 12:05. *)
Definition twoCurrent : RotationData :=
  {| regular := Some
       {| current := Some (window "2024-01-01T10:00:00Z" "2024-01-01T12:00:00Z");
          next := None |};
     anarchy := Some
       {| current := Some (window "2024-01-01T10:00:00Z" "2024-01-01T12:05:00Z");
          next := None |};
     xbattle := Some emptyState;
     challenge := Some emptyState;
     splatfest := None;
     salmon := None |}.

(** 2024-01-01T12:01:00Z *)
Definition twelveOhOne : Z := midnight + (12 * 60 + 1) * 60 * 1000.

(** The same snapshot with another challenge state and a festival. *)
Definition twoCurrentWithEvent : RotationData :=
  {| regular := regular twoCurrent;
     anarchy := anarchy twoCurrent;
     xbattle := xbattle twoCurrent;
     challenge := Some
       {| current := Some longRot; next := Some shortRot |};
     splatfest := Some (scheduledFest
                          (festNode "2024-03-01T00:00:00Z"
                                    "2024-03-03T00:00:00Z"));
     salmon := salmon twoCurrent |}.


(** A cached snapshot without any current rotation, whose next Salmon Run
    shift starts two hours after [midnight]. *)
Definition salmonNextOnly : RotationData :=
  {| regular := Some emptyState;
     anarchy := Some emptyState;
     xbattle := Some emptyState;
     challenge := Some emptyState;
     splatfest := None;
     salmon := Some
       {| current := None;
          next := Some (window "2024-01-01T02:00:00Z" "2024-01-02T18:00:00Z") |} |}.

Definition offlineWorld : World :=
  {| local := {| rotationData := Some salmonNextOnly;
                 lastUpdated := Some "2023-12-31T12:00:00.000Z";
                 isOffline := Some false |};
     sync := allOn;
     alarms := ∅;
     notifications := [] |}.

(** A response without a root data object. *)
Definition noRoot : ApiResponse := {| data := None |}.

(** An event with its settings whose [timePeriods] is an object, and a
    feed that holds nothing else. *)
Definition brokenEvent : EventNode :=
  {| leagueMatchSetting := Some
       {| leagueMatchEvent := Some {| ev_name := Some "Broken";
                                      ev_desc := None;
                                      ev_regulation := None |};
          lg_vsRule := None; lg_vsStages := NoNodes |};
     timePeriods := NotAList |}.

Definition brokenEventFeed : ApiResponse :=
  {| data := Some
       {| regularSchedules := None; bankaraSchedules := None;
          xSchedules := None;
          eventSchedules := Some (NodeList [Some brokenEvent]);
          coopGroupingSchedule := None;
          currentFest := None; festSchedules := None |} |}.

(** A regular node from 23:00 to 01:00 around [midnight] whose
    [vsStages] is an object. *)
Definition brokenNode : VsNode :=
  {| node_startTime := Some "2023-12-31T23:00:00Z";
     node_endTime := Some "2024-01-01T01:00:00Z";
     regularMatchSetting := Some {| vsRule := None; vsStages := NotAList |};
     xMatchSetting := None;
     bankaraMatchSettings := None |}.


Definition liveCoop : CoopGrouping :=
  {| coop_regularSchedules := Some (NodeList
       [Some (coopNode "2023-12-31T16:00:00Z" "2024-01-02T08:00:00Z")]);
     bigRunSchedules := Some (NodeList
       [Some (coopNode "2024-01-02T08:00:00Z" "2024-01-04T00:00:00Z")]) |}.

Definition coopFeed (coop : CoopGrouping) : ApiResponse :=
  {| data := Some
       {| regularSchedules := None; bankaraSchedules := None;
          xSchedules := None; eventSchedules := None;
          coopGroupingSchedule := Some coop;
          currentFest := None; festSchedules := None |} |}.

End Sample.

(** ** The install listener and the stored settings *)

(** The keys the install listener writes to [chrome.storage.sync], all
    off. *)
Definition defaultSettings : list (string * bool) :=
  [("enableNotifications", false); ("notifyRegular", false);
   ("notifyAnarchy", false); ("notifyXbattle", false);
   ("notifySalmon", false)].

(** [chrome.storage.sync.set(obj)]: the keys of [obj] are written over
    the store. *)
Definition storageSet (obj : list (string * bool)) (store : gmap string bool)
  : gmap string bool :=
  foldr (fun kv acc => <[kv.1 := kv.2]> acc) store obj.

(** The settings part of the [onInstalled] listener: the defaults are
    written on a fresh install only, and only when the store has no
    [enableNotifications] key. *)
Definition onInstalled (reason : string) (store : gmap string bool)
  : gmap string bool :=
  if String.eqb reason "install" then
    match store !! "enableNotifications" with
    | None => storageSet defaultSettings store
    | Some _ => store
    end
  else store.

(** The settings [sendRotationNotifications] reads from the store: a key
    that is missing reads as [undefined], which is falsy. *)
Definition readSettings (store : gmap string bool) : Settings :=
  {| enableNotifications := default false (store !! "enableNotifications");
     notifyRegular := default false (store !! "notifyRegular");
     notifyAnarchy := default false (store !! "notifyAnarchy");
     notifyXbattle := default false (store !! "notifyXbattle");
     notifySalmon := default false (store !! "notifySalmon") |}.

(** The alarm listener: the two alarms of the worker start a fetch cycle,
    any other alarm is ignored. *)
Definition onAlarm `{JSDate} `{JSArray} (w : World) (alarmName : string)
    (fetched : FetchResult) (now : Z) : World :=
  if String.eqb alarmName "refreshRotations"
     || String.eqb alarmName "smartRefresh"
  then (fetchAllData w fetched now).1
  else w.

(** ** Vocabulary of the further properties *)

(** One of the two alarms of the worker is pending. *)
Definition someTimerArmed (al : gmap string AlarmInfo) : Prop :=
  armed al "smartRefresh" \/ armed al "refreshRotations".

(** ** Stage ids

    The stage-id helpers of the utilities work on strings, which are
    sequences of UTF-16 code units here; their regular expressions have
    no [u] flag and match code unit by code unit. [toLowerCase] is an
    interface the functions are parametrised by. *)

(** The code units of a string literal of the source (all of them are
    ASCII). *)
Definition units (s : string) : list N :=
  N_of_ascii <$> String.list_ascii_of_string s.

(** [s.toLowerCase()] *)
Class JSString := {
  toLowerCase : list N -> list N
}.

Definition isOneOf (cs : list N) (c : N) : bool := existsb (N.eqb c) cs.

(** The class [\s], which is also what [trim] removes: the white space
    and line terminator code units of ECMAScript. *)
Definition isWhiteSpace (c : N) : bool :=
  (isOneOf [9; 10; 11; 12; 13; 32; 160; 5760; 8232; 8233; 8239; 8287;
            12288; 65279] c
   || (8192 <=? c) && (c <=? 8202))%N.

(** [[''’]], [&], [[.,:;!?]], [[-–—]] and [_]. *)
Definition isApostrophe (c : N) : bool := isOneOf [39; 8217]%N c.
Definition isAmpersand (c : N) : bool := isOneOf [38]%N c.
Definition isPunctuation (c : N) : bool := isOneOf [46; 44; 58; 59; 33; 63]%N c.
Definition isDash (c : N) : bool := isOneOf [45; 8211; 8212]%N c.
Definition isUnderscore (c : N) : bool := isOneOf [95]%N c.

Fixpoint trimStart (s : list N) : list N :=
  match s with
  | [] => []
  | c :: rest => if isWhiteSpace c then trimStart rest else s
  end.

(** [s.trim()] *)
Definition trim (s : list N) : list N :=
  reverse (trimStart (reverse (trimStart s))).

(** [s.replace(/[class]/g, r)] *)
Definition replaceEach (class : N -> bool) (r : list N) (s : list N) : list N :=
  s ≫= (fun c => if class c then r else [c]).

(** [s.replace(/[class]+/g, r)]: every maximal run of the class gives one
    [r]; [inRun] tells that the code unit before belongs to a run. *)
Fixpoint replaceRuns (class : N -> bool) (r : list N) (inRun : bool)
    (s : list N) : list N :=
  match s with
  | [] => []
  | c :: rest =>
      if class c
      then if inRun then replaceRuns class r true rest
           else (r ++ replaceRuns class r true rest)%list
      else c :: replaceRuns class r false rest
  end.

Fixpoint dropLastUnderscore (s : list N) : list N :=
  match s with
  | [] => []
  | [c] => if isUnderscore c then [] else [c]
  | c :: rest => c :: dropLastUnderscore rest
  end.

(** [s.replace(/^_|_$/g, '')]: an underscore at the start and one at the
    end are removed. *)
Definition stripEdges (s : list N) : list N :=
  dropLastUnderscore
    match s with
    | c :: rest => if isUnderscore c then rest else s
    | [] => []
    end.

Section StageIds.
Context `{JSString}.

(** [normalizeStageId]; [None] is a missing name. *)
Definition normalizeStageId (name : option (list N)) : list N :=
  match name with
  | None | Some [] => units "unknown_stage"
  | Some name =>
      let s := toLowerCase name in
      let s := trim s in
      let s := replaceEach isApostrophe [] s in
      let s := replaceEach isAmpersand (units "and") s in
      let s := replaceEach isPunctuation [] s in
      let s := replaceEach isDash (units "_") s in
      let s := replaceRuns isWhiteSpace (units "_") false s in
      let s := replaceRuns isUnderscore (units "_") false s in
      stripEdges s
  end.

(** The explicit overrides and the legacy mapping, as the source lists
    them. *)
Definition stageIdOverrides : list (string * string) :=
  [("umami_ruins", "um_ami_ruins");
   ("um_ami_ruins", "um_ami_ruins");
   ("salmonid_smokeyard", "salmonid_smokeyar");
   ("salmonid_smokeyar", "salmonid_smokeyar")].

Definition stageIdMapping : list (string * string) :=
  [("scorch gorge", "scorch_gorge");
   ("eeltail alley", "eeltail_alley");
   ("hagglefish market", "hagglefish_market");
   ("undertow spillway", "undertow_spillway");
   ("um'ami ruins", "um_ami_ruins");
   ("mincemeat metalworks", "mincemeat_metalworks");
   ("brinewater springs", "brinewater_springs");
   ("barnacle & dime", "barnacle_and_dime");
   ("flounder heights", "flounder_heights");
   ("hammerhead bridge", "hammerhead_bridge");
   ("museum d'alfonsino", "museum_dalfonsino");
   ("mahi-mahi resort", "mahi_mahi_resort");
   ("inkblot art academy", "inkblot_art_academy");
   ("sturgeon shipyard", "sturgeon_shipyard");
   ("makomart", "makomart");
   ("wahoo world", "wahoo_world");
   ("humpback pump track", "humpback_pump_track");
   ("manta maria", "manta_maria");
   ("crableg capital", "crableg_capital");
   ("shipshape cargo co.", "shipshape_cargo_co");
   ("robo rom-en", "robo_rom_en");
   ("bluefin depot", "bluefin_depot");
   ("marlin airport", "marlin_airport");
   ("lemuria hub", "lemuria_hub");
   ("umami ruins", "um_ami_ruins");
   ("um ami ruins", "um_ami_ruins");
   ("mako mart", "makomart");
   ("museum dalfonsino", "museum_dalfonsino");
   ("barnacle and dime", "barnacle_and_dime");
   ("sockeye station", "sockeye_station");
   ("gone fission hydroplant", "gone_fission_hydroplant");
   ("spawning grounds", "spawning_grounds");
   ("marooner's bay", "marooners_bay");
   ("marooners bay", "marooners_bay");
   ("jammin' salmon junction", "jammin_salmon_junction");
   ("jammin salmon junction", "jammin_salmon_junction");
   ("salmonid smokeyard", "salmonid_smokeyar");
   ("salmonid smokeyar", "salmonid_smokeyar");
   ("bonerattle arena", "bonerattle_arena");
   ("grand splatlands bowl", "grand_splatlands_bowl");
   ("splatlands bowl", "grand_splatlands_bowl")].

(** The properties every object inherits from [Object.prototype]; all of
    them hold a function or an object, which is truthy. *)
Definition objectPrototypeKeys : list string :=
  ["constructor"; "__defineGetter__"; "__defineSetter__"; "hasOwnProperty";
   "__lookupGetter__"; "__lookupSetter__"; "isPrototypeOf";
   "propertyIsEnumerable"; "toString"; "valueOf"; "__proto__";
   "toLocaleString"].

(** What [table[key]] gives on one of the two tables: the string of the
    table, an inherited property, or [undefined]. *)
Inductive Looked :=
  | Own (v : list N)
  | Inherited
  | Undefined.

Fixpoint ownProperty (table : list (string * string)) (key : list N)
  : option (list N) :=
  match table with
  | [] => None
  | (k, v) :: rest =>
      if decide (units k = key) then Some (units v) else ownProperty rest key
  end.

Definition objectGet (table : list (string * string)) (key : list N)
  : Looked :=
  match ownProperty table key with
  | Some v => Own v
  | None =>
      if bool_decide (key ∈ units <$> objectPrototypeKeys)
      then Inherited else Undefined
  end.

(** What [getStageId] returns: a string, or the inherited function or
    object it found under a key. *)
Inductive StageId :=
  | Id (s : list N)
  | NotAString.

(** [if (table[key]) return table[key]]: the value that is returned, if
    the test passes. *)
Definition returned (x : Looked) : option StageId :=
  match x with
  | Own [] => None
  | Own v => Some (Id v)
  | Inherited => Some NotAString
  | Undefined => None
  end.

(** The [variations] of [getStageId]. *)
Definition variations (lowerName : list N) : list (list N) :=
  [replaceEach (isOneOf [39]%N) [] lowerName;
   replaceEach (isOneOf [39]%N) [] lowerName;
   replaceEach (isOneOf [45]%N) (units " ") lowerName;
   replaceRuns isWhiteSpace (units " ") false lowerName;
   replaceEach isAmpersand (units "and") lowerName].

Definition getStageId (stageName : option (list N)) : StageId :=
  match stageName with
  | None | Some [] => Id (units "unknown_stage")
  | Some name =>
      let lowerName := trim (toLowerCase name) in
      match returned (objectGet stageIdMapping lowerName) with
      | Some r => r
      | None =>
          let normalizedId := normalizeStageId stageName in
          match returned (objectGet stageIdOverrides normalizedId) with
          | Some r => r
          | None =>
              match omap (fun variation =>
                            returned (objectGet stageIdMapping variation))
                         (variations lowerName) with
              | r :: _ => r
              | [] => Id normalizedId
              end
          end
      end
  end.

End StageIds.

(** [toLowerCase] on the ASCII letters, for names that hold no other
    letter. *)
Definition asciiLower : JSString :=
  {| toLowerCase :=
       fmap (fun c => if (65 <=? c) && (c <=? 90) then c + 32 else c)%N |}.

(** What makes an id safe in a file name: no white space, apostrophe,
    ampersand, punctuation or dash, no underscore at either end and no
    two underscores in a row. *)
Definition isSpecial (c : N) : bool :=
  isWhiteSpace c || isApostrophe c || isAmpersand c || isPunctuation c
  || isDash c.

Fixpoint noDoubleUnderscore (s : list N) : bool :=
  match s with
  | a :: ((b :: _) as rest) =>
      negb (isUnderscore a && isUnderscore b) && noDoubleUnderscore rest
  | _ => true
  end.

Definition noEdgeUnderscore (s : list N) : bool :=
  match s with
  | [] => true
  | c :: _ => negb (isUnderscore c)
  end
  && match last s with
     | Some c => negb (isUnderscore c)
     | None => true
     end.

Definition safeId (s : list N) : bool :=
  forallb (fun c => negb (isSpecial c)) s
  && noDoubleUnderscore s && noEdgeUnderscore s.

(** The code units [normalizeStageId] leaves nothing of: the ones it
    removes, and the ones it turns into an underscore, which is removed at
    either end. *)
Definition isDropped (c : N) : bool :=
  isWhiteSpace c || isApostrophe c || isPunctuation c || isDash c
  || isUnderscore c.

(** The values of a table, as code units. *)
Definition tableValues (table : list (string * string)) : list (list N) :=
  (fun kv => units kv.2) <$> table.

(** The keys [getStageId] may look up for the name [n]: the lower-cased
    name, the normalised id and the variations. *)
Definition lookedUp `{JSString} (n : list N) : list (list N) :=
  trim (toLowerCase n) :: normalizeStageId (Some n)
  :: variations (trim (toLowerCase n)).

(** ** The placeholder dates *)

(** The instants [createTestData] writes: now, two and four hours later. *)
Definition placeholderInstants (now : Z) : list Z :=
  [now; now + 2 * 60 * 60 * 1000; now + 4 * 60 * 60 * 1000].

(** The date is written as a string that is not empty and reads back as
    the same instant. *)
Definition roundTrips `{JSDate} (t : Z) : Prop :=
  Date_toISOString t <> EmptyString
  /\ Date_getTime (Date_toISOString t) = Some t.

(** ** The countdowns of the popup *)

(** [formatCountdown]; the numbers it writes are integers below 10^21,
    which a template literal writes in decimal digits. *)
Definition formatCountdown (ms : Z) : string :=
  let totalSeconds := ms / 1000 in
  let hours := totalSeconds / 3600 in
  let minutes := Z.rem totalSeconds 3600 / 60 in
  let seconds := Z.rem totalSeconds 60 in
  if 0 <? hours then pretty hours +:+ "h " +:+ pretty minutes +:+ "m"
  else if 0 <? minutes then pretty minutes +:+ "m " +:+ pretty seconds +:+ "s"
  else pretty seconds +:+ "s".

(** The duration a countdown text stands for: the remaining time rounded
    down to the second, and to the minute from one hour on. *)
Definition shownDuration (ms : Z) : Z :=
  if ms <? 3600000 then ms / 1000 * 1000 else ms / 60000 * 60000.

Definition isDigit (c : ascii) : bool :=
  (48 <=? N_of_ascii c)%N && (N_of_ascii c <=? 57)%N.

Fixpoint allDigits (s : string) : bool :=
  match s with
  | EmptyString => true
  | String c rest => isDigit c && allDigits rest
  end.

(** What [updateCountdowns] reads and writes of a [.countdown] element:
    the two data attributes, the text and the classes. *)
Record Countdown := {
  dataset_endTime : option string;
  dataset_startTime : option string;
  textContent : string;
  classList : list string
}.

(** [classList.add(c)] and [classList.remove(c1, c2)]: the list holds a
    class once. *)
Definition classAdd (c : string) (classes : list string) : list string :=
  if bool_decide (c ∈ classes) then classes else (classes ++ [c])%list.

Definition classRemove (cs : list string) (classes : list string)
  : list string :=
  filter (fun c => c ∉ cs) classes.

(** The countdown span [createRotationElement] makes for a rotation; the
    data attribute holds the time as a string, [undefined] when the
    rotation has none. *)
Definition countdownOf (rotation : Rot) (isCurrent : bool) : Countdown :=
  if isCurrent
  then {| dataset_endTime := Some (template (endTime rotation));
          dataset_startTime := None;
          textContent := EmptyString;
          classList := ["countdown"] |}
  else {| dataset_endTime := None;
          dataset_startTime := Some (template (startTime rotation));
          textContent := EmptyString;
          classList := ["countdown"] |}.

(** The countdown spans of the document after [updateRotationDisplay]:
    the containers are emptied, and the rotations of the selected mode
    get one span each. *)
Definition displayedCountdowns (modeData : option ModeState)
  : list Countdown :=
  match modeData with
  | None => []
  | Some st =>
      (match current st with
       | Some c => [countdownOf c true]
       | None => []
       end
       ++ match next st with
          | Some n => [countdownOf n false]
          | None => []
          end)%list
  end.

Section Popup.
Context `{JSDate} `{JSArray}.

(** The body of the loop of [updateCountdowns] on one element, and
    whether it set [anyEnded]; [remaining > 0] is false for [NaN]. *)
Definition updateCountdown (now : Z) (el : Countdown) : Countdown * bool :=
  if truthy (dataset_endTime el) then
    match num_sub (msOf (dataset_endTime el)) (Some now) with
    | Some remaining =>
        if 0 <? remaining then
          let classes :=
            classRemove ["countdown-soon"; "countdown-ended"] (classList el) in
          ({| dataset_endTime := dataset_endTime el;
              dataset_startTime := dataset_startTime el;
              textContent := " (" +:+ formatCountdown remaining +:+ " left)";
              classList :=
                if remaining <? 15 * 60 * 1000
                then classAdd "countdown-soon" classes else classes |},
           false)
        else
          ({| dataset_endTime := dataset_endTime el;
              dataset_startTime := dataset_startTime el;
              textContent := " (Updating...)";
              classList := classAdd "countdown-ended" (classList el) |},
           true)
    | None =>
        ({| dataset_endTime := dataset_endTime el;
            dataset_startTime := dataset_startTime el;
            textContent := " (Updating...)";
            classList := classAdd "countdown-ended" (classList el) |},
         true)
    end
  else if truthy (dataset_startTime el) then
    match num_sub (msOf (dataset_startTime el)) (Some now) with
    | Some remaining =>
        if 0 <? remaining then
          ({| dataset_endTime := dataset_endTime el;
              dataset_startTime := dataset_startTime el;
              textContent := " (in " +:+ formatCountdown remaining +:+ ")";
              classList := classList el |},
           false)
        else
          ({| dataset_endTime := dataset_endTime el;
              dataset_startTime := dataset_startTime el;
              textContent := " (Starting now)";
              classList := classList el |},
           true)
    | None =>
        ({| dataset_endTime := dataset_endTime el;
            dataset_startTime := dataset_startTime el;
            textContent := " (Starting now)";
            classList := classList el |},
         true)
    end
  else (el, false).

(** The state [updateCountdowns] works on: the countdown spans and the
    flag [hasTriggeredAutoRefresh]. *)
Record Ticker := {
  countdowns : list Countdown;
  hasTriggeredAutoRefresh : bool
}.

(** [showLoadingState], which [refreshData] calls before it waits for the
    worker: the skeleton replaces the rotations, so no countdown span is
    left in the document. *)
Definition showLoadingState (tk : Ticker) : Ticker :=
  {| countdowns := [];
     hasTriggeredAutoRefresh := hasTriggeredAutoRefresh tk |}.

(** [updateCountdowns]: the new state, and whether [refreshData(true)]
    was called. *)
Definition updateCountdowns (tk : Ticker) (now : Z) : Ticker * bool :=
  let updated := updateCountdown now <$> countdowns tk in
  let anyEnded := existsb snd updated in
  if anyEnded && negb (hasTriggeredAutoRefresh tk)
  then (showLoadingState
          {| countdowns := updated.*1; hasTriggeredAutoRefresh := true |},
        true)
  else ({| countdowns := updated.*1;
           hasTriggeredAutoRefresh := hasTriggeredAutoRefresh tk |}, false).

(** The calls of [updateCountdowns] the interval timer makes at the given
    instants, while no refresh completes: whether each one called
    [refreshData]. *)
Fixpoint countdownTicks (tk : Ticker) (instants : list Z) : list bool :=
  match instants with
  | [] => []
  | now :: rest =>
      let (tk', refreshed) := updateCountdowns tk now in
      refreshed :: countdownTicks tk' rest
  end.

End Popup.

(** ** A refresh, from the popup to the worker and back *)

Section Refresh.
Context `{JSDate} `{JSArray}.

(** [displayRotationData] as far as the countdowns go: the spans
    [updateRotationDisplay] makes for the selected mode of the stored
    snapshot, and the call of [updateCountdowns] that
    [startCountdownTimer] makes at once. Without a snapshot the loading
    skeleton is shown; without a state for the mode, messages are. *)
Definition displayRotationData (w : World) (currentMode : string)
    (tk : Ticker) (now : Z) : Ticker * bool :=
  match rotationData (local w) with
  | Some data =>
      match modeOf data currentMode with
      | Some modeData =>
          updateCountdowns
            {| countdowns := displayedCountdowns (Some modeData);
               hasTriggeredAutoRefresh := hasTriggeredAutoRefresh tk |} now
      | None =>
          ({| countdowns := [];
              hasTriggeredAutoRefresh := hasTriggeredAutoRefresh tk |}, false)
      end
  | None => (showLoadingState tk, false)
  end.

(** The message handler of the worker: a [fetchRotations] request is
    answered with the success of a cycle, any other message is not
    answered. *)
Definition onMessage (w : World) (action : string) (fetched : FetchResult)
    (now : Z) : World * option bool :=
  if String.eqb action "fetchRotations"
  then let (w', success) := fetchAllData w fetched now in (w', Some success)
  else (w, None).

(** [refreshData(true)] from the request to the end of the display: the
    worker runs a cycle at [workerNow] and the popup shows the result at
    [popupNow]. The last component tells whether the display called
    [refreshData] again. *)
Definition refreshData (w : World) (fetched : FetchResult) (workerNow : Z)
    (currentMode : string) (tk : Ticker) (popupNow : Z)
  : World * Ticker * bool :=
  let tk := showLoadingState tk in
  let (w', response) := onMessage w "fetchRotations" fetched workerNow in
  if default false response then
    let (tk', again) :=
      displayRotationData w' currentMode
        {| countdowns := countdowns tk; hasTriggeredAutoRefresh := false |}
        popupNow in
    (w', tk', again)
  else
    (w', {| countdowns := [];
            hasTriggeredAutoRefresh := hasTriggeredAutoRefresh tk |}, false).

(** The refreshes that follow one another: each round is what the request
    gave, the instant of the worker's cycle and the instant of the
    display; a round is only made when the one before asked for it. *)
Fixpoint refreshRounds (w : World) (currentMode : string) (tk : Ticker)
    (rounds : list (FetchResult * Z * Z)) : list bool :=
  match rounds with
  | [] => []
  | (fetched, workerNow, popupNow) :: rest =>
      let '(w', tk', again) :=
        refreshData w fetched workerNow currentMode tk popupNow in
      again :: (if again then refreshRounds w' currentMode tk' rest else [])
  end.

(** A countdown of the state has run out at [t], or cannot be read. *)
Definition expired (t : Z) (st : ModeState) : bool :=
  existsb snd (updateCountdown t <$> displayedCountdowns (Some st)).

End Refresh.

(** ** The settings panel of the popup *)

(** [saveNotificationSettings]: the states of the five checkboxes are
    written over the store. *)
Definition saveNotificationSettings (checked : Settings)
    (store : gmap string bool) : gmap string bool :=
  storageSet
    [("enableNotifications", enableNotifications checked);
     ("notifyRegular", notifyRegular checked);
     ("notifyAnarchy", notifyAnarchy checked);
     ("notifyXbattle", notifyXbattle checked);
     ("notifySalmon", notifySalmon checked)] store.

(** [loadSettings]: the states of the five checkboxes, a box being
    checked when its key holds [true], and whether the four mode boxes
    are disabled. *)
Definition loadSettings (store : gmap string bool) : Settings * bool :=
  let stored key := bool_decide (store !! key = Some true) in
  ({| enableNotifications := stored "enableNotifications";
      notifyRegular := stored "notifyRegular";
      notifyAnarchy := stored "notifyAnarchy";
      notifyXbattle := stored "notifyXbattle";
      notifySalmon := stored "notifySalmon" |},
   negb (stored "enableNotifications")).

(** ** Further sample data *)

Module Example.

(** 2024-01-02T12:00:00Z, during the Big Run of [Sample.liveCoop]. *)
Definition bigRunTime : Z := Sample.midnight + 36 * 60 * 60 * 1000.

(** The snapshot that only holds the Salmon Run state of
    [Sample.liveCoop] at that instant. *)
Definition bigRunSnapshot : RotationData :=
  {| regular := None; anarchy := None; xbattle := None; challenge := None;
     splatfest := None;
     salmon :=
       match processSalmonRunData (H := IsoDate.date) (H0 := insertion)
               (Sample.coopFeed Sample.liveCoop) bigRunTime with
       | Ok st => Some st
       | Threw => None
       end |}.

(** A state whose only rotation runs from 10:00 to 12:00, and the
    countdowns the popup shows for it. *)
Definition morning : ModeState :=
  {| current := Some (Sample.window "2024-01-01T10:00:00Z"
                                    "2024-01-01T12:00:00Z");
     next := None |}.

Definition morningTicker : Ticker :=
  {| countdowns := displayedCountdowns (Some morning);
     hasTriggeredAutoRefresh := false |}.

(** 2024-01-01T11:50:00Z *)
Definition tenToTwelve : Z := Sample.eleven + 50 * 60 * 1000.

(** 2024-01-01T03:00:00Z, one hour after the shift of
    [Sample.salmonNextOnly] has started, and two refreshes whose request
    fails, one second apart. *)
Definition threeOClock : Z := Sample.midnight + 3 * 60 * 60 * 1000.

Definition failingRounds : list (FetchResult * Z * Z) :=
  [(NetworkError, threeOClock, threeOClock);
   (NetworkError, threeOClock + 1000, threeOClock + 1000)].

Definition idleTicker : Ticker :=
  {| countdowns := []; hasTriggeredAutoRefresh := false |}.

End Example.

(** * Properties *)

Section NotificationDiffer.

Lemma notifyStep_key settings new old mi n :
  n ∈ notifyStep settings new old mi -> n_key n = key mi.
Proof.
  unfold notifyStep.
  destruct (settingOf _ _ && isNewRotation _ _); [|by rewrite elem_of_nil].
  destruct (modeOf new (key mi) ≫= current); [|by rewrite elem_of_nil].
  rewrite list_elem_of_singleton. by intros ->.
Qed.




Lemma send_elem settings new old n :
  n ∈ sendRotationNotifications settings new old
  <-> enableNotifications settings = true
      /\ exists mi, mi ∈ notifyModes /\ n ∈ notifyStep settings new old mi.
Proof.
  unfold sendRotationNotifications.
  destruct (enableNotifications settings); cbn [negb].
  - rewrite list_elem_of_bind. split.
    + intros (mi & ? & ?). split; [done|]. by exists mi.
    + intros (_ & mi & ? & ?). by exists mi.
  - rewrite elem_of_nil. split; [done|]. by intros [? _].
Qed.


(** Every notification is the one of an entry of the table and of the
    new current rotation of its mode, whose start time ends its id. *)
Lemma send_elem_notificationFor settings new old n :
  n ∈ sendRotationNotifications settings new old ->
  exists mi nc, mi ∈ notifyModes
    /\ currentOf (Some new) (key mi) = Some nc
    /\ n = notificationFor mi nc
    /\ notificationId n
       = "rotation-" +:+ n_key n +:+ "-" +:+ template (startTime nc).
Proof.
  intros Hn. apply send_elem in Hn as (_ & mi & Hmi & Hn).
  unfold notifyStep in Hn.
  destruct (settingOf _ _ && isNewRotation _ _); [|by apply elem_of_nil in Hn].
  destruct (modeOf new (key mi) ≫= current) as [nc|] eqn:C;
    [|by apply elem_of_nil in Hn].
  apply list_elem_of_singleton in Hn as ->. by exists mi, nc.
Qed.


(** Every notification is made for one of the four modes that have a
    setting. *)
Lemma notification_keys settings new old n :
  n ∈ sendRotationNotifications settings new old -> n_key n ∈ notifiedKeys.
Proof.
  intros Hn. apply send_elem in Hn as (_ & mi & Hmi & Hn).
  rewrite (notifyStep_key _ _ _ _ _ Hn).
  revert Hmi. unfold notifyModes, notifiedKeys.
  rewrite !elem_of_cons, !elem_of_nil.
  intros [->|[->|[->|[->|[]]]]]; cbn; tauto.
Qed.

Lemma notifyStep_same settings new new' old old' mi :
  mi ∈ notifyModes ->
  sameNotified new new' -> sameNotifiedOld old old' ->
  notifyStep settings new old mi = notifyStep settings new' old' mi.
Proof.
  intros Hmi (Hr & Ha & Hx & Hs) Hold.
  assert (modeOf new (key mi) = modeOf new' (key mi)) as Hnew.
  { revert Hmi. unfold notifyModes. rewrite !elem_of_cons, !elem_of_nil.
    intros [->|[->|[->|[->|[]]]]]; cbn; done. }
  assert ((old ≫= (fun o => modeOf o (key mi)))
          = (old' ≫= (fun o => modeOf o (key mi)))) as Hold'.
  { destruct old as [o|], old' as [o'|]; cbn in Hold; try done.
    destruct Hold as (Hr' & Ha' & Hx' & Hs').
    revert Hmi. unfold notifyModes. rewrite !elem_of_cons, !elem_of_nil.
    intros [->|[->|[->|[->|[]]]]]; cbn; done. }
  unfold notifyStep. by rewrite Hnew, Hold'.
Qed.

(** C10. The differ only creates notifications for the regular, anarchy,
    xbattle and salmon modes, and what it creates does not depend on the
    challenge state or on the splatfest entry of either snapshot. *)
Theorem notifications_ignore_challenge_and_splatfest
    settings new new' old old' :
  sameNotified new new' ->
  sameNotifiedOld old old' ->
  sendRotationNotifications settings new old
  = sendRotationNotifications settings new' old'
  /\ (forall n, n ∈ sendRotationNotifications settings new old ->
                n_key n ∈ notifiedKeys /\ n_key n <> "challenge"
                /\ n_key n <> "splatfest").
Proof.
  intros Hnew Hold. split.
  - unfold sendRotationNotifications.
    destruct (enableNotifications settings); cbn [negb]; [|done].
    apply Forall_bind_ext, Forall_forall. intros mi Hmi.
    by apply notifyStep_same.
  - intros n Hn. apply notification_keys in Hn.
    split; [done|]. revert Hn. unfold notifiedKeys.
    rewrite !elem_of_cons, !elem_of_nil.
    intros [->|[->|[->|[->|[]]]]]; done.
Qed.

End NotificationDiffer.

Section CacheValidity.
Context `{JSDate} `{JSArray}.

(** What [isDataStillValid] computes: one of its four modes has a current
    rotation that ends after [now], or an upcoming rotation with a start
    time. *)
Lemma isDataStillValid_spec rotationData now :
  isDataStillValid rotationData now = true
  <-> exists mode, mode ∈ validityModes
      /\ (currentNotEnded rotationData now mode = true
          \/ hasUpcoming rotationData mode = true).
Proof.
  unfold isDataStillValid.
  destruct (existsb (currentNotEnded rotationData now) validityModes) eqn:E1.
  - split; [intros _|done].
    apply existsb_exists in E1 as (mode & Hin & Hm).
    exists mode. rewrite <- list_elem_of_In in Hin. auto.
  - destruct (existsb (hasUpcoming rotationData) validityModes) eqn:E2.
    + split; [intros _|done].
      apply existsb_exists in E2 as (mode & Hin & Hm).
      exists mode. rewrite <- list_elem_of_In in Hin. auto.
    + split; [done|]. intros (mode & Hin & [Hm|Hm]).
      * assert (existsb (currentNotEnded rotationData now) validityModes = true)
          by (apply existsb_exists; exists mode; by rewrite <- list_elem_of_In).
        congruence.
      * assert (existsb (hasUpcoming rotationData) validityModes = true)
          by (apply existsb_exists; exists mode; by rewrite <- list_elem_of_In).
        congruence.
Qed.

End CacheValidity.

(** C4. A cycle that fetches [Sample.lateFeed] at 22:01 stores the
    snapshot [Sample.challengeOnly]: a challenge that runs from 22:00 to
    02:00 and a Salmon Run shift that ends at 23:00. At [Sample.midnight]
    the challenge, one of the modes the scheduler scans, still has two
    hours to run, and the validity check answers false: its list of modes
    leaves the challenge out. A cycle whose request fails then reports a
    failure instead of serving the cache. *)
Theorem isDataStillValid_misses_challenge :
  let H := IsoDate.date in
  let S := insertion in
  fetchCycle Sample.quietWorld (Response true (Some Sample.lateFeed))
             Sample.lateEvening
  = Ok Sample.challengeWorld
  /\ rotationData (local Sample.challengeWorld) = Some Sample.challengeOnly
  /\ currentNotEnded Sample.challengeOnly Sample.midnight "challenge" = true
  /\ "challenge" ∈ refreshModes
  /\ ~ "challenge" ∈ validityModes
  /\ isDataStillValid Sample.challengeOnly Sample.midnight = false
  /\ fetchAllData Sample.challengeWorld NetworkError Sample.midnight
     = (Sample.challengeWorld, false).
Proof.
  cbv zeta. split; [by vm_compute|]. split; [by vm_compute|].
  split; [by vm_compute|]. split; [|split; [|split]].
  - unfold refreshModes. rewrite !elem_of_cons. tauto.
  - unfold validityModes. rewrite !elem_of_cons, elem_of_nil.
    intros [?|[?|[?|[?|[]]]]]; done.
  - by vm_compute.
  - by vm_compute.
Qed.

Section StaleWhileRevalidate.
Context `{JSDate} `{JSArray}.

Lemma requestFailed_throws w fetched now :
  requestFailed fetched -> fetchCycle w fetched now = Threw.
Proof. destruct fetched as [|[] ?]; cbn; done. Qed.


End StaleWhileRevalidate.

Section RefreshScheduler.
Context `{JSDate} `{JSArray}.

Lemma futureCandidates_snoc rd now seen mode :
  futureCandidates rd now (seen ++ [mode])
  = (futureCandidates rd now seen
     ++ match wakeCandidate rd mode with
        | Some c => if decide (now < c) then [c] else []
        | None => []
        end)%list.
Proof.
  unfold futureCandidates. rewrite omap_app, filter_app. f_equal.
  cbn. destruct (wakeCandidate rd mode) as [c|]; [|done].
  rewrite filter_cons, filter_nil. done.
Qed.

Lemma refreshStep_candidate rd now acc mode :
  refreshStep rd now acc mode
  = match wakeCandidate rd mode with
    | Some c =>
        if (now <? c) && (negb (numTruthy acc) || num_lt (Some c) acc)
        then Some c else acc
    | None => acc
    end.
Proof.
  unfold refreshStep, wakeCandidate.
  destruct (modeOf rd mode ≫= current) as [cur|]; [|done].
  destruct (truthy (endTime cur)); [|done].
  destruct (msOf (endTime cur)) as [e|]; [|done].
  cbn [fmap option_fmap option_map]. by change (1 * 60 * 1000) with 60000.
Qed.

Lemma refreshStep_inv rd now seen acc mode :
  0 <= now ->
  refreshInv rd now seen acc ->
  refreshInv rd now (seen ++ [mode]) (refreshStep rd now acc mode).
Proof.
  intros Hnow Hinv. rewrite refreshStep_candidate.
  unfold refreshInv in *. rewrite futureCandidates_snoc.
  destruct (wakeCandidate rd mode) as [c|];
    [|rewrite app_nil_r; exact Hinv].
  destruct (decide (now < c)) as [Hc|Hc].
  - replace (now <? c) with true by (symmetry; by apply Z.ltb_lt).
    cbn [andb]. destruct acc as [m|].
    + destruct Hinv as [Hin Hmin].
      assert (now < m) by (by apply list_elem_of_filter in Hin as [? _]).
      assert (numTruthy (Some m) = true) as ->.
      { cbn. apply negb_true_iff, Z.eqb_neq. lia. }
      cbn [negb orb num_lt]. destruct (c <? m) eqn:E.
      * apply Z.ltb_lt in E. split.
        -- apply elem_of_app. right. by apply list_elem_of_singleton.
        -- intros x [Hx|Hx%list_elem_of_singleton]%elem_of_app;
             [specialize (Hmin x Hx)|]; lia.
      * apply Z.ltb_ge in E. split.
        -- apply elem_of_app. by left.
        -- intros x [Hx|Hx%list_elem_of_singleton]%elem_of_app;
             [by apply Hmin|lia].
    + cbn. rewrite Hinv. cbn. split.
      * by apply list_elem_of_singleton.
      * intros x Hx%list_elem_of_singleton. lia.
  - replace (now <? c) with false by (symmetry; by apply Z.ltb_ge; lia).
    cbn [andb]. rewrite app_nil_r. exact Hinv.
Qed.

Lemma refreshLoop_inv rd now modes seen acc :
  0 <= now ->
  refreshInv rd now seen acc ->
  refreshInv rd now (seen ++ modes)
             (fold_left (refreshStep rd now) modes acc).
Proof.
  intros Hnow. revert seen acc.
  induction modes as [|mode modes IH]; intros seen acc Hinv.
  - by rewrite app_nil_r.
  - cbn [fold_left]. replace (seen ++ mode :: modes)%list
      with ((seen ++ [mode]) ++ modes)%list by (by rewrite <- app_assoc).
    apply IH. by apply refreshStep_inv.
Qed.

Lemma isMinimum_unique m m' l : isMinimum m l -> isMinimum m' l -> m = m'.
Proof. intros [Hin Hm] [Hin' Hm']. specialize (Hm _ Hin'). specialize (Hm' _ Hin). lia. Qed.

(** C2. Each mode proposes the end of its current rotation plus one
    minute; the scheduler arms [smartRefresh] at the least proposal that
    is strictly after [now], and when there is none it arms
    [refreshRotations] with the fixed delay of thirty minutes. *)
Theorem scheduler_arms_minimum_future_boundary rd now al :
  0 <= now ->
  (forall m, isMinimum m (futureCandidates rd now allModes) ->
     scheduleNextRefresh rd now al
     = <["smartRefresh" := When m]> (delete "smartRefresh" al))
  /\ (futureCandidates rd now allModes = [] ->
      scheduleNextRefresh rd now al
      = <["refreshRotations" := DelayInMinutes 30]>
          (delete "smartRefresh" al))
  /\ ((exists m, isMinimum m (futureCandidates rd now allModes))
      \/ futureCandidates rd now allModes = []).
Proof.
  intros Hnow.
  pose proof (refreshLoop_inv rd now refreshModes [] None Hnow eq_refl) as Hinv.
  cbn [app] in Hinv. change refreshModes with allModes in Hinv at 1.
  unfold scheduleNextRefresh.
  destruct (fold_left (refreshStep rd now) refreshModes None) as [t|];
    cbn [refreshInv] in Hinv.
  - assert (numTruthy (Some t) = true) as ->.
    { destruct Hinv as [Hin _]. apply list_elem_of_filter in Hin as [? _].
      cbn. apply negb_true_iff, Z.eqb_neq. lia. }
    split; [|split].
    + intros m Hm. by rewrite (isMinimum_unique _ _ _ Hm Hinv).
    + intros Hnil. destruct Hinv as [Hin _]. rewrite Hnil in Hin.
      by apply elem_of_nil in Hin.
    + left. by exists t.
  - split; [|split].
    + intros m [Hin _]. rewrite Hinv in Hin. by apply elem_of_nil in Hin.
    + done.
    + by right.
Qed.

End RefreshScheduler.

Section Timers.
Context `{JSDate} `{JSArray}.

(** The scheduler clears [smartRefresh] and then creates one alarm. *)
Lemma scheduleNextRefresh_cases rd now al :
  (exists t, scheduleNextRefresh rd now al
             = <["smartRefresh" := When t]> (delete "smartRefresh" al))
  \/ scheduleNextRefresh rd now al
     = <["refreshRotations" := DelayInMinutes REFRESH_INTERVAL]>
         (delete "smartRefresh" al).
Proof.
  unfold scheduleNextRefresh.
  destruct (fold_left _ _ _) as [t|]; [|by right].
  destruct (numTruthy (Some t)); [left; by exists t|by right].
Qed.

Lemma fetchCycle_alarms w fetched now w' :
  fetchCycle w fetched now = Ok w' ->
  exists rd, alarms w' = scheduleNextRefresh rd now (alarms w).
Proof.
  unfold fetchCycle. destruct fetched as [|[] [apiData|]]; try done.
  destruct (processSalmonRunData apiData now); [|done].
  intros [= <-]. cbn. eauto.
Qed.

(** C7 (amended). A cycle that completes clears [smartRefresh] and arms
    one alarm: either [smartRefresh], and then a pending
    [refreshRotations] is left as it was, or [refreshRotations], and then
    [smartRefresh] is not armed. A cycle that serves the cache arms
    [refreshRotations] and leaves every other alarm, [smartRefresh]
    included, as it was; a cycle that fails changes nothing. So a cycle
    that completes from a world where [refreshRotations] is not pending
    leaves at most one of the two armed. *)
Theorem cycle_arms_one_timer_and_keeps_the_other w fetched now :
  let (w', success) := fetchAllData w fetched now in
  (forall w1, fetchCycle w fetched now = Ok w1 ->
     success = true
     /\ ((exists t, alarms w' !! "smartRefresh" = Some (When t)
                    /\ alarms w' !! "refreshRotations"
                       = alarms w !! "refreshRotations")
         \/ (alarms w' !! "refreshRotations" = Some (DelayInMinutes 30)
             /\ alarms w' !! "smartRefresh" = None))
     /\ (alarms w !! "refreshRotations" = None ->
         atMostOneArmed (alarms w')))
  /\ (fetchCycle w fetched now = Threw ->
      (success = true ->
       alarms w' = <["refreshRotations" := DelayInMinutes 5]> (alarms w))
      /\ (success = false -> w' = w)).
Proof.
  unfold fetchAllData. destruct (fetchCycle w fetched now) as [w1|] eqn:E.
  - split; [|done]. intros ? [= <-]. split; [done|].
    apply fetchCycle_alarms in E as [rd ->].
    destruct (scheduleNextRefresh_cases rd now (alarms w)) as [[t ->]| ->].
    + split.
      * left. exists t. rewrite lookup_insert_eq.
        by rewrite lookup_insert_ne, lookup_delete_ne.
      * intros Hnone [_ [x Hx]].
        rewrite lookup_insert_ne, lookup_delete_ne in Hx by done. congruence.
    + split.
      * right. rewrite lookup_insert_eq.
        by rewrite lookup_insert_ne, lookup_delete_eq.
      * intros _ [[x Hx] _].
        rewrite lookup_insert_ne, lookup_delete_eq in Hx by done. done.
  - unfold serveStale. destruct (rotationData (local w)) as [cached|].
    + destruct (isDataStillValid cached now); (split; [done|]); intros _;
        split; done.
    + split; [done|]. intros _. split; done.
Qed.

End Timers.

(** C7 (as stated, refuted). A first cycle arms [smartRefresh] for 01:01;
    ten minutes after it a second cycle whose request fails serves the
    cache and arms [refreshRotations] while [smartRefresh] is still
    pending: both alarms are armed. *)
Lemma both_timers_armed_after_failed_refresh :
  atMostOneArmed (alarms Sample.afterFetch)
  /\ alarms Sample.afterFailure !! "smartRefresh"
     = Some (When (Sample.midnight + 61 * 60 * 1000))
  /\ alarms Sample.afterFailure !! "refreshRotations"
     = Some (DelayInMinutes 5)
  /\ ~ atMostOneArmed (alarms Sample.afterFailure).
Proof.
  assert (alarms Sample.afterFailure !! "smartRefresh"
          = Some (When (Sample.midnight + 61 * 60 * 1000))) as Hs
    by (by vm_compute).
  assert (alarms Sample.afterFailure !! "refreshRotations"
          = Some (DelayInMinutes 5)) as Hr by (by vm_compute).
  split; [|split; [done|split; [done|]]].
  - intros [_ [x Hx]]. by vm_compute in Hx.
  - intros Hno. apply Hno. unfold armed. rewrite Hs, Hr. split; eauto.
Qed.

(** ** The lists of the feed *)

Section FeedLists.

Lemma mapM_id_None {A} (l : list (option A)) :
  mapM id l = None <-> None ∈ l.
Proof.
  induction l as [|[x|] l IH]; cbn.
  - split; [done|]. by intros ?%elem_of_nil.
  - destruct (mapM id l) as [xs|]; cbn.
    + split; [done|]. intros [?|Hin]%elem_of_cons; [done|].
      by apply IH in Hin.
    + split; [|done]. intros _. right. by apply IH.
  - split; [|done]. intros _. by left.
Qed.

Lemma mapM_id_Some {A} (l : list (option A)) xs :
  mapM id l = Some xs <-> l = Some <$> xs.
Proof.
  revert xs. induction l as [|[x|] l IH]; intros xs; cbn.
  - split; [by intros [= <-]|]. by destruct xs.
  - destruct (mapM id l) as [ys|]; cbn.
    + split.
      * intros [= <-]. cbn. f_equal. by apply IH.
      * destruct xs as [|y xs]; [done|]. intros [= -> Hl].
        apply IH in Hl. by injection Hl as ->.
    + split; [done|]. destruct xs as [|y xs]; [done|]. intros [= -> Hl].
      by apply IH in Hl.
  - split; [done|]. by destruct xs.
Qed.

Lemma objectsOf_None {A} (field : Entries A) :
  objectsOf field = None <-> illTyped field.
Proof.
  unfold illTyped. destruct field as [| |l]; cbn.
  - split; [done|]. by intros [?|(l & ? & _)].
  - split; [by left|done].
  - rewrite mapM_id_None. split.
    + intros Hin. right. by exists l.
    + intros [?|(l' & [= <-] & Hin)]; done.
Qed.

Lemma mapObjects_spec {A B} (f : A -> B) (l : list (option A)) :
  mapObjects f l
  = match mapM id l with
    | Some xs => Ok (f <$> xs)
    | None => Threw
    end.
Proof.
  induction l as [|[x|] l IH]; cbn; [done| |done].
  rewrite IH. by destruct (mapM id l).
Qed.

Lemma mapField_spec {A B} (f : A -> B) (field : Entries A) :
  mapField f field
  = match objectsOf field with
    | Some xs => Ok (f <$> xs)
    | None => Threw
    end.
Proof. destruct field as [| |l]; cbn; [done|done|apply mapObjects_spec]. Qed.

Lemma ruleStages_spec r (st : Entries Named) :
  ruleStages r st
  = match objectsOf st with
    | Some xs => Ok {| rule := default unknownMode r;
                       stages := mapStage <$> xs |}
    | None => Threw
    end.
Proof. unfold ruleStages. rewrite mapField_spec. by destruct (objectsOf st). Qed.

End FeedLists.

Section Festival.
Context `{JSDate} `{JSArray}.

Lemma firstUpcomingFest_spec l now :
  match firstUpcomingFest l now with
  | Ok (Some fest) => exists node, firstUpcoming now l node
                                   /\ fest = scheduledFest node
  | Ok None => Forall (notUpcoming now) l
  | Threw => nullBeforeUpcoming now l
  end.
Proof.
  induction l as [|[node|] l IH]; cbn [firstUpcomingFest]; [constructor| |].
  - fold (upcomingFest now node).
    destruct (upcomingFest now node) eqn:E.
    + exists node. split; [|done]. exists [], l. by repeat split.
    + assert (notUpcoming now (Some node)) as Hno by (by exists node).
      destruct (firstUpcomingFest l now) as [[fest|]|].
      * destruct IH as (n & (pre & post & -> & Hn & Hpre) & ->).
        exists n. split; [|done]. exists (Some node :: pre), post.
        repeat split; [done|]. by constructor.
      * by constructor.
      * destruct IH as (pre & post & -> & Hpre).
        exists (Some node :: pre), post. split; [done|]. by constructor.
  - exists [], l. by split.
Qed.

Lemma firstUpcoming_earliest now l node :
  upcomingAscending now l -> firstUpcoming now l node ->
  earliestUpcoming now l node.
Proof.
  intros Hsorted (pre & post & -> & Hn & Hpre). split; [|split; [done|]].
  - apply elem_of_app. right. by left.
  - intros x Hx Hup. apply elem_of_app in Hx as [Hx|Hx].
    + rewrite Forall_forall in Hpre.
      destruct (Hpre _ Hx) as (x' & [= <-] & Hx'). congruence.
    + apply elem_of_cons in Hx as [[= ->]|Hx].
      * unfold upcomingFest in Hn. apply andb_true_iff in Hn as [_ Hn].
        unfold num_gt, num_lt, num_le in *.
        destruct (msOf (fest_startTime node)); [|done]. apply Z.leb_refl.
      * unfold upcomingAscending in Hsorted.
        apply StronglySorted_app_1_r in Hsorted.
        apply StronglySorted_inv in Hsorted as [_ Hall].
        rewrite Forall_forall in Hall. by eapply Hall.
Qed.

(** C8 (amended). An active festival is reported whatever the schedule
    holds, with the teams of the feed (the processor throws when they are
    not a list of objects). Without one, the entry is the first node of
    the festival schedule, in feed order, that has live settings and
    starts strictly after [now], reported as [SCHEDULED] with no team; it is
    the earliest such node when the upcoming nodes come in ascending order
    of start. With no such node the entry is absent. The processor throws
    when it comes to a [null] entry of the schedule before such a node,
    and when the schedule cannot be iterated. *)
Theorem festival_is_active_or_first_upcoming d now :
  (forall cf, currentFest d = Some cf ->
     match objectsOf (cf_teams cf) with
     | Some listed =>
         exists fest, processSplatfestData d now = Ok (Some fest)
           /\ title fest = orStr (cf_title cf) "Splatfest"
           /\ state fest = orStr (cf_state cf) "ACTIVE"
           /\ f_startTime fest = cf_startTime cf
           /\ f_endTime fest = cf_endTime cf
           /\ teams fest = mapTeam <$> listed
     | None => processSplatfestData d now = Threw
     end)
  /\ (forall l, currentFest d = None ->
       iterNodes (festSchedules d) = Ok l ->
       match processSplatfestData d now with
       | Ok (Some fest) =>
           exists node, firstUpcoming now l node
             /\ fest = scheduledFest node
             /\ state fest = "SCHEDULED" /\ teams fest = []
             /\ (upcomingAscending now l -> earliestUpcoming now l node)
       | Ok None => Forall (notUpcoming now) l
       | Threw => nullBeforeUpcoming now l
       end)
  /\ (currentFest d = None -> iterNodes (festSchedules d) = Threw ->
      processSplatfestData d now = Threw).
Proof.
  unfold processSplatfestData. split; [|split].
  - intros cf ->. rewrite mapField_spec.
    destruct (objectsOf (cf_teams cf)) as [listed|]; [|done].
    eexists. split; [done|]. by cbn.
  - intros l Hcf Hl. rewrite Hcf, Hl.
    pose proof (firstUpcomingFest_spec l now) as Hspec.
    destruct (firstUpcomingFest l now) as [[fest|]|]; [|done|done].
    destruct Hspec as (node & Hfirst & ->). exists node.
    do 4 (split; [done|]). intros Hs. by apply firstUpcoming_earliest.
  - by intros -> ->.
Qed.

End Festival.

(** C8 (as stated, refuted). With the festival of March listed before the
    one of February and both upcoming, the entry is the one of March,
    which is not the earliest. *)
Lemma festival_first_listed_not_earliest :
  let H := IsoDate.date in
  exists fest, processSplatfestData Sample.twoFestsData Sample.midnight
               = Ok (Some fest)
    /\ ~ exists node, earliestUpcoming Sample.midnight Sample.twoFests node
                      /\ fest = scheduledFest node.
Proof.
  cbv zeta. eexists. split; [by vm_compute|].
  intros (node & (_ & _ & Hmin) & Hfest).
  injection Hfest as Hs _.
  specialize (Hmin (Sample.festNode "2024-02-01T00:00:00Z"
                                    "2024-02-03T00:00:00Z")).
  rewrite <- Hs in Hmin. 
  assert (num_le (msOf (H := IsoDate.date) (Some "2024-03-01T00:00:00Z"))
                 (msOf (H := IsoDate.date) (Some "2024-02-01T00:00:00Z")) = false) as Hf
    by (by vm_compute).
  cbn [Sample.festNode fest_startTime] in Hmin. rewrite Hf in Hmin.
  discriminate Hmin.
  - unfold Sample.twoFests. apply elem_of_cons. right. by left.
  - by vm_compute.
Qed.

(** ** The sort *)

Section Sort.
Context {A : Type} (k : A -> option Z).

Lemma insertAscending_perm x l : insertAscending (byKey k) x l ≡ₚ x :: l.
Proof.
  induction l as [|y r IH]; cbn [insertAscending]; [done|].
  destruct (byKey k x y) as [d|]; [|done].
  destruct (0 <? d); [|done]. rewrite IH. apply Permutation_swap.
Qed.

Lemma stableSort_perm l : stableSort (byKey k) l ≡ₚ l.
Proof.
  induction l as [|x l IH]; [done|]. cbn.
  fold (stableSort (byKey k) l). by rewrite insertAscending_perm, IH.
Qed.

Lemma insertAscending_filter v x l :
  filter (fun a => k a = Some v) (insertAscending (byKey k) x l)
  = filter (fun a => k a = Some v) (x :: l).
Proof.
  induction l as [|y r IH]; cbn [insertAscending]; [done|].
  destruct (byKey k x y) as [d|] eqn:E; [|done].
  destruct (0 <? d) eqn:D; [|done]. apply Z.ltb_lt in D.
  unfold byKey, num_sub in E.
  destruct (k x) as [kx|] eqn:Kx; [|done].
  destruct (k y) as [ky|] eqn:Ky; [|done]. injection E as <-.
  rewrite (filter_cons _ y), IH, !filter_cons.
  destruct (decide (k y = Some v)) as [Hy|Hy];
    destruct (decide (k x = Some v)) as [Hx|Hx]; try done.
  rewrite Kx in Hx. rewrite Ky in Hy. injection Hx as ->. injection Hy as ->.
  lia.
Qed.

Lemma stableSort_stable l : sameOrderPerKey k (stableSort (byKey k) l) l.
Proof.
  intros v. induction l as [|x l IH]; [done|]. cbn.
  fold (stableSort (byKey k) l). rewrite insertAscending_filter, !filter_cons.
  by rewrite IH.
Qed.

Lemma insertAscending_ascending x l :
  is_Some (k x) -> Forall (fun a => is_Some (k a)) l ->
  ascendingBy k l -> ascendingBy k (insertAscending (byKey k) x l).
Proof.
  intros [kx Kx] Hall Hs. unfold ascendingBy in *.
  induction l as [|y r IH]; cbn [insertAscending].
  - repeat constructor.
  - apply Forall_cons in Hall as [[ky Ky] Hall].
    apply StronglySorted_inv in Hs as [Hs Hy].
    assert ((byKey k) x y = Some (kx - ky)) as ->
      by (unfold byKey, num_sub; by rewrite Kx, Ky).
    destruct (0 <? kx - ky) eqn:D.
    + apply Z.ltb_lt in D. constructor; [by apply IH|].
      rewrite insertAscending_perm. constructor; [|done].
      rewrite Kx, Ky. cbn. apply Z.leb_le. lia.
    + apply Z.ltb_ge in D. constructor; [by constructor|].
      constructor.
      * rewrite Kx, Ky. cbn. apply Z.leb_le. lia.
      * eapply Forall_impl; [exact Hy|]. intros z Hz. cbn beta in *.
        rewrite Ky in Hz. rewrite Kx. cbn in *.
        destruct (k z) as [kz|]; [|done].
        apply Z.leb_le in Hz. apply Z.leb_le. lia.
Qed.

Lemma stableSort_ascending l :
  Forall (fun a => is_Some (k a)) l -> ascendingBy k (stableSort (byKey k) l).
Proof.
  induction l as [|x l IH]; intros Hall; [constructor|].
  apply Forall_cons in Hall as [Hx Hall]. cbn. fold (stableSort (byKey k) l).
  apply insertAscending_ascending; [done| |by apply IH].
  by rewrite stableSort_perm.
Qed.

End Sort.

(** What the engine's sort does on the lists of the feed. *)
Section EngineSort.
Context `{JSDate} `{JSArray}.

Lemma null_or_objects {A} (l : list (option A)) :
  None ∈ l \/ Forall (fun entry => entry <> None) l.
Proof.
  induction l as [|[x|] l [IH|IH]].
  - right. constructor.
  - left. by right.
  - right. by constructor.
  - left. by left.
  - left. by left.
Qed.

Lemma sortedNodes_throws nodes :
  sortedNodes nodes = Threw <-> (2 <= length nodes)%nat /\ None ∈ nodes.
Proof.
  unfold sortedNodes. split.
  - intros Hthrew.
    assert (2 <= length nodes)%nat as Hlen.
    { destruct (decide (length nodes < 2)%nat) as [Hshort|]; [|lia].
      by rewrite Array_sort_short in Hthrew. }
    split; [done|]. destruct (null_or_objects nodes) as [|Hall]; [done|].
    destruct (Array_sort_rearranges startKey nodes) as (sorted & Hs & _).
    + eapply Forall_impl; [exact Hall|]. by intros [n|].
    + congruence.
  - intros [Hlen Hin]. apply Array_sort_throws; [done|].
    apply Exists_exists. by exists None.
Qed.

Lemma sortedNodes_perm nodes sorted :
  sortedNodes nodes = Ok sorted -> sorted ≡ₚ nodes.
Proof.
  intros Hsort.
  destruct (decide (length nodes < 2)%nat) as [Hshort|Hlong].
  - unfold sortedNodes in Hsort. rewrite Array_sort_short in Hsort by done.
    by injection Hsort as <-.
  - destruct (null_or_objects nodes) as [Hin|Hall].
    + assert (sortedNodes nodes = Threw)
        by (apply sortedNodes_throws; split; [lia|done]).
      congruence.
    + destruct (Array_sort_rearranges startKey nodes) as (sorted' & Hs & Hp).
      * eapply Forall_impl; [exact Hall|]. by intros [n|].
      * unfold sortedNodes in Hsort. congruence.
Qed.

Lemma sortedNodes_readable nodes :
  Forall (fun n => is_Some (nodeStartMs n)) nodes ->
  sortedNodes nodes = Ok (stableSort (byKey nodeStartMs) nodes).
Proof. intros Hread. by apply Array_sort_stable. Qed.

Lemma sortedSchedules_ok unsorted :
  exists sorted, sortedSchedules unsorted = Ok sorted /\ sorted ≡ₚ unsorted.
Proof.
  apply Array_sort_rearranges. by apply Forall_forall.
Qed.

Lemma sortedSchedules_readable unsorted :
  Forall (fun r => is_Some (startMsOf r)) unsorted ->
  sortedSchedules unsorted = Ok (stableSort (byKey startMsOf) unsorted).
Proof. intros Hread. by apply (Array_sort_stable scheduleKey). Qed.

End EngineSort.

(** ** The current/next selection *)

Section Selection.
Context `{JSDate} `{JSArray}.

Lemma lastSpanning_snoc_no now items c r :
  lastSpanning now items c -> spansNow now r = false ->
  lastSpanning now (items ++ [r]) c.
Proof.
  intros Hc Hr. destruct c as [c|]; cbn in *.
  - destruct Hc as (pre & post & -> & Hs & Hpost).
    exists pre, (post ++ [r])%list. rewrite <- app_assoc. split; [done|].
    split; [done|]. apply Forall_app. split; [done|]. by constructor.
  - apply Forall_app. split; [done|]. by constructor.
Qed.

Lemma lastSpanning_snoc_yes now items r :
  spansNow now r = true -> lastSpanning now (items ++ [r]) (Some r).
Proof. intros Hr. exists items, []. by repeat split. Qed.

Lemma firstSpanning_snoc_keep now items c r :
  firstSpanning now items (Some c) -> firstSpanning now (items ++ [r]) (Some c).
Proof.
  intros (pre & post & -> & Hs & Hpre).
  exists pre, (post ++ [r])%list. by rewrite <- app_assoc.
Qed.

Lemma firstSpanning_snoc_no now items r :
  firstSpanning now items None -> spansNow now r = false ->
  firstSpanning now (items ++ [r]) None.
Proof. intros Hc Hr. apply Forall_app. split; [done|]. by constructor. Qed.

Lemma firstSpanning_snoc_yes now items r :
  firstSpanning now items None -> spansNow now r = true ->
  firstSpanning now (items ++ [r]) (Some r).
Proof. intros Hc Hr. exists items, []. by repeat split. Qed.

Lemma earliestAfter_snoc_no now items n r :
  earliestAfter now items n -> startsAfter now r = false ->
  earliestAfter now (items ++ [r]) n.
Proof.
  intros Hn Hr. destruct n as [n|]; cbn in *.
  - destruct Hn as (pre & post & -> & Hs & Hpre & Hpost).
    exists pre, (post ++ [r])%list. rewrite <- app_assoc.
    do 3 (split; [done|]). apply Forall_app. split; [done|].
    constructor; [|done]. intros Hr'. congruence.
  - apply Forall_app. split; [done|]. by constructor.
Qed.

Lemma earliestAfter_snoc_ge now items n r :
  earliestAfter now items (Some n) ->
  num_le (msOf (startTime n)) (msOf (startTime r)) = true ->
  earliestAfter now (items ++ [r]) (Some n).
Proof.
  intros (pre & post & -> & Hs & Hpre & Hpost) Hle.
  exists pre, (post ++ [r])%list. rewrite <- app_assoc.
  do 3 (split; [done|]). apply Forall_app. split; [done|].
  by constructor.
Qed.

(** The start of the selected next rotation bounds every later start of
    the items seen. *)
Lemma earliestAfter_bound now items n x :
  earliestAfter now items (Some n) -> x ∈ items ->
  startsAfter now x = true ->
  num_le (msOf (startTime n)) (msOf (startTime x)) = true.
Proof.
  intros (pre & post & -> & Hs & Hpre & Hpost) Hx Hxs.
  rewrite Forall_forall in Hpre. rewrite Forall_forall in Hpost.
  apply elem_of_app in Hx as [Hx|Hx].
  - specialize (Hpre x Hx Hxs). unfold num_lt, num_le in *.
    destruct (msOf (startTime n)), (msOf (startTime x)); try done.
    apply Z.ltb_lt in Hpre. apply Z.leb_le. lia.
  - apply elem_of_cons in Hx as [->|Hx]; [|by apply Hpost].
    unfold startsAfter, num_gt, num_lt, num_le in *.
    apply andb_true_iff in Hs as [_ Hs].
    destruct (msOf (startTime n)); [|done]. apply Z.leb_refl.
Qed.

Lemma earliestAfter_snoc_lt now items n r :
  earliestAfter now items n -> startsAfter now r = true ->
  match n with
  | Some n0 => num_lt (msOf (startTime r)) (msOf (startTime n0)) = true
  | None => True
  end ->
  earliestAfter now (items ++ [r]) (Some r).
Proof.
  intros Hn Hr Hlt. exists items, []. do 2 (split; [done|]).
  split; [|constructor]. apply Forall_forall. intros x Hx Hxs.
  destruct n as [n0|].
  - pose proof (earliestAfter_bound _ _ _ _ Hn Hx Hxs) as Hb.
    unfold num_lt, num_le in *.
    destruct (msOf (startTime r)), (msOf (startTime n0)),
      (msOf (startTime x)); try done.
    apply Z.ltb_lt in Hlt. apply Z.leb_le in Hb. apply Z.ltb_lt. lia.
  - cbn in Hn. rewrite Forall_forall in Hn. by rewrite (Hn x Hx) in Hxs.
Qed.

Lemma spans_not_after startMs endMs now :
  spans startMs endMs now = true -> num_gt startMs (Some now) = false.
Proof.
  unfold spans, num_gt, num_lt, num_le. destruct startMs as [a|]; [|done].
  intros [Ha _]%andb_true_iff. apply Z.leb_le in Ha. apply Z.ltb_ge. lia.
Qed.

Lemma not_lt_le a b c :
  num_gt a (Some b) = true -> num_gt c (Some b) = true ->
  num_lt a c = false -> num_le c a = true.
Proof.
  unfold num_gt, num_lt, num_le. intros Ha Hc Hlt.
  destruct a as [a|], c as [c|]; try done.
  apply Z.ltb_ge in Hlt. by apply Z.leb_le.
Qed.

Lemma candidates_one mk entry :
  candidates mk [entry]
  = match built mk entry with
    | Some r => [r]
    | None => []
    end.
Proof. reflexivity. Qed.

Lemma candidates_cons mk entry nodes :
  candidates mk (entry :: nodes)
  = (candidates mk [entry] ++ candidates mk nodes)%list.
Proof.
  rewrite candidates_one. unfold candidates. cbn.
  by destruct (built mk entry).
Qed.

(** The step shared by the regular, X and anarchy loops keeps the
    selection of the claim over the rotations built so far. *)
Lemma selectStep_inv now mk items acc entry :
  (forall n r, mk n = Ok r ->
     startTime r = node_startTime n /\ endTime r = node_endTime n) ->
  intervalIndex now items acc ->
  intervalIndex now (items ++ candidates mk [entry])
                (selectStep now mk acc entry).
Proof.
  intros Hwin [Hc Hn]. rewrite candidates_one.
  destruct entry as [node|]; cbn [built selectStep];
    [|by rewrite app_nil_r].
  destruct (mk node) as [r|] eqn:M.
  2: { rewrite app_nil_r. by destruct (_ || _). }
  destruct (Hwin _ _ M) as [Hst Hen]. unfold intervalIndex.
  assert (spansNow now r
          = truthy (node_startTime node) && truthy (node_endTime node)
            && spans (msOf (node_startTime node)) (msOf (node_endTime node)) now)
    as Hsp by (unfold spansNow; by rewrite Hst, Hen).
  assert (startsAfter now r
          = truthy (node_startTime node) && truthy (node_endTime node)
            && num_gt (msOf (node_startTime node)) (Some now))
    as Haf by (unfold startsAfter; by rewrite Hst, Hen).
  destruct (truthy (node_startTime node)); cbn [negb orb andb] in *;
    [|split; [by apply lastSpanning_snoc_no|by apply earliestAfter_snoc_no]].
  destruct (truthy (node_endTime node)); cbn [negb orb andb] in *;
    [|split; [by apply lastSpanning_snoc_no|by apply earliestAfter_snoc_no]].
  destruct (spans _ _ now) eqn:S.
  - rewrite (spans_not_after _ _ _ S) in Haf. split; cbn.
    + by apply lastSpanning_snoc_yes.
    + by apply earliestAfter_snoc_no.
  - unfold earlierNext.
    destruct (num_gt (msOf (node_startTime node)) (Some now)) eqn:G;
      cbn [andb];
      [|split; [by apply lastSpanning_snoc_no|by apply earliestAfter_snoc_no]].
    destruct (next acc) as [n0|] eqn:N.
    + destruct (num_lt (msOf (node_startTime node)) (msOf (startTime n0)))
        eqn:L.
      * split; cbn; [by apply lastSpanning_snoc_no|].
        eapply earliestAfter_snoc_lt; [exact Hn|done|]. by rewrite Hst.
      * rewrite N. split; [by apply lastSpanning_snoc_no|].
        apply earliestAfter_snoc_ge; [done|]. rewrite Hst.
        destruct Hn as (pre & post & _ & Hs0 & _).
        unfold startsAfter in Hs0. apply andb_true_iff in Hs0 as [_ Hs0].
        eapply not_lt_le; [exact G|exact Hs0|exact L].
    + split; cbn; [by apply lastSpanning_snoc_no|].
      eapply earliestAfter_snoc_lt; [exact Hn|done|done].
Qed.

Lemma selectLoop_inv now mk nodes items acc :
  (forall n r, mk n = Ok r ->
     startTime r = node_startTime n /\ endTime r = node_endTime n) ->
  intervalIndex now items acc ->
  intervalIndex now (items ++ candidates mk nodes)
                (fold_left (selectStep now mk) nodes acc).
Proof.
  intros Hwin. revert items acc.
  induction nodes as [|entry nodes IH]; intros items acc Hinv.
  - cbn. by rewrite app_nil_r.
  - cbn [fold_left]. rewrite candidates_cons, app_assoc.
    apply IH. by apply selectStep_inv.
Qed.

Lemma intervalIndex_empty now : intervalIndex now [] emptyState.
Proof. split; constructor. Qed.

Lemma processNode_window mode n r :
  processNode mode n = Ok r ->
  startTime r = node_startTime n /\ endTime r = node_endTime n.
Proof.
  unfold processNode. destruct (modeSetting mode n); [|done].
  by intros [= <-].
Qed.

Lemma processAnarchyNode_window n r :
  processAnarchyNode n = Ok r ->
  startTime r = node_startTime n /\ endTime r = node_endTime n.
Proof.
  unfold processAnarchyNode.
  destruct (extractAnarchyMode _); [|done].
  destruct (extractAnarchyMode _); [|done]. by intros [= <-].
Qed.

(** Both selectors throw when the sort does, and otherwise select over
    the rotations they build of the sorted nodes. *)
Lemma selectSorted_spec mk nodes now :
  (forall n r, mk n = Ok r ->
     startTime r = node_startTime n /\ endTime r = node_endTime n) ->
  match sortedNodes nodes with
  | Ok sorted =>
      exists st, selectSorted mk nodes now = Ok st
        /\ intervalIndex now (candidates mk sorted) st
  | Threw => selectSorted mk nodes now = Threw
  end.
Proof.
  intros Hwin. unfold selectSorted, sortedNodes. destruct nodes as [|n nodes].
  - rewrite Array_sort_short by (cbn; lia). exists emptyState.
    split; [done|apply intervalIndex_empty].
  - destruct (Array_sort _ (n :: nodes)) as [sorted|]; [|done].
    eexists. split; [done|].
    apply (selectLoop_inv now mk sorted [] emptyState Hwin),
      intervalIndex_empty.
Qed.

Lemma selectSorted_throws mk nodes now :
  selectSorted mk nodes now = Threw
  <-> (2 <= length nodes)%nat /\ None ∈ nodes.
Proof.
  rewrite <- sortedNodes_throws. unfold selectSorted, sortedNodes.
  destruct nodes as [|n nodes].
  - by rewrite Array_sort_short by (cbn; lia).
  - by destruct (Array_sort _ (n :: nodes)).
Qed.

Lemma firstSpanning_snoc_other now items c r :
  firstSpanning now items c ->
  (c = None -> spansNow now r = false) ->
  firstSpanning now (items ++ [r]) c.
Proof.
  intros Hc Hr. destruct c as [c|].
  - by apply firstSpanning_snoc_keep.
  - apply firstSpanning_snoc_no; [done|by apply Hr].
Qed.

(** The step of the event loop keeps the first window that contains
    [now] and the earliest later one. *)
Lemma periodStep_inv now mk items acc period :
  (forall p, startTime (mk p) = period_startTime p) ->
  (forall p, endTime (mk p) = period_endTime p) ->
  eventIndex now items acc ->
  eventIndex now (items ++ [mk period]) (periodStep now mk acc period).
Proof.
  intros Hst Hen [Hc Hn]. unfold eventIndex, periodStep.
  assert (spansNow now (mk period)
          = truthy (period_startTime period) && truthy (period_endTime period)
            && spans (msOf (period_startTime period))
                     (msOf (period_endTime period)) now)
    as Hsp by (unfold spansNow; by rewrite Hst, Hen).
  assert (startsAfter now (mk period)
          = truthy (period_startTime period) && truthy (period_endTime period)
            && num_gt (msOf (period_startTime period)) (Some now))
    as Haf by (unfold startsAfter; by rewrite Hst, Hen).
  destruct (truthy (period_startTime period)); cbn [negb orb andb] in *;
    [|split; [by apply firstSpanning_snoc_other
             |by apply earliestAfter_snoc_no]].
  destruct (truthy (period_endTime period)); cbn [negb orb andb] in *;
    [|split; [by apply firstSpanning_snoc_other
             |by apply earliestAfter_snoc_no]].
  destruct (spans _ _ now) eqn:S; cbn [andb].
  - rewrite (spans_not_after _ _ _ S) in Haf.
    unfold earlierNext. rewrite (spans_not_after _ _ _ S). cbn [andb].
    destruct (current acc) as [c|] eqn:C.
    + rewrite C. split; [by apply firstSpanning_snoc_keep
                        |by apply earliestAfter_snoc_no].
    + split; cbn; [by apply firstSpanning_snoc_yes
                  |by apply earliestAfter_snoc_no].
  - unfold earlierNext.
    destruct (num_gt (msOf (period_startTime period)) (Some now)) eqn:G;
      cbn [andb];
      [|split; [by apply firstSpanning_snoc_other
               |by apply earliestAfter_snoc_no]].
    destruct (next acc) as [n0|] eqn:N.
    + destruct (num_lt (msOf (period_startTime period)) (msOf (startTime n0)))
        eqn:L.
      * split; cbn; [by apply firstSpanning_snoc_other|].
        eapply earliestAfter_snoc_lt; [exact Hn|done|]. by rewrite Hst.
      * rewrite N. split; [by apply firstSpanning_snoc_other|].
        apply earliestAfter_snoc_ge; [done|]. rewrite Hst.
        destruct Hn as (pre & post & _ & Hs0 & _).
        unfold startsAfter in Hs0. apply andb_true_iff in Hs0 as [_ Hs0].
        eapply not_lt_le; [exact G|exact Hs0|exact L].
    + split; cbn; [by apply firstSpanning_snoc_other|].
      eapply earliestAfter_snoc_lt; [exact Hn|done|done].
Qed.

Lemma periodLoop_inv now mk periods items acc :
  (forall p, startTime (mk p) = period_startTime p) ->
  (forall p, endTime (mk p) = period_endTime p) ->
  eventIndex now items acc ->
  eventIndex now (items ++ (mk <$> periods))
             (fold_left (periodStep now mk) periods acc).
Proof.
  intros Hst Hen. revert items acc.
  induction periods as [|p periods IH]; intros items acc Hinv; cbn.
  - by rewrite app_nil_r.
  - replace (items ++ mk p :: (mk <$> periods))%list
      with ((items ++ [mk p]) ++ (mk <$> periods))%list
      by (by rewrite <- app_assoc).
    apply IH. by apply periodStep_inv.
Qed.

(** A loop whose body does not throw goes through the objects of the
    list, and throws on a [null] entry. *)
Lemma forEachObject_pure {A S} (body : S -> A -> S) l acc :
  forEachObject (fun acc x => Ok (body acc x)) l acc
  = match mapM id l with
    | Some xs => Ok (fold_left body xs acc)
    | None => Threw
    end.
Proof.
  revert acc. induction l as [|[x|] l IH]; intros acc; cbn; [done| |done].
  rewrite IH. by destruct (mapM id l).
Qed.

(** A loop throws when it comes to a [null] entry or to an entry its body
    throws on, whatever it holds by then. *)
Lemma forEachObject_throws {A S} (body : S -> A -> Try S) (P : A -> Prop)
    l acc :
  (forall acc x, body acc x = Threw <-> P x) ->
  forEachObject body l acc = Threw
  <-> Exists (fun entry => match entry with
                           | Some x => P x
                           | None => True
                           end) l.
Proof.
  intros Hbody. revert acc.
  induction l as [|[x|] l IH]; intros acc; cbn [forEachObject].
  - split; [done|]. by intros ?%Exists_nil.
  - rewrite Exists_cons. destruct (body acc x) as [acc'|] eqn:B.
    + rewrite IH. split; [by right|]. intros [Hx|?]; [|done].
      apply (Hbody acc) in Hx. congruence.
    + split; [|done]. intros _. left. by apply (Hbody acc).
  - rewrite Exists_cons. split; [by left|done].
Qed.

Lemma eventStep_throws now acc event :
  eventStep now acc event = Threw <-> eventThrows (Some event).
Proof.
  unfold eventStep, eventThrows.
  destruct (leagueMatchSetting event) as [s|]; [|split; [done|]].
  2: { by intros (s & e & ? & _). }
  destruct (leagueMatchEvent s) as [eventInfo|] eqn:E; [|split; [done|]].
  2: { intros (s' & e & [= <-] & ? & _). congruence. }
  rewrite ruleStages_spec.
  destruct (objectsOf (lg_vsStages s)) as [stages|] eqn:O.
  - assert (~ illTyped (lg_vsStages s)) as Hst.
    { rewrite <- objectsOf_None. congruence. }
    assert (match timePeriods event with
            | NoNodes => Ok acc
            | NotAList => Threw
            | NodeList periods =>
                forEachObject
                  (fun acc period =>
                     Ok (periodStep now
                           (processPeriod
                              {| rule := default unknownMode (lg_vsRule s);
                                 stages := mapStage <$> stages |} eventInfo)
                           acc period)) periods acc
            end = Threw <-> illTyped (timePeriods event)) as ->.
    { rewrite <- objectsOf_None.
      destruct (timePeriods event) as [| |periods]; cbn [objectsOf];
        [done|done|].
      rewrite forEachObject_pure. by destruct (mapM id periods). }
    split.
    + intros Hp. exists s, eventInfo. auto.
    + intros (s' & e & [= <-] & _ & [?|?]); done.
  - split; [|done]. intros _. exists s, eventInfo.
    do 2 (split; [done|]). left. by apply objectsOf_None.
Qed.

Lemma processEventSchedules_throws nodes now :
  processEventSchedules nodes now = Threw <-> Exists eventThrows nodes.
Proof.
  unfold processEventSchedules.
  rewrite (forEachObject_throws _ (fun event => eventThrows (Some event))).
  - rewrite !Exists_exists.
    split; intros (e & Hin & He); exists e; (split; [done|]); by destruct e.
  - intros acc event. apply eventStep_throws.
Qed.

(** An event whose step returns adds its periods to the rotations
    scanned. *)
Lemma eventStep_inv now items acc event st :
  eventStep now acc event = Ok st ->
  eventIndex now items acc ->
  eventIndex now (items ++ periodsOf event) st.
Proof.
  unfold eventStep, periodsOf.
  destruct (leagueMatchSetting event) as [s|];
    [|intros [= <-]; by rewrite app_nil_r].
  destruct (leagueMatchEvent s) as [eventInfo|];
    [|intros [= <-]; by rewrite app_nil_r].
  rewrite ruleStages_spec.
  destruct (objectsOf (lg_vsStages s)) as [stages|]; [|done].
  destruct (timePeriods event) as [| |periods]; cbn [objectsOf].
  - intros [= <-]. by rewrite app_nil_r.
  - done.
  - rewrite forEachObject_pure.
    destruct (mapM id periods) as [ps|]; [|done]. intros [= <-] Hinv.
    by apply periodLoop_inv.
Qed.

Lemma eventLoop_inv now nodes items acc st :
  forEachObject (eventStep now) nodes acc = Ok st ->
  eventIndex now items acc ->
  eventIndex now (items ++ eventCandidates nodes) st.
Proof.
  revert items acc.
  induction nodes as [|[event|] nodes IH]; intros items acc;
    cbn [forEachObject]; [|  |done].
  - intros [= <-]. cbn. by rewrite app_nil_r.
  - destruct (eventStep now acc event) as [acc'|] eqn:E; [|done].
    intros Hloop Hinv. unfold eventCandidates. rewrite bind_cons.
    fold (eventCandidates nodes). cbn [from_option]. rewrite app_assoc.
    eapply IH; [exact Hloop|]. by eapply eventStep_inv.
Qed.

Lemma processEventSchedules_spec nodes now st :
  processEventSchedules nodes now = Ok st ->
  eventIndex now (eventCandidates nodes) st.
Proof.
  intros Hst.
  apply (eventLoop_inv now nodes [] emptyState st Hst). split; constructor.
Qed.

Lemma lastSpanning_app_no now items c more :
  lastSpanning now items c ->
  Forall (fun x => spansNow now x = false) more ->
  lastSpanning now (items ++ more) c.
Proof.
  intros Hc. induction more as [|r more IH] using rev_ind; intros Hall.
  - by rewrite app_nil_r.
  - apply Forall_app in Hall as [Hmore Hr]. rewrite app_assoc.
    apply lastSpanning_snoc_no; [by apply IH|]. by inv Hr.
Qed.

Lemma earliestAfter_app_ge now items n more :
  earliestAfter now items (Some n) ->
  Forall (fun x => num_le (msOf (startTime n)) (msOf (startTime x)) = true)
         more ->
  earliestAfter now (items ++ more) (Some n).
Proof.
  intros Hc. induction more as [|r more IH] using rev_ind; intros Hall.
  - by rewrite app_nil_r.
  - apply Forall_app in Hall as [Hmore Hr]. rewrite app_assoc.
    apply earliestAfter_snoc_ge; [by apply IH|]. by inv Hr.
Qed.

Lemma earliestAfter_elem now items n :
  earliestAfter now items (Some n) -> n ∈ items.
Proof.
  intros (pre & post & -> & _). apply elem_of_app. right. by left.
Qed.

(** A scan that meets no window containing [now] and none starting after
    it leaves what it holds. *)
Lemma salmonScan_nothing now l cur nxt :
  Forall (fun x => hasWindow x /\ spansNow now x = false
                   /\ startsAfter now x = false) l ->
  salmonScan now l cur nxt = {| current := cur; next := nxt |}.
Proof.
  induction l as [|r l IH]; intros Hall; [done|].
  apply Forall_cons in Hall as [(Hw & Hs & Ha) Hall].
  unfold spansNow, startsAfter in *. unfold hasWindow in Hw.
  rewrite Hw in Hs, Ha. cbn [andb] in Hs, Ha.
  cbn [salmonScan]. rewrite Hs, Ha. by apply IH.
Qed.

(** A scan that ends with nothing held nothing and met no window
    containing [now] and none starting after it. *)
Lemma salmonScan_empty now l cur nxt :
  Forall hasWindow l ->
  salmonScan now l cur nxt = emptyState ->
  cur = None /\ nxt = None /\ nothingLeft now l.
Proof.
  revert cur nxt. induction l as [|r l IH]; intros cur nxt Hw.
  - cbn. intros [= -> ->]. repeat split. constructor.
  - apply Forall_cons in Hw as [Hr Hw].
    assert (spansNow now r
            = spans (msOf (startTime r)) (msOf (endTime r)) now) as Hsp
      by (unfold spansNow; by rewrite Hr).
    assert (startsAfter now r = num_gt (msOf (startTime r)) (Some now))
      as Haf by (unfold startsAfter; by rewrite Hr).
    cbn [salmonScan]. rewrite <- Hsp, <- Haf.
    destruct (spansNow now r) eqn:S.
    + intros Hscan. by destruct (IH _ _ Hw Hscan) as (? & _).
    + destruct (startsAfter now r) eqn:G.
      * destruct nxt as [n0|]; [done|]. intros Hscan.
        by destruct (IH _ _ Hw Hscan) as (_ & ? & _).
      * intros Hscan. destruct (IH _ _ Hw Hscan) as (-> & -> & Hl).
        repeat split. by constructor.
Qed.

(** On schedules in ascending order of start, the Salmon Run scan, which
    leaves at the second later schedule, selects as the claim says. *)
Lemma salmonScan_inv now l seen cur nxt :
  Forall hasWindow (seen ++ l) ->
  ascendingBy startMsOf (seen ++ l) ->
  intervalIndex now seen {| current := cur; next := nxt |} ->
  intervalIndex now (seen ++ l) (salmonScan now l cur nxt).
Proof.
  revert seen cur nxt.
  induction l as [|r l IH]; intros seen cur nxt Hw Hasc Hinv.
  - by rewrite app_nil_r.
  - assert (hasWindow r) as Hr.
    { rewrite Forall_forall in Hw. apply Hw, elem_of_app. right. by left. }
    assert (spansNow now r
            = spans (msOf (startTime r)) (msOf (endTime r)) now) as Hsp
      by (unfold spansNow; by rewrite Hr).
    assert (startsAfter now r = num_gt (msOf (startTime r)) (Some now))
      as Haf by (unfold startsAfter; by rewrite Hr).
    assert (forall c n,
              intervalIndex now (seen ++ [r]) {| current := c; next := n |} ->
              intervalIndex now (seen ++ r :: l) (salmonScan now l c n))
      as Hnext.
    { intros c n Hcn.
      replace (seen ++ r :: l)%list with ((seen ++ [r]) ++ l)%list
        by (by rewrite <- app_assoc).
      apply IH; [by rewrite <- app_assoc|by rewrite <- app_assoc|done]. }
    destruct Hinv as [Hc Hn]. cbn [current next] in Hc, Hn.
    cbn [salmonScan]. rewrite <- Hsp, <- Haf.
    destruct (spansNow now r) eqn:S; symmetry in Hsp.
    + apply Hnext. split; cbn.
      * by apply lastSpanning_snoc_yes.
      * apply earliestAfter_snoc_no; [done|]. rewrite Haf.
        by apply spans_not_after in Hsp.
    + destruct (startsAfter now r) eqn:G; symmetry in Haf.
      * destruct nxt as [n0|].
        -- (* the loop is left: every schedule from here on starts later *)
           assert (Forall (fun x => num_le (msOf (startTime r))
                                      (msOf (startTime x)) = true) (r :: l))
             as Hlater.
           { apply StronglySorted_app_1_r in Hasc.
             apply StronglySorted_inv in Hasc as [_ Hall].
             constructor; [|exact Hall].
             unfold num_gt, num_lt, num_le in *.
             destruct (msOf (startTime r)); [|done]. apply Z.leb_refl. }
           split; cbn [current next].
           ++ apply lastSpanning_app_no; [done|].
              eapply Forall_impl; [exact Hlater|]. intros x Hx. cbn beta in Hx.
              unfold spansNow, spans.
              unfold num_gt, num_lt, num_le in *.
              destruct (msOf (startTime r)) as [a|]; [|done].
              destruct (msOf (startTime x)) as [b|]; [|by rewrite andb_false_r].
              apply Z.ltb_lt in Haf. apply Z.leb_le in Hx.
              replace (b <=? now) with false
                by (symmetry; apply Z.leb_gt; lia).
              by rewrite andb_false_r.
           ++ apply earliestAfter_app_ge; [done|].
              apply Forall_forall. intros x Hx.
              apply (StronglySorted_app_1_elem_of _ _ _ _ _ Hasc);
                [|done]. by eapply earliestAfter_elem.
        -- apply Hnext. split; cbn; [by apply lastSpanning_snoc_no|].
           by eapply earliestAfter_snoc_lt.
      * apply Hnext. split; cbn; [by apply lastSpanning_snoc_no
                                 |by apply earliestAfter_snoc_no].
Qed.

(** The Salmon Run scan only selects a schedule whose window contains
    now as current and one that starts after now as next. *)
Lemma salmonScan_sound now l cur nxt :
  Forall hasWindow l ->
  soundState now {| current := cur; next := nxt |} ->
  soundState now (salmonScan now l cur nxt).
Proof.
  revert cur nxt. induction l as [|r l IH]; intros cur nxt Hw Hs; [done|].
  apply Forall_cons in Hw as [Hr Hw]. cbn [salmonScan].
  assert (spansNow now r
          = spans (msOf (startTime r)) (msOf (endTime r)) now) as Hsp
    by (unfold spansNow; by rewrite Hr).
  assert (startsAfter now r = num_gt (msOf (startTime r)) (Some now)) as Haf
    by (unfold startsAfter; by rewrite Hr).
  rewrite <- Hsp, <- Haf. destruct Hs as [Hc Hn]. cbn in Hc, Hn.
  destruct (spansNow now r) eqn:S.
  - apply IH; [done|]. split; cbn; [|done]. by intros c [= <-].
  - destruct (startsAfter now r) eqn:A.
    + destruct nxt as [n0|]; [by split|].
      apply IH; [done|]. split; cbn; [done|]. by intros n [= <-].
    + apply IH; [done|]. by split.
Qed.

Lemma salmonScan_elem now l cur nxt r :
  current (salmonScan now l cur nxt) = Some r
  \/ next (salmonScan now l cur nxt) = Some r ->
  r ∈ l \/ cur = Some r \/ nxt = Some r.
Proof.
  revert cur nxt. induction l as [|x l IH]; intros cur nxt; cbn [salmonScan].
  - cbn. tauto.
  - destruct (spans _ _ _).
    + intros [Hx|[[= ->]|Hx]]%IH; rewrite ?elem_of_cons; tauto.
    + destruct (num_gt _ _).
      * destruct nxt as [n|]; [cbn; tauto|].
        intros [Hx|[Hx|[= ->]]]%IH; rewrite ?elem_of_cons; tauto.
      * intros [Hx|Hx]%IH; rewrite ?elem_of_cons; tauto.
Qed.

Lemma salmonEntry_window bigRun schedule r :
  salmonEntry bigRun schedule = Ok r ->
  startTime r = coop_startTime schedule /\ endTime r = coop_endTime schedule.
Proof.
  unfold salmonEntry.
  destruct (match setting schedule with Some _ => _ | None => _ end);
    [|done].
  by intros [= <-].
Qed.

Lemma salmonEntries_hasWindow bigRun nodes l :
  salmonEntries bigRun nodes = Ok l -> Forall hasWindow l.
Proof.
  revert l. induction nodes as [|entry nodes IH]; intros l;
    cbn [salmonEntries]; [by intros [= <-]|].
  destruct (salmonEntries bigRun nodes) as [more|];
    [|by destruct (match entry with Some _ => _ | None => _ end)].
  specialize (IH more eq_refl).
  destruct entry as [schedule|]; [|by intros [= <-]].
  destruct (truthy (coop_startTime schedule)
            && truthy (coop_endTime schedule)) eqn:W; [|by intros [= <-]].
  destruct (salmonEntry bigRun schedule) as [r|] eqn:E; [|done].
  intros [= <-]. constructor; [|done].
  destruct (salmonEntry_window _ _ _ E) as [Hs He].
  unfold hasWindow. by rewrite Hs, He.
Qed.

Lemma salmonEntries_elem bigRun nodes l r :
  salmonEntries bigRun nodes = Ok l -> r ∈ l ->
  exists schedule, Some schedule ∈ nodes
    /\ truthy (coop_startTime schedule) = true
    /\ truthy (coop_endTime schedule) = true
    /\ salmonEntry bigRun schedule = Ok r.
Proof.
  revert l. induction nodes as [|entry nodes IH]; intros l;
    cbn [salmonEntries]; [intros [= <-] ?%elem_of_nil; done|].
  destruct (salmonEntries bigRun nodes) as [more|];
    [|by destruct (match entry with Some _ => _ | None => _ end)].
  specialize (IH more eq_refl).
  assert (r ∈ more ->
          exists schedule, Some schedule ∈ entry :: nodes
            /\ truthy (coop_startTime schedule) = true
            /\ truthy (coop_endTime schedule) = true
            /\ salmonEntry bigRun schedule = Ok r) as Hmore.
  { intros (schedule & ? & ?)%IH. exists schedule. split; [by right|done]. }
  destruct entry as [schedule|]; [|by intros [= <-]].
  destruct (truthy (coop_startTime schedule)
            && truthy (coop_endTime schedule)) eqn:W; [|by intros [= <-]].
  destruct (salmonEntry bigRun schedule) as [r'|] eqn:E; [|done].
  intros [= <-]. cbn [app]. intros [->|Hin]%elem_of_cons; [|by apply Hmore].
  apply andb_true_iff in W as [? ?]. exists schedule.
  split; [by left|done].
Qed.

Lemma salmonSchedules_hasWindow coop l :
  salmonSchedules coop = Ok l -> Forall hasWindow l.
Proof.
  unfold salmonSchedules.
  destruct (iterNodes (bigRunSchedules coop)) as [b|]; [|done].
  destruct (salmonEntries true b) as [bs|] eqn:B; [|done].
  destruct (iterNodes (coop_regularSchedules coop)) as [r|]; [|done].
  destruct (salmonEntries false r) as [rs|] eqn:R; [|done].
  intros [= <-]. apply Forall_app.
  split; by eapply salmonEntries_hasWindow.
Qed.

Lemma nothingLeft_perm now l1 l2 :
  l1 ≡ₚ l2 -> nothingLeft now l1 -> nothingLeft now l2.
Proof. unfold nothingLeft. by intros ->. Qed.

Lemma nothingLeft_dec now l : nothingLeft now l \/ ~ nothingLeft now l.
Proof.
  unfold nothingLeft. induction l as [|r l [IH|IH]].
  - left. constructor.
  - destruct (spansNow now r) eqn:S.
    + right. intros [[? _] _]%Forall_cons. congruence.
    + destruct (startsAfter now r) eqn:G.
      * right. intros [[_ ?] _]%Forall_cons. congruence.
      * left. by constructor.
  - right. by intros [_ ?]%Forall_cons.
Qed.

(** What the Salmon Run processor does with the schedules it assembled:
    it returns, with its test data when nothing is left of them, and
    otherwise with what its scan of the sorted schedules found. *)
Lemma processSalmonRunData_scan response now coop unsorted :
  data response ≫= coopGroupingSchedule = Some coop ->
  salmonSchedules coop = Ok unsorted ->
  exists sorted,
    sortedSchedules unsorted = Ok sorted /\ sorted ≡ₚ unsorted
    /\ (nothingLeft now unsorted
        /\ processSalmonRunData response now = Ok (createSalmonRunTestData now)
        \/ ~ nothingLeft now unsorted
           /\ salmonScan now sorted None None <> emptyState
           /\ processSalmonRunData response now
              = Ok (salmonScan now sorted None None)).
Proof.
  intros Hcoop Hl.
  destruct (sortedSchedules_ok unsorted) as (sorted & Hsort & Hperm).
  exists sorted. split; [done|]. split; [done|].
  unfold processSalmonRunData. rewrite Hcoop, Hl.
  unfold sortedSchedules in Hsort. rewrite Hsort.
  pose proof (salmonSchedules_hasWindow _ _ Hl) as Hw.
  assert (Forall hasWindow sorted) as Hws by (by rewrite Hperm).
  destruct (nothingLeft_dec now unsorted) as [Hno|Hsome].
  - left. split; [done|]. rewrite salmonScan_nothing; [done|].
    apply (nothingLeft_perm _ _ sorted) in Hno; [|done].
    unfold nothingLeft in Hno. rewrite Forall_forall in Hno, Hws.
    apply Forall_forall. intros x Hx. split; [by apply Hws|by apply Hno].
  - right. split; [done|].
    assert (salmonScan now sorted None None <> emptyState) as Hne.
    { intros Hscan. apply salmonScan_empty in Hscan as (_ & _ & Hno);
        [|done].
      apply Hsome. by eapply nothingLeft_perm. }
    split; [done|].
    destruct (salmonScan now sorted None None) as [[c|] [n|]]; done.
Qed.

(** What the scan of the sorted schedules finds is right at [now] and is
    made of schedules of the list. *)
Lemma salmonScan_found now unsorted sorted :
  Forall hasWindow unsorted -> sorted ≡ₚ unsorted ->
  soundState now (salmonScan now sorted None None)
  /\ forall r, current (salmonScan now sorted None None) = Some r
               \/ next (salmonScan now sorted None None) = Some r ->
               r ∈ unsorted.
Proof.
  intros Hw Hperm. split.
  - apply salmonScan_sound; [by rewrite Hperm|by split].
  - intros r Hr. apply salmonScan_elem in Hr as [Hin|[[=]|[=]]].
    by rewrite <- Hperm.
Qed.

(** C1 (amended). The regular, X and anarchy selectors sort their nodes
    by start time, and throw when the sort does: that is when the list
    holds a [null] next to another entry. Otherwise the sort rearranges the
    nodes, in stable ascending order when every start time is readable,
    and the selectors go through the sorted nodes, passing over those whose
    processing throws: they return as current the last rotation whose
    window has start <= now < end and as next the first rotation with the
    least start strictly after now. The Salmon Run selector returns its
    test data when none of its schedules contains now or starts after it;
    otherwise it returns schedules of its list, a current one whose window
    contains now and a next one that starts after now, and when every
    start is readable it selects in the same way over its sorted
    schedules. The event selector scans the time periods
    in feed order and, when it returns, returns as current the first
    window that contains now; its next is the first period with the least
    start strictly after now. *)
Theorem selectors_pick_current_and_next now :
  (forall nodes mode,
     match sortedNodes nodes with
     | Ok sorted =>
         exists st, findCurrentAndNext nodes now mode = Ok st
           /\ intervalIndex now (candidates (processNode mode) sorted) st
     | Threw => findCurrentAndNext nodes now mode = Threw
     end)
  /\ (forall nodes,
        match sortedNodes nodes with
        | Ok sorted =>
            exists st, findCurrentAndNextAnarchy nodes now = Ok st
              /\ intervalIndex now (candidates processAnarchyNode sorted) st
        | Threw => findCurrentAndNextAnarchy nodes now = Threw
        end)
  /\ (forall nodes,
        (sortedNodes nodes = Threw
         <-> (2 <= length nodes)%nat /\ None ∈ nodes)
        /\ forall sorted, sortedNodes nodes = Ok sorted ->
             sorted ≡ₚ nodes
             /\ (Forall (fun n => is_Some (nodeStartMs n)) nodes ->
                 ascendingBy nodeStartMs sorted
                 /\ sameOrderPerKey nodeStartMs sorted nodes))
  /\ (forall response coop unsorted,
        data response ≫= coopGroupingSchedule = Some coop ->
        salmonSchedules coop = Ok unsorted ->
        exists sorted st,
          sortedSchedules unsorted = Ok sorted /\ sorted ≡ₚ unsorted
          /\ processSalmonRunData response now = Ok st
          /\ (nothingLeft now unsorted /\ st = createSalmonRunTestData now
              \/ ~ nothingLeft now unsorted
                 /\ soundState now st
                 /\ (forall r, current st = Some r \/ next st = Some r ->
                       r ∈ unsorted)
                 /\ (Forall (fun r => is_Some (startMsOf r)) unsorted ->
                     ascendingBy startMsOf sorted
                     /\ sameOrderPerKey startMsOf sorted unsorted
                     /\ intervalIndex now sorted st)))
  /\ (forall nodes st,
        processEventSchedules nodes now = Ok st ->
        eventIndex now (eventCandidates nodes) st).
Proof.
  split; [|split; [|split; [|split]]].
  - intros nodes mode. apply selectSorted_spec. apply processNode_window.
  - intros nodes. apply selectSorted_spec. apply processAnarchyNode_window.
  - intros nodes. split; [apply sortedNodes_throws|].
    intros sorted Hsort. split; [by apply sortedNodes_perm|].
    intros Hread. rewrite (sortedNodes_readable _ Hread) in Hsort.
    injection Hsort as <-.
    split; [by apply stableSort_ascending|apply stableSort_stable].
  - intros response coop unsorted Hcoop Hl.
    destruct (processSalmonRunData_scan response now coop unsorted Hcoop Hl)
      as (sorted & Hsort & Hperm & Hcases).
    exists sorted.
    destruct Hcases as [[Hno Hst]|(Hsome & Hne & Hst)].
    + eexists. do 3 (split; [done|]). by left.
    + eexists. do 3 (split; [done|]). right. split; [done|].
      destruct (salmonScan_found now unsorted sorted) as [Hsound Hin];
        [by eapply salmonSchedules_hasWindow|done|].
      split; [done|]. split; [done|]. intros Hread.
      rewrite (sortedSchedules_readable _ Hread) in Hsort.
      injection Hsort as <-.
      split; [by apply stableSort_ascending|].
      split; [apply stableSort_stable|].
      apply (salmonScan_inv now _ [] None None).
      * cbn [app]. rewrite Hperm. by eapply salmonSchedules_hasWindow.
      * by apply (stableSort_ascending startMsOf).
      * apply intervalIndex_empty.
  - intros nodes st. apply processEventSchedules_spec.
Qed.

End Selection.

(** C1 (as stated, refuted). With the two events of
    [Sample.overlappingEvents], whose windows both contain [Sample.midnight],
    the event selector returns the first one, [Sample.longRot]; the last
    window that contains [midnight], in feed order and in the order of the
    sort alike, is [Sample.shortRot]. *)
Lemma event_selector_keeps_first_window :
  let H := IsoDate.date in
  let S := insertion in
  exists st,
    processEventSchedules Sample.overlappingEvents Sample.midnight = Ok st
    /\ current st = Some Sample.longRot
    /\ eventCandidates Sample.overlappingEvents
       = [Sample.longRot; Sample.shortRot]
    /\ sortedSchedules (eventCandidates Sample.overlappingEvents)
       = Ok [Sample.longRot; Sample.shortRot]
    /\ ~ lastSpanning Sample.midnight [Sample.longRot; Sample.shortRot]
                      (current st)
    /\ lastSpanning Sample.midnight [Sample.longRot; Sample.shortRot]
                    (Some Sample.shortRot).
Proof.
  cbv zeta. eexists. split; [by vm_compute|]. cbn [current].
  split; [done|]. split; [by vm_compute|]. split; [by vm_compute|].
  assert (spansNow (H := IsoDate.date) Sample.midnight Sample.shortRot = true)
    as Hshort by (by vm_compute).
  split.
  - intros (pre & post & Heq & _ & Hpost).
    destruct pre as [|a [|b pre]]; cbn in Heq.
    + injection Heq as <-. apply Forall_cons in Hpost as [Hs _]. congruence.
    + injection Heq as _ Heq. discriminate Heq.
    + injection Heq as _ _ Heq. by destruct pre.
  - exists [Sample.longRot], []. by repeat split.
Qed.

Section Validation.
Context `{JSDate} `{JSArray}.

Lemma badSection_spec {A} (section : option (NodesField A)) :
  badSection section = true <-> noListNodes section.
Proof.
  unfold badSection, noListNodes. destruct section as [f|].
  - destruct f as [| |l]; cbn; split; try done.
    + intros _. by exists NoNodes.
    + intros _. by exists NotAList.
    + intros (f & [= <-] & Hf). by destruct (Hf l).
  - split; [done|]. by intros (f & ? & _).
Qed.

Lemma battleKeyBad_spec d :
  battleKeyBad d
  <-> badSection (regularSchedules d) || badSection (bankaraSchedules d)
      || badSection (xSchedules d) = true.
Proof.
  unfold battleKeyBad. rewrite <- !badSection_spec, !orb_true_iff. tauto.
Qed.

Lemma coopKeyBad_spec d :
  coopKeyBad d
  <-> match coopGroupingSchedule d with
      | Some coop => badSection (coop_regularSchedules coop)
                     || badSection (bigRunSchedules coop)
      | None => false
      end = true.
Proof.
  unfold coopKeyBad. destruct (coopGroupingSchedule d) as [coop|].
  - rewrite orb_true_iff, !badSection_spec. split.
    + by intros (c & [= <-] & ?).
    + intros ?. by exists coop.
  - split; [|done]. by intros (c & ? & _).
Qed.

(** The validation fails exactly when the root data object is missing or
    one of the five validated keys has no list of nodes. *)
Lemma validateApiResponse_spec response :
  validateApiResponse response = false
  <-> data response = None
      \/ exists d, data response = Some d /\ (battleKeyBad d \/ coopKeyBad d).
Proof.
  unfold validateApiResponse.
  destruct (data response) as [d|]; [|by split; [left|]].
  split.
  - intros Hv. right. exists d. split; [done|].
    rewrite battleKeyBad_spec, coopKeyBad_spec. revert Hv.
    destruct (badSection (regularSchedules d)),
      (badSection (bankaraSchedules d)), (badSection (xSchedules d));
      cbn; try (by left).
    destruct (coopGroupingSchedule d) as [coop|]; [|done].
    destruct (badSection (coop_regularSchedules coop)),
      (badSection (bigRunSchedules coop)); cbn; try done; by right.
  - intros [?|(d' & [= <-] & Hbad)]; [done|].
    rewrite battleKeyBad_spec, coopKeyBad_spec in Hbad. revert Hbad.
    destruct (badSection (regularSchedules d)),
      (badSection (bankaraSchedules d)), (badSection (xSchedules d));
      cbn; try done.
    destruct (coopGroupingSchedule d) as [coop|]; [|intros [?|?]; done].
    destruct (badSection (coop_regularSchedules coop)),
      (badSection (bigRunSchedules coop)); cbn; try done.
    intros [?|?]; done.
Qed.

Lemma firstUpcomingFest_throws l now :
  firstUpcomingFest l now = Threw <-> nullBeforeUpcoming now l.
Proof.
  unfold nullBeforeUpcoming.
  induction l as [|[node|] l IH]; cbn [firstUpcomingFest].
  - split; [done|]. intros (pre & post & Heq & _). by destruct pre.
  - fold (upcomingFest now node). destruct (upcomingFest now node) eqn:E.
    + split; [done|]. intros (pre & post & Heq & Hpre).
      destruct pre as [|e pre]; [done|]. injection Heq as <- _.
      apply Forall_cons in Hpre as [(n & [= <-] & Hn) _]. congruence.
    + rewrite IH. split.
      * intros (pre & post & -> & Hpre). exists (Some node :: pre), post.
        split; [done|]. constructor; [by exists node|done].
      * intros (pre & post & Heq & Hpre).
        destruct pre as [|e pre]; [done|]. injection Heq as <- ->.
        apply Forall_cons in Hpre as [_ Hpre]. by exists pre, post.
  - split; [|done]. intros _. by exists [], l.
Qed.

Lemma processSplatfestData_throws d now :
  processSplatfestData d now = Threw <-> festThrows d now.
Proof.
  unfold processSplatfestData, festThrows.
  destruct (currentFest d) as [cf|].
  - rewrite mapField_spec, <- objectsOf_None.
    by destruct (objectsOf (cf_teams cf)).
  - destruct (festSchedules d) as [[| |l]|]; cbn [iterNodes firstUpcomingFest].
    + split; [done|]. by intros [?|(l & ? & _)].
    + split; [by left|done].
    + rewrite firstUpcomingFest_throws. split.
      * intros Hl. right. by exists l.
      * intros [?|(l' & [= <-] & Hl)]; done.
    + split; [done|]. by intros [?|(l & ? & _)].
Qed.

Lemma selectIfNodes_throws (section : option (Entries VsNode)) mk now :
  selectIfNodes section (fun l => selectSorted mk l now) = Threw
  <-> nullAmongSeveral section.
Proof.
  unfold selectIfNodes, nullAmongSeveral.
  destruct section as [[| |l]|];
    try (split; [done|]; by intros (l & ? & _)).
  rewrite selectSorted_throws. split.
  - intros Hl. by exists l.
  - by intros (l' & [= <-] & Hl).
Qed.

Lemma eventsIfNodes_throws d now :
  eventsIfNodes (eventSchedules d) now = Threw <-> eventsThrow d.
Proof.
  unfold eventsIfNodes, eventsThrow.
  destruct (eventSchedules d) as [[| |l]|].
  - split; [done|]. by intros [?|(l & ? & _)].
  - split; [by left|done].
  - rewrite processEventSchedules_throws. split.
    + intros Hl. right. by exists l.
    + intros [?|(l' & [= <-] & Hl)]; done.
  - split; [done|]. by intros [?|(l & ? & _)].
Qed.

(** On a feed that passes the validation the processor returns [null]
    exactly when one of its sections throws. *)
Lemma processRotationData_null response now :
  processRotationData response now = None
  <-> validateApiResponse response = false
      \/ exists d, data response = Some d /\ sectionThrows d now.
Proof.
  unfold processRotationData.
  destruct (validateApiResponse response) eqn:V; cbn [negb];
    [|split; [by left|done]].
  destruct (data response) as [d|] eqn:D.
  2: { unfold validateApiResponse in V. by rewrite D in V. }
  transitivity (sectionThrows d now).
  2: { split; [intros ?; right; by exists d|].
       by intros [?|(d' & [= <-] & ?)]. }
  unfold sectionThrows, findCurrentAndNext, findCurrentAndNextAnarchy.
  rewrite <- (selectIfNodes_throws (regularSchedules d)
                (processNode "regular") now).
  rewrite <- (selectIfNodes_throws (bankaraSchedules d)
                processAnarchyNode now).
  rewrite <- (selectIfNodes_throws (xSchedules d)
                (processNode "xbattle") now).
  rewrite <- (eventsIfNodes_throws d now).
  rewrite <- (processSplatfestData_throws d now).
  destruct (selectIfNodes (regularSchedules d) _) as [r|]; [|split; [auto|done]].
  destruct (selectIfNodes (bankaraSchedules d) _) as [a|];
    [|split; [auto|done]].
  destruct (selectIfNodes (xSchedules d) _) as [x|]; [|split; [auto|done]].
  destruct (eventsIfNodes (eventSchedules d) now) as [c|];
    [|split; [auto 6|done]].
  destruct (processSplatfestData d now) as [f|]; [|split; [auto 6|done]].
  split; [done|]. intros [?|[?|[?|[?|?]]]]; done.
Qed.

(** C6 (amended). The processor returns [null] exactly when the root
    data object is missing, or one of the three battle keys or of the two
    coop keys is present without a list of nodes, or one of its sections
    throws: a list of battle nodes holds a [null] next to another entry; the
    event collection cannot be iterated, or holds a [null] or an event
    with its settings whose stages or time periods are no list of objects;
    the teams of the current festival are no list of objects; or, with no
    current festival, the festival collection cannot be iterated or holds
    a [null] before its first upcoming node. When it does and the cycle
    completes, the stored snapshot holds the placeholder of
    [createTestData] for regular, anarchy and xbattle (each with a current
    and a next rotation) and no challenge or festival entry. A key that is
    merely missing gives its mode the empty state. *)
Theorem processor_fails_on_malformed_feed_only response now :
  (processRotationData response now = None
   <-> data response = None
       \/ exists d, data response = Some d
             /\ (battleKeyBad d \/ coopKeyBad d \/ sectionThrows d now))
  /\ (processRotationData response now = None ->
      forall w salmonData,
        processSalmonRunData response now = Ok salmonData ->
        exists w' rd,
          fetchCycle w (Response true (Some response)) now = Ok w'
          /\ rotationData (local w') = Some rd
          /\ regular rd = regular (createTestData now)
          /\ anarchy rd = anarchy (createTestData now)
          /\ xbattle rd = xbattle (createTestData now)
          /\ challenge rd = None /\ splatfest rd = None
          /\ forall mode, mode ∈ ["regular"; "anarchy"; "xbattle"] ->
               is_Some (currentOf (Some rd) mode)
               /\ is_Some (nextOf (Some rd) mode))
  /\ (forall d rd,
        data response = Some d ->
        processRotationData response now = Some rd ->
        (regularSchedules d = None -> regular rd = Some emptyState)
        /\ (bankaraSchedules d = None -> anarchy rd = Some emptyState)
        /\ (xSchedules d = None -> xbattle rd = Some emptyState)
        /\ (eventSchedules d = None -> challenge rd = Some emptyState)).
Proof.
  split; [|split].
  - rewrite processRotationData_null, validateApiResponse_spec. split.
    + intros [[?|(d & ? & [?|?])]|(d & ? & ?)]; [by left|..];
        right; exists d; tauto.
    + intros [?|(d & ? & [?|[?|?]])]; [left; by left|..].
      * left. right. exists d. tauto.
      * left. right. exists d. tauto.
      * right. by exists d.
  - intros Hnull w salmonData Hsalmon. unfold fetchCycle.
    rewrite Hnull, Hsalmon. cbn [default].
    eexists _, _. split; [done|]. split; [done|]. cbn.
    do 5 (split; [done|]). intros mode.
    rewrite !elem_of_cons, elem_of_nil.
    intros [->|[->|[->|[]]]]; cbn; split; by eexists.
  - intros d rd Hd. unfold processRotationData.
    destruct (validateApiResponse response); cbn [negb]; [|done].
    rewrite Hd.
    destruct (selectIfNodes (regularSchedules d) _) as [r|] eqn:R; [|done].
    destruct (selectIfNodes (bankaraSchedules d) _) as [a|] eqn:A; [|done].
    destruct (selectIfNodes (xSchedules d) _) as [x|] eqn:X; [|done].
    destruct (eventsIfNodes (eventSchedules d) now) as [c|] eqn:C; [|done].
    destruct (processSplatfestData d now); [|done].
    intros [= <-]; cbn.
    repeat split; intros Hnone; rewrite Hnone in *; cbn in *; congruence.
Qed.

End Validation.

(** C6 (as stated, refuted). The feed [Sample.badCoop] has its root data
    object and no battle key without a list, and the processor still
    returns [null]: its coop section holds a [nodes] that is not a list. *)
Lemma processor_fails_on_bad_coop_section :
  let H := IsoDate.date in
  let S := insertion in
  processRotationData Sample.badCoop Sample.midnight = None
  /\ ~ rootOrBattleKeyBad Sample.badCoop.
Proof.
  cbv zeta. split; [by vm_compute|].
  intros [Hd|(d & Hd & [Hb|[Hb|Hb]])]; [done|..];
    injection Hd as <-; destruct Hb as (f & Hf & Hl); cbn in Hf;
    try done.
  injection Hf as <-. by destruct (Hl []).
Qed.

Section SalmonRun.
Context `{JSDate} `{JSArray}.



Lemma nothingLeft_app now l1 l2 :
  nothingLeft now (l1 ++ l2) <-> nothingLeft now l1 /\ nothingLeft now l2.
Proof. apply Forall_app. Qed.

(** Nothing is left of the entries built of a node collection exactly
    when none of its shifts is ahead. *)
Lemma salmonEntries_nothingLeft bigRun l now rots :
  salmonEntries bigRun l = Ok rots ->
  nothingLeft now rots
  <-> Forall (fun schedule => shiftAhead now schedule = false) (omap id l).
Proof.
  revert rots. induction l as [|entry l IH]; intros rots;
    cbn [salmonEntries].
  - intros [= <-]. cbn. split; constructor.
  - destruct (salmonEntries bigRun l) as [more|];
      [|by destruct (match entry with Some _ => _ | None => _ end)].
    specialize (IH more eq_refl).
    destruct entry as [schedule|]; [|by intros [= <-]].
    change (omap id (Some schedule :: l)) with (schedule :: omap id l).
    rewrite Forall_cons, <- IH. unfold shiftAhead.
    destruct (truthy (coop_startTime schedule)
              && truthy (coop_endTime schedule)) eqn:W.
    + destruct (salmonEntry bigRun schedule) as [r|] eqn:E; [|done].
      intros [= <-]. cbn [app]. unfold nothingLeft at 1.
      rewrite Forall_cons. fold (nothingLeft now more).
      destruct (salmonEntry_window _ _ _ E) as [Hs He].
      unfold spansNow, startsAfter. rewrite Hs, He, W. cbn [andb].
      rewrite orb_false_iff. tauto.
    + intros [= <-]. cbn [app andb]. tauto.
Qed.

Lemma listedShifts_iter section l :
  iterNodes section = Ok l -> listedShifts section = omap id l.
Proof. destruct section as [[| |l']|]; cbn; by intros [= <-]. Qed.

Lemma salmonSchedules_nothingLeft coop unsorted now :
  salmonSchedules coop = Ok unsorted ->
  nothingLeft now unsorted <-> noShiftAhead now coop.
Proof.
  unfold salmonSchedules, noShiftAhead, coopShifts.
  destruct (iterNodes (bigRunSchedules coop)) as [b|] eqn:B; [|done].
  destruct (salmonEntries true b) as [bs|] eqn:Eb; [|done].
  destruct (iterNodes (coop_regularSchedules coop)) as [r|] eqn:R; [|done].
  destruct (salmonEntries false r) as [rs|] eqn:Er; [|done].
  intros [= <-].
  rewrite nothingLeft_app, Forall_app.
  rewrite (listedShifts_iter _ _ B), (listedShifts_iter _ _ R).
  by rewrite (salmonEntries_nothingLeft _ _ now _ Eb),
    (salmonEntries_nothingLeft _ _ now _ Er).
Qed.





End SalmonRun.


(** * The properties on concrete feeds *)

Section Witnesses.
#[local] Existing Instance IsoDate.date.
#[local] Existing Instance insertion.

(** C2 at the snapshot [Sample.twoCurrent] at 11:00: the regular boundary
    gives 12:01, the anarchy one 12:06, and the scheduler arms
    [smartRefresh] at 12:01. *)
Lemma scheduler_witness :
  0 <= Sample.eleven
  /\ isMinimum Sample.twelveOhOne
       (futureCandidates Sample.twoCurrent Sample.eleven allModes)
  /\ scheduleNextRefresh Sample.twoCurrent Sample.eleven ∅
     = <["smartRefresh" := When Sample.twelveOhOne]> (delete "smartRefresh" ∅).
Proof.
  assert (0 <= Sample.eleven) as Hnow by (by vm_compute).
  assert (isMinimum Sample.twelveOhOne
            (futureCandidates Sample.twoCurrent Sample.eleven allModes))
    as Hmin.
  { assert (futureCandidates Sample.twoCurrent Sample.eleven allModes
            = [Sample.twelveOhOne; Sample.twelveOhOne + 5 * 60 * 1000])
      as -> by (by vm_compute).
    split; [by left|]. intros x. rewrite !elem_of_cons, elem_of_nil.
    intros [->|[->|[]]]; lia. }
  split; [exact Hnow|]. split; [exact Hmin|].
  exact (proj1 (scheduler_arms_minimum_future_boundary
                  Sample.twoCurrent Sample.eleven ∅ Hnow)
               Sample.twelveOhOne Hmin).
Defined.



(** C10 on a snapshot and on the same snapshot with another challenge
    state and a festival: the same notifications are made. *)
Lemma challenge_change_witness :
  sameNotified Sample.twoCurrentWithEvent Sample.twoCurrent
  /\ sameNotifiedOld (Some Sample.twoCurrent) (Some Sample.twoCurrentWithEvent)
  /\ sendRotationNotifications Sample.allOn Sample.twoCurrentWithEvent
       (Some Sample.twoCurrent)
     = sendRotationNotifications Sample.allOn Sample.twoCurrent
         (Some Sample.twoCurrentWithEvent).
Proof.
  assert (sameNotified Sample.twoCurrentWithEvent Sample.twoCurrent) as Hnew
    by (by repeat split).
  assert (sameNotifiedOld (Some Sample.twoCurrent)
                          (Some Sample.twoCurrentWithEvent)) as Hold
    by (by repeat split).
  split; [exact Hnew|]. split; [exact Hold|].
  exact (proj1 (notifications_ignore_challenge_and_splatfest
                  Sample.allOn _ _ _ _ Hnew Hold)).
Defined.

(** C7 (amended) on the first cycle from [Sample.freshWorld]: no
    [refreshRotations] alarm is pending before it, and at most one of the
    two alarms is armed after it. *)
Lemma first_cycle_witness :
  alarms Sample.freshWorld !! "refreshRotations" = None
  /\ atMostOneArmed (alarms Sample.afterFetch).
Proof.
  split; [reflexivity|].
  pose proof (cycle_arms_one_timer_and_keeps_the_other Sample.freshWorld
                (Response true (Some Sample.oneRegular)) Sample.midnight)
    as Hcycle.
  unfold Sample.afterFetch.
  destruct (fetchCycle Sample.freshWorld
              (Response true (Some Sample.oneRegular)) Sample.midnight)
    as [w1|] eqn:E; [|by vm_compute in E].
  destruct (fetchAllData Sample.freshWorld
              (Response true (Some Sample.oneRegular)) Sample.midnight)
    as [w' success].
  destruct Hcycle as [Hok _].
  destruct (Hok w1 eq_refl) as (_ & _ & Hone).
  exact (Hone eq_refl).
Defined.

(** C8 (amended) on [Sample.twoFestsData]: the entry is the first
    upcoming festival of the list. *)
Lemma festival_witness :
  currentFest Sample.twoFestsData = None
  /\ iterNodes (festSchedules Sample.twoFestsData) = Ok Sample.twoFests
  /\ exists fest node,
       processSplatfestData Sample.twoFestsData Sample.midnight = Ok (Some fest)
       /\ firstUpcoming Sample.midnight Sample.twoFests node
       /\ fest = scheduledFest node.
Proof.
  split; [reflexivity|]. split; [reflexivity|].
  pose proof (proj1 (proj2 (festival_is_active_or_first_upcoming
                              Sample.twoFestsData Sample.midnight))
                    Sample.twoFests eq_refl eq_refl) as Hfest.
  destruct (processSplatfestData Sample.twoFestsData Sample.midnight)
    as [[fest|]|] eqn:E; [|by vm_compute in E|by vm_compute in E].
  destruct Hfest as (node & Hfirst & Hf & _).
  exists fest, node. split; [reflexivity|]. split; [exact Hfirst|exact Hf].
Defined.

(** C6 (amended) on [Sample.noRoot], [Sample.oneRegular] and
    [Sample.brokenEventFeed]: without a root data object the stored
    snapshot is the placeholder; with a feed that only has the regular key,
    anarchy gets the empty state; with an event whose time periods are no
    list the processor returns [null]. *)
Lemma validation_witness :
  processRotationData Sample.noRoot Sample.midnight = None
  /\ (exists w', fetchCycle Sample.freshWorld
                   (Response true (Some Sample.noRoot)) Sample.midnight = Ok w'
        /\ (rotationData (local w') ≫= regular)
           = regular (createTestData Sample.midnight))
  /\ (exists d rd, data Sample.oneRegular = Some d
        /\ processRotationData Sample.oneRegular Sample.midnight = Some rd
        /\ bankaraSchedules d = None
        /\ anarchy rd = Some emptyState)
  /\ (exists d, data Sample.brokenEventFeed = Some d
        /\ sectionThrows d Sample.midnight
        /\ processRotationData Sample.brokenEventFeed Sample.midnight = None).
Proof.
  assert (exists d, data Sample.brokenEventFeed = Some d
            /\ sectionThrows d Sample.midnight
            /\ processRotationData Sample.brokenEventFeed Sample.midnight
               = None) as Hbroken.
  { eexists. split; [reflexivity|].
    assert (sectionThrows
              {| regularSchedules := None; bankaraSchedules := None;
                 xSchedules := None;
                 eventSchedules := Some (NodeList [Some Sample.brokenEvent]);
                 coopGroupingSchedule := None;
                 currentFest := None; festSchedules := None |}
              Sample.midnight) as Hthrows.
    { do 3 right. left. right. eexists. split; [reflexivity|].
      apply Exists_cons_hd. eexists _, _. do 2 (split; [reflexivity|]).
      right. by left. }
    split; [exact Hthrows|].
    apply (proj1 (processor_fails_on_malformed_feed_only
                    Sample.brokenEventFeed Sample.midnight)).
    right. eexists. split; [reflexivity|]. right. right. exact Hthrows. }
  cut (processRotationData Sample.noRoot Sample.midnight = None
       /\ (exists w', fetchCycle Sample.freshWorld
                        (Response true (Some Sample.noRoot)) Sample.midnight
                      = Ok w'
             /\ (rotationData (local w') ≫= regular)
                = regular (createTestData Sample.midnight))
       /\ (exists d rd, data Sample.oneRegular = Some d
             /\ processRotationData Sample.oneRegular Sample.midnight = Some rd
             /\ bankaraSchedules d = None
             /\ anarchy rd = Some emptyState)); [tauto|].
  pose proof (processor_fails_on_malformed_feed_only Sample.noRoot Sample.midnight)
    as (Hiff & Hfallback & _).
  assert (processRotationData Sample.noRoot Sample.midnight = None) as Hnull
    by (apply Hiff; by left).
  split; [exact Hnull|]. split.
  - destruct (Hfallback Hnull Sample.freshWorld
                (createSalmonRunTestData Sample.midnight) eq_refl)
      as (w' & rd & Hcycle & Hrd & Hr & _).
    exists w'. split; [exact Hcycle|]. rewrite Hrd. exact Hr.
  - pose proof (processor_fails_on_malformed_feed_only
                  Sample.oneRegular Sample.midnight) as (_ & _ & Hmissing).
    destruct (data Sample.oneRegular) as [d|] eqn:D; [|by vm_compute in D].
    destruct (processRotationData Sample.oneRegular Sample.midnight)
      as [rd|] eqn:P; [|by vm_compute in P].
    assert (bankaraSchedules d = None) as Hb
      by (injection D as <-; reflexivity).
    exists d, rd. do 3 (split; [done|]).
    exact (proj1 (proj2 (Hmissing d rd eq_refl eq_refl)) Hb).
Defined.


(** C1 (amended) on [Sample.liveCoop]: the shift under way is the current
    one and the Big Run to come the next one, over the sorted schedules. *)
Lemma salmon_selection_witness :
  exists unsorted sorted st,
    salmonSchedules Sample.liveCoop = Ok unsorted
    /\ Forall (fun r => is_Some (startMsOf r)) unsorted
    /\ ~ nothingLeft Sample.midnight unsorted
    /\ sortedSchedules unsorted = Ok sorted
    /\ processSalmonRunData (Sample.coopFeed Sample.liveCoop) Sample.midnight
       = Ok st
    /\ intervalIndex Sample.midnight sorted st.
Proof.
  destruct (salmonSchedules Sample.liveCoop) as [unsorted|] eqn:E;
    [|by vm_compute in E].
  assert (Forall (fun r => is_Some (startMsOf r)) unsorted) as Hread.
  { vm_compute in E. injection E as <-.
    constructor; [by eexists|]. constructor; [by eexists|constructor]. }
  assert (~ nothingLeft Sample.midnight unsorted) as Hsome.
  { vm_compute in E. injection E as <-. intros Hno.
    apply Forall_cons in Hno as [_ Hno].
    apply Forall_cons in Hno as [[Hs _] _]. by vm_compute in Hs. }
  destruct (proj1 (proj2 (proj2 (proj2
              (selectors_pick_current_and_next Sample.midnight))))
              (Sample.coopFeed Sample.liveCoop) Sample.liveCoop unsorted
              eq_refl E)
    as (sorted & st & Hsort & _ & Hst & [[Hno _]|(_ & _ & _ & Hidx)]);
    [by destruct Hsome|].
  exists unsorted, sorted, st. do 5 (split; [done|]).
  exact (proj2 (proj2 (Hidx Hread))).
Defined.

End Witnesses.

(** * Further properties of the selectors *)

Section SelectorSoundness.
Context `{JSDate} `{JSArray}.

Lemma lastSpanning_sound now items r :
  lastSpanning now items (Some r) -> spansNow now r = true /\ r ∈ items.
Proof.
  intros (pre & post & -> & Hs & _). split; [done|].
  apply elem_of_app. right. by left.
Qed.

Lemma firstSpanning_sound now items r :
  firstSpanning now items (Some r) -> spansNow now r = true /\ r ∈ items.
Proof.
  intros (pre & post & -> & Hs & _). split; [done|].
  apply elem_of_app. right. by left.
Qed.

Lemma earliestAfter_sound now items r :
  earliestAfter now items (Some r) -> startsAfter now r = true /\ r ∈ items.
Proof.
  intros (pre & post & -> & Hs & _). split; [done|].
  apply elem_of_app. right. by left.
Qed.

(** A window that contains [now] does not start after it. *)
Lemma spansNow_not_after now r :
  spansNow now r = true -> startsAfter now r = false.
Proof.
  unfold spansNow, startsAfter.
  destruct (truthy (startTime r) && truthy (endTime r)); [|done].
  cbn [andb]. apply spans_not_after.
Qed.

(** What the two kinds of selection have in common. *)
Lemma index_sound now items st :
  intervalIndex now items st \/ eventIndex now items st ->
  soundState now st
  /\ (forall r, current st = Some r \/ next st = Some r -> r ∈ items)
  /\ (forall c n, current st = Some c -> next st = Some n -> c <> n).
Proof.
  intros Hidx.
  assert ((forall c, current st = Some c ->
             spansNow now c = true /\ c ∈ items)
          /\ (forall n, next st = Some n ->
                startsAfter now n = true /\ n ∈ items)) as [Hc Hn].
  { destruct Hidx as [[Hc Hn]|[Hc Hn]]; split.
    - intros c E. rewrite E in Hc. by apply lastSpanning_sound.
    - intros n E. rewrite E in Hn. by apply earliestAfter_sound.
    - intros c E. rewrite E in Hc. by apply firstSpanning_sound.
    - intros n E. rewrite E in Hn. by apply earliestAfter_sound. }
  split; [split|split].
  - intros c E. by apply Hc.
  - intros n E. by apply Hn.
  - intros r [E|E]; [by apply Hc|by apply Hn].
  - intros c n Ec En ->. destruct (Hc _ Ec) as [Hs _].
    destruct (Hn _ En) as [Ha _]. apply spansNow_not_after in Hs. congruence.
Qed.

Lemma index_empty_iff now items st :
  intervalIndex now items st \/ eventIndex now items st ->
  st = emptyState <-> nothingLeft now items.
Proof.
  intros Hidx. unfold nothingLeft. rewrite Forall_forall.
  destruct (index_sound now items st Hidx) as ((Hsc & Hsn) & Hin & _).
  split.
  - intros ->. intros x Hx.
    destruct Hidx as [[Hc Hn]|[Hc Hn]]; cbn in Hc, Hn;
      rewrite Forall_forall in Hc; rewrite Forall_forall in Hn; auto.
  - intros Hnone. destruct st as [[c|] [n|]]; cbn in *; try done.
    + destruct (Hnone c (Hin c (or_introl eq_refl))) as [Hf _].
      rewrite (Hsc c eq_refl) in Hf. done.
    + destruct (Hnone c (Hin c (or_introl eq_refl))) as [Hf _].
      rewrite (Hsc c eq_refl) in Hf. done.
    + destruct (Hnone n (Hin n (or_intror eq_refl))) as [_ Hf].
      rewrite (Hsn n eq_refl) in Hf. done.
Qed.

Lemma candidates_perm mk l1 l2 :
  l1 ≡ₚ l2 -> candidates mk l1 ≡ₚ candidates mk l2.
Proof. unfold candidates. by intros ->. Qed.

Lemma candidates_elem mk l r :
  r ∈ candidates mk l <-> exists node, Some node ∈ l /\ mk node = Ok r.
Proof.
  unfold candidates. rewrite list_elem_of_omap. split.
  - intros ([node|] & Hin & Hb); cbn in Hb; [|done].
    exists node. split; [done|]. by destruct (mk node) as [r'|]; simplify_eq.
  - intros (node & Hin & Hmk). exists (Some node). split; [done|].
    cbn. by rewrite Hmk.
Qed.

(** What a selector that sorts returns, whatever the list holds. *)
Lemma selectSorted_sound mk nodes now :
  (forall n r, mk n = Ok r ->
     startTime r = node_startTime n /\ endTime r = node_endTime n) ->
  match selectSorted mk nodes now with
  | Ok st =>
      soundState now st
      /\ (forall r, current st = Some r \/ next st = Some r ->
            exists node, Some node ∈ nodes /\ mk node = Ok r)
      /\ (forall c n, current st = Some c -> next st = Some n -> c <> n)
      /\ (st = emptyState <-> nothingLeft now (candidates mk nodes))
  | Threw => (2 <= length nodes)%nat /\ None ∈ nodes
  end.
Proof.
  intros Hwin. pose proof (selectSorted_spec mk nodes now Hwin) as Hspec.
  destruct (sortedNodes nodes) as [sorted|] eqn:S.
  - destruct Hspec as (st & -> & Hidx).
    pose proof (sortedNodes_perm _ _ S) as Hperm.
    destruct (index_sound now _ st (or_introl Hidx)) as (Hs & Hin & Hne).
    split; [done|]. split; [|split; [done|]].
    + intros r Hr. apply Hin in Hr.
      apply candidates_elem in Hr as (node & Hnode & Hmk).
      exists node. split; [by rewrite <- Hperm|done].
    + rewrite (index_empty_iff now _ st (or_introl Hidx)).
      unfold nothingLeft. by rewrite (candidates_perm mk _ _ Hperm).
  - rewrite Hspec. by apply sortedNodes_throws.
Qed.

(** X1. Whatever the feed holds, the rotations the regular, X, anarchy
    and event selectors return were built from nodes (or time periods) of
    the feed; a current rotation has a start and an end with
    start <= now < end, a next rotation starts strictly after now, and the
    two are never the same rotation. A selector that does not return
    throws: the regular, X and anarchy ones on a list that holds a [null]
    next to another entry, the event one on an entry that makes its loop
    throw. *)
Theorem selectors_return_sound_rotations_of_the_feed now :
  (forall nodes mode,
     match findCurrentAndNext nodes now mode with
     | Ok st =>
         soundState now st
         /\ (forall r, current st = Some r \/ next st = Some r ->
               exists node, Some node ∈ nodes /\ processNode mode node = Ok r)
         /\ (forall c n, current st = Some c -> next st = Some n -> c <> n)
     | Threw => (2 <= length nodes)%nat /\ None ∈ nodes
     end)
  /\ (forall nodes,
        match findCurrentAndNextAnarchy nodes now with
        | Ok st =>
            soundState now st
            /\ (forall r, current st = Some r \/ next st = Some r ->
                  exists node, Some node ∈ nodes
                               /\ processAnarchyNode node = Ok r)
            /\ (forall c n, current st = Some c -> next st = Some n -> c <> n)
        | Threw => (2 <= length nodes)%nat /\ None ∈ nodes
        end)
  /\ (forall nodes,
        match processEventSchedules nodes now with
        | Ok st =>
            soundState now st
            /\ (forall r, current st = Some r \/ next st = Some r ->
                  r ∈ eventCandidates nodes)
            /\ (forall c n, current st = Some c -> next st = Some n -> c <> n)
        | Threw => Exists eventThrows nodes
        end).
Proof.
  split; [|split].
  - intros nodes mode.
    pose proof (selectSorted_sound (processNode mode) nodes now
                  (processNode_window mode)) as Hs.
    unfold findCurrentAndNext.
    destruct (selectSorted (processNode mode) nodes now); [|done]. tauto.
  - intros nodes.
    pose proof (selectSorted_sound processAnarchyNode nodes now
                  processAnarchyNode_window) as Hs.
    unfold findCurrentAndNextAnarchy.
    destruct (selectSorted processAnarchyNode nodes now); [|done]. tauto.
  - intros nodes.
    destruct (processEventSchedules nodes now) as [st|] eqn:E.
    + exact (index_sound now _ st
               (or_intror (processEventSchedules_spec nodes now st E))).
    + by apply (proj1 (processEventSchedules_throws nodes now)).
Qed.

(** X2. A selector returns the empty state exactly when it does not
    throw and none of the rotations it builds of the nodes of the feed
    (of the time periods, for the events) has a window that contains now
    or starts after it: an empty list, nodes without a start or an end,
    unreadable dates, schedules that are all over and nodes whose
    processing throws, which the regular, X and anarchy selectors pass
    over whatever their window, give [{current: null, next: null}], and
    nothing else does. *)
Theorem selectors_empty_iff_nothing_left now :
  (forall nodes mode,
     findCurrentAndNext nodes now mode = Ok emptyState
     <-> ~ ((2 <= length nodes)%nat /\ None ∈ nodes)
         /\ nothingLeft now (candidates (processNode mode) nodes))
  /\ (forall nodes,
        findCurrentAndNextAnarchy nodes now = Ok emptyState
        <-> ~ ((2 <= length nodes)%nat /\ None ∈ nodes)
            /\ nothingLeft now (candidates processAnarchyNode nodes))
  /\ (forall nodes,
        processEventSchedules nodes now = Ok emptyState
        <-> ~ Exists eventThrows nodes
            /\ nothingLeft now (eventCandidates nodes)).
Proof.
  assert (forall mk nodes,
            (forall n r, mk n = Ok r ->
               startTime r = node_startTime n /\ endTime r = node_endTime n) ->
            selectSorted mk nodes now = Ok emptyState
            <-> ~ ((2 <= length nodes)%nat /\ None ∈ nodes)
                /\ nothingLeft now (candidates mk nodes)) as Hsel.
  { intros mk nodes Hwin.
    pose proof (selectSorted_sound mk nodes now Hwin) as Hs.
    pose proof (selectSorted_throws mk nodes now) as Ht.
    destruct (selectSorted mk nodes now) as [st|].
    - destruct Hs as (_ & _ & _ & Hiff). split.
      + intros [= ->]. split; [|by apply Hiff].
        intros Hthrows. by apply Ht in Hthrows.
      + intros [_ Hno]. f_equal. by apply Hiff.
    - split; [done|]. intros [Hno _]. by destruct Hno. }
  split; [|split].
  - intros nodes mode. apply Hsel, processNode_window.
  - intros nodes. apply Hsel, processAnarchyNode_window.
  - intros nodes.
    pose proof (processEventSchedules_throws nodes now) as Ht.
    destruct (processEventSchedules nodes now) as [st|] eqn:E.
    + pose proof (index_empty_iff now _ st
                    (or_intror (processEventSchedules_spec nodes now st E)))
        as Hiff.
      split.
      * intros [= ->]. split; [|by apply Hiff].
        intros Hthrows. by apply Ht in Hthrows.
      * intros [_ Hno]. f_equal. by apply Hiff.
    + split; [done|]. intros [Hno _]. destruct Hno. by apply Ht.
Qed.

End SelectorSoundness.

(** * Further properties of the worker *)

Section WorkerInvariants.
Context `{JSDate} `{JSArray}.

Lemma currentNotEnded_antitone rd now now' mode :
  now <= now' ->
  currentNotEnded rd now' mode = true -> currentNotEnded rd now mode = true.
Proof.
  intros Hle. unfold currentNotEnded.
  destruct (modeOf rd mode ≫= current) as [c|]; [|done].
  destruct (truthy (endTime c)); [|done]. cbn [andb].
  unfold num_gt, num_lt. destruct (msOf (endTime c)) as [e|]; [|done].
  rewrite !Z.ltb_lt. lia.
Qed.

(** X3. A cached snapshot only expires with time: if it is still valid at
    an instant it was valid at every earlier one. A snapshot in which one
    of the four checked modes has a next rotation with a start time is
    valid at every instant, however old it is. *)
Theorem cache_validity_only_expires rd :
  (forall now now',
     now <= now' ->
     isDataStillValid rd now' = true -> isDataStillValid rd now = true)
  /\ (forall mode,
        mode ∈ validityModes -> hasUpcoming rd mode = true ->
        forall now, isDataStillValid rd now = true).
Proof.
  split.
  - intros now now' Hle. rewrite !isDataStillValid_spec.
    intros (mode & Hin & [Hc|Hn]); exists mode; (split; [done|]).
    + left. by eapply currentNotEnded_antitone.
    + by right.
  - intros mode Hin Hup now. apply isDataStillValid_spec.
    exists mode. split; [done|]. by right.
Qed.

Lemma scheduleNextRefresh_smart_future rd now al t :
  0 <= now ->
  scheduleNextRefresh rd now al !! "smartRefresh" = Some t ->
  exists time, t = When time /\ now < time.
Proof.
  intros Hnow.
  pose proof (refreshLoop_inv rd now refreshModes [] None Hnow eq_refl) as Hinv.
  cbn [app] in Hinv. unfold scheduleNextRefresh.
  destruct (fold_left (refreshStep rd now) refreshModes None) as [time|].
  - cbn [refreshInv] in Hinv. destruct Hinv as [Hin _].
    apply list_elem_of_filter in Hin as [Hlt _].
    destruct (numTruthy (Some time)).
    + rewrite lookup_insert_eq. intros [= <-]. by exists time.
    + by rewrite lookup_insert_ne, lookup_delete_eq.
  - by rewrite lookup_insert_ne, lookup_delete_eq.
Qed.

(** X4. Scheduling always leaves one of the two alarms armed, and
    scheduling again from the same snapshot at the same instant changes
    nothing. With a clock at or after the epoch, [smartRefresh] is only
    ever armed at an absolute time strictly after now. *)
Theorem scheduling_is_idempotent_and_arms_a_future_alarm rd now al :
  scheduleNextRefresh rd now (scheduleNextRefresh rd now al)
  = scheduleNextRefresh rd now al
  /\ someTimerArmed (scheduleNextRefresh rd now al)
  /\ (0 <= now ->
      forall t, scheduleNextRefresh rd now al !! "smartRefresh" = Some t ->
                exists time, t = When time /\ now < time).
Proof.
  split; [|split].
  - destruct (scheduleNextRefresh_cases rd now al) as [[t Ht]|Ht].
    + destruct (scheduleNextRefresh_cases rd now
                  (<["smartRefresh" := When t]> (delete "smartRefresh" al)))
        as [[t' Ht']|Ht'].
      * rewrite Ht in *. rewrite Ht'.
        rewrite delete_insert_eq, delete_delete_eq.
        assert (t' = t) as ->; [|done].
        assert (scheduleNextRefresh rd now al !! "smartRefresh"
                = Some (When t)) as H1
          by (by rewrite Ht, lookup_insert_eq).
        assert (scheduleNextRefresh rd now
                  (<["smartRefresh" := When t]> (delete "smartRefresh" al))
                !! "smartRefresh" = Some (When t')) as H2
          by (by rewrite Ht', lookup_insert_eq).
        unfold scheduleNextRefresh in H1, H2.
        destruct (fold_left (refreshStep rd now) refreshModes None) as [u|].
        -- destruct (numTruthy (Some u)).
           ++ rewrite lookup_insert_eq in H1, H2. congruence.
           ++ by rewrite lookup_insert_ne, lookup_delete_eq in H1.
        -- by rewrite lookup_insert_ne, lookup_delete_eq in H1.
      * (* the two runs read the same snapshot: both arm the same alarm *)
        assert (scheduleNextRefresh rd now al !! "smartRefresh"
                = Some (When t)) as H1
          by (by rewrite Ht, lookup_insert_eq).
        assert (scheduleNextRefresh rd now
                  (<["smartRefresh" := When t]> (delete "smartRefresh" al))
                !! "smartRefresh" = None) as H2
          by (by rewrite Ht', lookup_insert_ne, lookup_delete_eq).
        unfold scheduleNextRefresh in H1, H2.
        destruct (fold_left (refreshStep rd now) refreshModes None) as [u|].
        -- destruct (numTruthy (Some u)).
           ++ by rewrite lookup_insert_eq in H2.
           ++ by rewrite lookup_insert_ne, lookup_delete_eq in H1.
        -- by rewrite lookup_insert_ne, lookup_delete_eq in H1.
    + destruct (scheduleNextRefresh_cases rd now
                  (<["refreshRotations" := DelayInMinutes REFRESH_INTERVAL]>
                     (delete "smartRefresh" al)))
        as [[t' Ht']|Ht'].
      * assert (scheduleNextRefresh rd now al !! "smartRefresh" = None) as H1
          by (by rewrite Ht, lookup_insert_ne, lookup_delete_eq).
        assert (scheduleNextRefresh rd now
                  (<["refreshRotations" := DelayInMinutes REFRESH_INTERVAL]>
                     (delete "smartRefresh" al))
                !! "smartRefresh" = Some (When t')) as H2
          by (by rewrite Ht', lookup_insert_eq).
        unfold scheduleNextRefresh in H1, H2.
        destruct (fold_left (refreshStep rd now) refreshModes None) as [u|].
        -- destruct (numTruthy (Some u)).
           ++ by rewrite lookup_insert_eq in H1.
           ++ by rewrite lookup_insert_ne, lookup_delete_eq in H2.
        -- by rewrite lookup_insert_ne, lookup_delete_eq in H2.
      * rewrite Ht in *. rewrite Ht'.
        rewrite delete_insert_ne, delete_delete_eq by done.
        by rewrite insert_insert_eq.
  - destruct (scheduleNextRefresh_cases rd now al) as [[t ->]| ->].
    + left. unfold armed. rewrite lookup_insert_eq. by eexists.
    + right. unfold armed. rewrite lookup_insert_eq. by eexists.
  - intros Hnow t. by apply scheduleNextRefresh_smart_future.
Qed.

(** The processor returns its test data when the coop section is missing
    or holds no shift ahead, and otherwise a state that is right at
    [now]. *)
Lemma processSalmonRunData_sound response now st :
  processSalmonRunData response now = Ok st ->
  (st = createSalmonRunTestData now
   /\ (data response ≫= coopGroupingSchedule = None
       \/ exists coop, data response ≫= coopGroupingSchedule = Some coop
                       /\ noShiftAhead now coop))
  \/ (soundState now st /\ (is_Some (current st) \/ is_Some (next st))).
Proof.
  destruct (data response ≫= coopGroupingSchedule) as [coop|] eqn:C.
  2: { unfold processSalmonRunData. rewrite C. intros [= <-]. left. auto. }
  destruct (salmonSchedules coop) as [unsorted|] eqn:E.
  2: { unfold processSalmonRunData. by rewrite C, E. }
  destruct (processSalmonRunData_scan response now coop unsorted C E)
    as (sorted & _ & Hperm & [[Hno ->]|(_ & Hne & ->)]); intros [= <-].
  - left. split; [done|]. right. exists coop. split; [done|].
    by apply (salmonSchedules_nothingLeft coop unsorted).
  - right.
    assert (soundState now (salmonScan now sorted None None)) as Hsound.
    { apply salmonScan_sound; [|by split].
      rewrite Hperm. by eapply salmonSchedules_hasWindow. }
    split; [done|].
    destruct (salmonScan now sorted None None) as [[c|] [n|]];
      [left|left|right|done]; by eexists.
Qed.

(** A snapshot whose Salmon Run state came out of the processor is still
    valid at the instant it was processed. *)
Lemma salmon_state_keeps_cache_valid rd st response now :
  (forall t, Date_toISOString t <> EmptyString) ->
  processSalmonRunData response now = Ok st ->
  salmon rd = Some st ->
  isDataStillValid rd now = true.
Proof.
  intros Hiso Hst Hrd. apply isDataStillValid_spec. exists "salmon".
  split; [unfold validityModes; rewrite !elem_of_cons; tauto|].
  unfold currentNotEnded, hasUpcoming.
  change (modeOf rd "salmon") with (salmon rd). rewrite Hrd. cbn [mbind option_bind].
  destruct (processSalmonRunData_sound _ _ _ Hst)
    as [[-> _]|((Hc & Hn) & [[c Ec]|[n En]])].
  - right. cbn. apply negb_true_iff, String.eqb_neq. apply Hiso.
  - left. rewrite Ec. cbn. specialize (Hc c Ec). unfold spansNow, spans in Hc.
    destruct (truthy (startTime c)); [|done].
    destruct (truthy (endTime c)); [|done]. cbn in *.
    by apply andb_true_iff in Hc as [_ ?].
  - right. rewrite En. cbn. specialize (Hn n En). unfold startsAfter in Hn.
    destruct (truthy (startTime n)); done.
Qed.

(** X5. With a [Date] whose ISO strings are never empty, the snapshot a
    completed cycle stores is still valid at that instant: its Salmon Run
    state always holds a current rotation that has not ended or a next
    one. A request that fails right after a completed cycle is therefore
    answered from the cache, with the answer true. *)
Theorem completed_cycle_stores_a_valid_cache w fetched now w' :
  (forall t, Date_toISOString t <> EmptyString) ->
  fetchCycle w fetched now = Ok w' ->
  (exists rd st, rotationData (local w') = Some rd
     /\ salmon rd = Some st
     /\ (is_Some (current st) \/ is_Some (next st))
     /\ isDataStillValid rd now = true)
  /\ (forall failed, requestFailed failed ->
        (fetchAllData w' failed now).2 = true).
Proof.
  intros Hiso Hcycle.
  assert (exists rd st response,
            rotationData (local w') = Some rd /\ salmon rd = Some st
            /\ processSalmonRunData response now = Ok st)
    as (rd & st & response & Hrd & Hs & Hst).
  { unfold fetchCycle in Hcycle.
    destruct fetched as [|[] [apiData|]]; try done.
    destruct (processSalmonRunData apiData now) as [st|] eqn:E; [|done].
    injection Hcycle as <-. by eexists _, st, apiData. }
  pose proof (salmon_state_keeps_cache_valid rd st response now Hiso Hst Hs)
    as Hvalid.
  split.
  - exists rd, st. do 2 (split; [done|]). split; [|done].
    destruct (processSalmonRunData_sound _ _ _ Hst) as [[-> _]|[_ ?]]; [|done].
    left. by eexists.
  - intros failed Hfail. unfold fetchAllData.
    rewrite (requestFailed_throws _ _ _ Hfail). unfold serveStale.
    by rewrite Hrd, Hvalid.
Qed.

(** X6. Whatever the request gives, a cycle never erases the cached
    snapshot, never changes the settings and only adds to the
    notifications. When it answers true, one of the two alarms is armed,
    so another cycle will follow; when it answers false the worker is
    left exactly as it was, with no alarm armed by the cycle. The alarm
    listener starts a cycle for the two alarms of the worker and ignores
    every other alarm. *)
Theorem cycle_keeps_cache_and_stays_scheduled w fetched now :
  let (w', success) := fetchAllData w fetched now in
  (is_Some (rotationData (local w)) -> is_Some (rotationData (local w')))
  /\ sync w' = sync w
  /\ (exists added, notifications w' = (notifications w ++ added)%list)
  /\ (success = true -> someTimerArmed (alarms w'))
  /\ (success = false -> w' = w)
  /\ (forall alarmName,
        onAlarm w alarmName fetched now
        = if bool_decide (alarmName = "refreshRotations"
                          \/ alarmName = "smartRefresh")
          then w' else w).
Proof.
  assert (forall alarmName,
            onAlarm w alarmName fetched now
            = if bool_decide (alarmName = "refreshRotations"
                              \/ alarmName = "smartRefresh")
              then (fetchAllData w fetched now).1 else w) as Halarm.
  { intros alarmName. unfold onAlarm.
    destruct (String.eqb_spec alarmName "refreshRotations") as [->|Hr].
    - cbn [orb]. rewrite bool_decide_eq_true_2; [done|by left].
    - destruct (String.eqb_spec alarmName "smartRefresh") as [->|Hs].
      + cbn [orb]. rewrite bool_decide_eq_true_2; [done|by right].
      + cbn [orb]. rewrite bool_decide_eq_false_2; [done|]. by intros [?|?]. }
  revert Halarm. unfold fetchAllData.
  destruct (fetchCycle w fetched now) as [w1|] eqn:E.
  - intros Halarm. split; [|split; [|split; [|split; [|split]]]]; try done.
    + intros _. unfold fetchCycle in E.
      destruct fetched as [|[] [apiData|]]; try done.
      destruct (processSalmonRunData apiData now); [|done].
      injection E as <-. by eexists.
    + unfold fetchCycle in E.
      destruct fetched as [|[] [apiData|]]; try done.
      destruct (processSalmonRunData apiData now); [|done].
      by injection E as <-.
    + unfold fetchCycle in E.
      destruct fetched as [|[] [apiData|]]; try done.
      destruct (processSalmonRunData apiData now); [|done].
      injection E as <-. by eexists.
    + intros _. apply fetchCycle_alarms in E as [rd ->].
      destruct (scheduleNextRefresh_cases rd now (alarms w)) as [[t ->]| ->].
      * left. unfold armed. rewrite lookup_insert_eq. by eexists.
      * right. unfold armed. rewrite lookup_insert_eq. by eexists.
  - unfold serveStale. destruct (rotationData (local w)) as [cached|] eqn:C.
    + destruct (isDataStillValid cached now); intros Halarm.
      * split; [|split; [|split; [|split; [|split]]]]; try done.
        -- cbn. exists []. by rewrite app_nil_r.
        -- intros _. right. unfold armed. cbn.
           rewrite lookup_insert_eq. by eexists.
      * split; [|split; [|split; [|split; [|split]]]]; try done.
        exists []. by rewrite app_nil_r.
    + intros Halarm.
      split; [|split; [|split; [|split; [|split]]]]; try done.
      exists []. by rewrite app_nil_r.
Qed.

End WorkerInvariants.

(** * Further properties of the notification differ *)

Section DifferProperties.

Lemma isNewRotation_same c : isNewRotation c c = false.
Proof.
  unfold isNewRotation. destruct c as [c|]; [|done].
  by rewrite bool_decide_eq_true_2.
Qed.

Lemma bind_all_nil {A B} (f : A -> list B) (l : list A) :
  (forall x, x ∈ l -> f x = []) -> l ≫= f = [].
Proof.
  induction l as [|x l IH]; intros Hnil; [done|].
  rewrite bind_cons, (Hnil x), IH; [done| |by left].
  intros y Hy. apply Hnil. by right.
Qed.

(** X7. The differ creates nothing when notifications are off globally,
    when the flags of the four modes are all off, and when the old
    snapshot is the new one: running it again on an unchanged snapshot
    never repeats a notification. *)
Theorem differ_is_silent_without_change_or_consent settings new old :
  (enableNotifications settings = false ->
   sendRotationNotifications settings new old = [])
  /\ (notifyRegular settings = false -> notifyAnarchy settings = false ->
      notifyXbattle settings = false -> notifySalmon settings = false ->
      sendRotationNotifications settings new old = [])
  /\ sendRotationNotifications settings new (Some new) = [].
Proof.
  split; [|split].
  - intros Hoff. unfold sendRotationNotifications. by rewrite Hoff.
  - intros Hr Ha Hx Hs. unfold sendRotationNotifications.
    destruct (enableNotifications settings); cbn [negb]; [|done].
    apply bind_all_nil. intros mi. unfold notifyModes.
    rewrite !elem_of_cons, elem_of_nil.
    intros [->|[->|[->|[->|[]]]]]; unfold notifyStep; cbn [mi_setting];
      unfold settingOf; cbn [String.eqb Ascii.eqb Bool.eqb];
      by rewrite ?Hr, ?Ha, ?Hx, ?Hs.
  - unfold sendRotationNotifications.
    destruct (enableNotifications settings); cbn [negb]; [|done].
    apply bind_all_nil. intros mi _. unfold notifyStep.
    cbn [mbind option_bind]. rewrite isNewRotation_same.
    by rewrite andb_false_r.
Qed.

Lemma notifyStep_keys settings new old mi :
  n_key <$> notifyStep settings new old mi = []
  \/ n_key <$> notifyStep settings new old mi = [key mi].
Proof.
  unfold notifyStep.
  destruct (settingOf _ _ && isNewRotation _ _); [|by left].
  destruct (modeOf new (key mi) ≫= current); [by right|by left].
Qed.

Lemma send_keys_sublist settings new old (l : list ModeInfo) :
  n_key <$> (l ≫= notifyStep settings new old) `sublist_of` key <$> l.
Proof.
  induction l as [|mi l IH]; [done|].
  rewrite bind_cons, fmap_app, fmap_cons.
  destruct (notifyStep_keys settings new old mi) as [-> | ->]; cbn [app].
  - by apply sublist_cons.
  - by apply sublist_skip.
Qed.

Lemma NoDup_fmap_elem_inj {A B} (f : A -> B) (l : list A) x y :
  NoDup (f <$> l) -> x ∈ l -> y ∈ l -> f x = f y -> x = y.
Proof.
  induction l as [|a l IH]; intros Hnd Hx Hy Hf; [by apply elem_of_nil in Hx|].
  rewrite fmap_cons in Hnd. apply NoDup_cons in Hnd as [Ha Hnd].
  apply elem_of_cons in Hx as [->|Hx]; apply elem_of_cons in Hy as [->|Hy].
  - done.
  - destruct Ha. rewrite Hf. apply list_elem_of_fmap. by exists y.
  - destruct Ha. rewrite <- Hf. apply list_elem_of_fmap. by exists x.
  - by apply IH.
Qed.

(** The id of a notification tells the mode it was made for. *)
Lemma notificationFor_id_key mi mj nc nd :
  mi ∈ notifyModes -> mj ∈ notifyModes ->
  notificationId (notificationFor mi nc) = notificationId (notificationFor mj nd) ->
  key mi = key mj.
Proof.
  unfold notifyModes. rewrite !elem_of_cons, !elem_of_nil.
  intros [->|[->|[->|[->|[]]]]] [->|[->|[->|[->|[]]]]]; cbn; try done;
    intros Heq; exfalso; discriminate Heq.
Qed.

(** X8. One run of the differ creates at most one notification per mode,
    hence at most four, and no two of them share an id. *)
Theorem differ_creates_one_notification_per_mode_at_most settings new old :
  NoDup (n_key <$> sendRotationNotifications settings new old)
  /\ (length (sendRotationNotifications settings new old) <= 4)%nat
  /\ NoDup (notificationId <$> sendRotationNotifications settings new old).
Proof.
  assert (n_key <$> sendRotationNotifications settings new old
          `sublist_of` key <$> notifyModes) as Hsub.
  { unfold sendRotationNotifications.
    destruct (enableNotifications settings); cbn [negb].
    - apply send_keys_sublist.
    - apply sublist_nil_l. }
  assert (NoDup (key <$> notifyModes)) as Hnd.
  { cbn. repeat (apply NoDup_cons; split;
                 [rewrite ?elem_of_cons, elem_of_nil; intros Hin;
                  repeat destruct Hin as [Hin|Hin]; done|]).
    apply NoDup_nil_2. }
  assert (NoDup (n_key <$> sendRotationNotifications settings new old))
    as Hkeys by (by eapply sublist_NoDup).
  split; [done|]. split.
  - apply sublist_length in Hsub. by rewrite !length_fmap in Hsub.
  - apply NoDup_fmap_2_strong; [|by eapply NoDup_fmap_1].
    intros n1 n2 H1 H2 Hid.
    apply (NoDup_fmap_elem_inj n_key _ _ _ Hkeys H1 H2).
    destruct (send_elem_notificationFor _ _ _ _ H1)
      as (mi & nc & Hmi & _ & -> & _).
    destruct (send_elem_notificationFor _ _ _ _ H2)
      as (mj & nd & Hmj & _ & -> & _).
    by apply (notificationFor_id_key mi mj nc nd).
Qed.

(** X9. A notification carries the Big Run title exactly when it was made
    for the Salmon Run mode and the new current shift is a Big Run; every
    other notification is titled after its mode. *)
Theorem big_run_title_iff_salmon_big_run settings new old n :
  n ∈ sendRotationNotifications settings new old ->
  (n_title n = "BIG RUN IS HERE!"
   <-> n_key n = "salmon"
       /\ exists nc b, currentOf (Some new) "salmon" = Some nc
            /\ payload nc = PSalmon b /\ isBigRun b = true)
  /\ (n_title n <> "BIG RUN IS HERE!" ->
      exists mi, mi ∈ notifyModes /\ n_key n = key mi
        /\ n_title n = "New " +:+ mi_name mi +:+ " Rotation!").
Proof.
  intros Hn.
  destruct (send_elem_notificationFor _ _ _ _ Hn)
    as (mi & nc & Hmi & Hnc & -> & _).
  unfold notificationFor. cbn [n_title n_key].
  destruct (String.eqb_spec (key mi) "salmon") as [Hk|Hk]; cbn [andb].
  - destruct (payload nc) as [m|m s o|a b c m|b] eqn:P; cbn [salmonOf].
    1-3: (split; [split; [done|]|intros _; by exists mi]);
         intros (_ & nc' & b' & Hnc' & Hp & _);
         rewrite Hk in Hnc; rewrite Hnc in Hnc'; injection Hnc' as <-;
         congruence.
    destruct (isBigRun b) eqn:B.
    + split; [|done]. split; [intros _|done]. split; [done|].
      exists nc, b. by rewrite <- Hk.
    + split; [split; [done|]|intros _; by exists mi].
      intros (_ & nc' & b' & Hnc' & Hp & Hb).
      rewrite Hk in Hnc. rewrite Hnc in Hnc'. injection Hnc' as <-.
      congruence.
  - split; [split; [done|by intros [? _]]|intros _; by exists mi].
Qed.

End DifferProperties.

(** * Further properties of the processor and of the install listener *)

Section ProcessorSoundness.
Context `{JSDate} `{JSArray}.





(** A rotation the Salmon Run scan found is the entry made for a shift
    of the feed. *)
Lemma salmonSchedules_elem coop unsorted r :
  salmonSchedules coop = Ok unsorted -> r ∈ unsorted ->
  exists (bigRun : bool) nodes schedule,
    iterNodes (if bigRun then bigRunSchedules coop
               else coop_regularSchedules coop) = Ok nodes
    /\ Some schedule ∈ nodes
    /\ truthy (coop_startTime schedule) = true
    /\ truthy (coop_endTime schedule) = true
    /\ salmonEntry bigRun schedule = Ok r.
Proof.
  unfold salmonSchedules.
  destruct (iterNodes (bigRunSchedules coop)) as [b|] eqn:B; [|done].
  destruct (salmonEntries true b) as [bs|] eqn:Eb; [|done].
  destruct (iterNodes (coop_regularSchedules coop)) as [rg|] eqn:R; [|done].
  destruct (salmonEntries false rg) as [rs|] eqn:Er; [|done].
  intros [= <-] [Hin|Hin]%elem_of_app.
  - destruct (salmonEntries_elem _ _ _ _ Eb Hin) as (schedule & ? & ? & ? & ?).
    by exists true, b, schedule.
  - destruct (salmonEntries_elem _ _ _ _ Er Hin) as (schedule & ? & ? & ? & ?).
    by exists false, rg, schedule.
Qed.


End ProcessorSoundness.

Section InstallListener.

Lemma storageSet_defaults_lookup store k :
  storageSet defaultSettings store !! k
  = if bool_decide (k ∈ defaultSettings.*1) then Some false else store !! k.
Proof.
  unfold storageSet, defaultSettings. cbn [foldr fst snd fmap list_fmap].
  rewrite !lookup_insert.
  case_bool_decide as Hin; rewrite !elem_of_cons, elem_of_nil in Hin;
    repeat case_decide; subst; try done; exfalso; intuition congruence.
Qed.

(** X11. The install listener leaves the stored settings alone on an
    update and whenever the store already has the global flag. On a fresh
    install it writes the five flags as off and touches no other key, so
    the differ stays silent until the user opts in. Running it twice is
    the same as running it once. *)
Theorem install_defaults_are_silent_and_keep_user_settings reason store :
  (reason <> "install" -> onInstalled reason store = store)
  /\ (is_Some (store !! "enableNotifications") ->
      onInstalled reason store = store)
  /\ (store !! "enableNotifications" = None ->
      (forall k, onInstalled "install" store !! k
                 = if bool_decide (k ∈ defaultSettings.*1)
                   then Some false else store !! k)
      /\ forall new old,
           sendRotationNotifications
             (readSettings (onInstalled "install" store)) new old = [])
  /\ onInstalled reason (onInstalled reason store) = onInstalled reason store.
Proof.
  assert (forall s : gmap string bool,
            s !! "enableNotifications" = None ->
            storageSet defaultSettings s !! "enableNotifications" = Some false)
    as Hwritten.
  { intros s _. rewrite storageSet_defaults_lookup.
    rewrite bool_decide_eq_true_2; [done|]. by left. }
  split; [|split; [|split]].
  - intros Hr. unfold onInstalled.
    by destruct (String.eqb_spec reason "install").
  - intros [b Hb]. unfold onInstalled. rewrite Hb.
    by destruct (String.eqb reason "install").
  - intros Hnone. unfold onInstalled. cbn [String.eqb Ascii.eqb Bool.eqb].
    rewrite Hnone. split; [apply storageSet_defaults_lookup|].
    intros new old. unfold sendRotationNotifications, readSettings.
    cbn [enableNotifications]. by rewrite Hwritten.
  - unfold onInstalled. destruct (String.eqb reason "install"); [|done].
    destruct (store !! "enableNotifications") as [b|] eqn:E.
    + by rewrite E.
    + by rewrite Hwritten.
Qed.

End InstallListener.

(** * Properties of the stage ids *)

Section StageIdSteps.

Lemma replaceEach_Forall (P : N -> Prop) class r s :
  Forall P r -> Forall P s -> Forall P (replaceEach class r s).
Proof.
  intros Hr Hs. unfold replaceEach. apply Forall_bind.
  eapply Forall_impl; [exact Hs|]. intros c Hc. unfold compose.
  destruct (class c); [done|by constructor].
Qed.

Lemma replaceEach_removes class r s :
  Forall (fun c => class c = false) r ->
  Forall (fun c => class c = false) (replaceEach class r s).
Proof.
  intros Hr. unfold replaceEach. apply Forall_bind, Forall_forall.
  intros c _. unfold compose.
  destruct (class c) eqn:E; [done|by constructor].
Qed.

Lemma replaceEach_id class r s :
  Forall (fun c => class c = false) s -> replaceEach class r s = s.
Proof.
  unfold replaceEach. induction 1 as [|c s Hc Hs IH]; [done|].
  rewrite bind_cons, Hc, IH. done.
Qed.

Lemma replaceRuns_Forall (P : N -> Prop) class r b s :
  Forall P r -> Forall P s -> Forall P (replaceRuns class r b s).
Proof.
  intros Hr Hs. revert b. induction Hs as [|c s Hc Hs IH]; intros b; [done|].
  cbn [replaceRuns]. destruct (class c).
  - destruct b; [apply IH|]. apply Forall_app. split; [done|apply IH].
  - constructor; [done|apply IH].
Qed.

Lemma replaceRuns_removes class r b s :
  Forall (fun c => class c = false) r ->
  Forall (fun c => class c = false) (replaceRuns class r b s).
Proof.
  intros Hr. revert b. induction s as [|c s IH]; intros b; [done|].
  cbn [replaceRuns]. destruct (class c) eqn:E.
  - destruct b; [apply IH|]. apply Forall_app. split; [done|apply IH].
  - constructor; [done|apply IH].
Qed.

Lemma replaceRuns_id class r b s :
  Forall (fun c => class c = false) s -> replaceRuns class r b s = s.
Proof.
  intros Hs. revert b. induction Hs as [|c s Hc Hs IH]; intros b; [done|].
  cbn [replaceRuns]. by rewrite Hc, IH.
Qed.

Lemma dropLastUnderscore_Forall (P : N -> Prop) s :
  Forall P s -> Forall P (dropLastUnderscore s).
Proof.
  induction 1 as [|c s Hc Hs IH]; [done|]. cbn [dropLastUnderscore].
  destruct s as [|d s]; [destruct (isUnderscore c); by repeat constructor|].
  by constructor.
Qed.

Lemma stripEdges_Forall (P : N -> Prop) s :
  Forall P s -> Forall P (stripEdges s).
Proof.
  intros Hs. unfold stripEdges. apply dropLastUnderscore_Forall.
  destruct Hs as [|c s Hc Hs]; [done|].
  destruct (isUnderscore c); [done|by constructor].
Qed.

Lemma noDoubleUnderscore_cons a b s :
  noDoubleUnderscore (a :: b :: s)
  = negb (isUnderscore a && isUnderscore b) && noDoubleUnderscore (b :: s).
Proof. done. Qed.

(** Collapsing the runs of underscores leaves no two in a row, and none
    in front when the code unit before was one. *)
Lemma collapse_noDouble b s :
  noDoubleUnderscore (replaceRuns isUnderscore (units "_") b s) = true
  /\ (b = true ->
      match replaceRuns isUnderscore (units "_") b s with
      | c :: _ => isUnderscore c = false
      | [] => True
      end).
Proof.
  revert b. induction s as [|c s IH]; intros b; [done|].
  cbn [replaceRuns]. destruct (isUnderscore c) eqn:E.
  - destruct b; [apply IH|]. split; [|done].
    destruct (IH true) as [Hnd Hhead]. specialize (Hhead eq_refl).
    change (units "_" ++ ?l)%list with (95%N :: l).
    destruct (replaceRuns isUnderscore (units "_") true s) as [|d rest];
      [done|]. rewrite noDoubleUnderscore_cons, Hhead, Hnd.
    by rewrite andb_false_r.
  - split; [|done]. destruct (IH false) as [Hnd _].
    destruct (replaceRuns isUnderscore (units "_") false s) as [|d rest];
      [done|]. by rewrite noDoubleUnderscore_cons, E, Hnd.
Qed.

Lemma collapse_id b s :
  noDoubleUnderscore s = true ->
  (b = true -> match s with c :: _ => isUnderscore c = false | [] => True end) ->
  replaceRuns isUnderscore (units "_") b s = s.
Proof.
  revert b. induction s as [|c s IH]; intros b Hnd Hhead; [done|].
  cbn [replaceRuns].
  assert (noDoubleUnderscore s = true
          /\ (isUnderscore c = true ->
              match s with d :: _ => isUnderscore d = false | [] => True end))
    as [Hnd' Hnext].
  { destruct s as [|d s]; [done|]. rewrite noDoubleUnderscore_cons in Hnd.
    apply andb_true_iff in Hnd as [Hcd Hnd']. split; [done|].
    intros Hc. rewrite Hc in Hcd. by destruct (isUnderscore d). }
  destruct (isUnderscore c) eqn:E.
  - destruct b; [by specialize (Hhead eq_refl)|].
    rewrite IH; [|done|intros _; by apply Hnext].
    unfold isUnderscore, isOneOf in E. cbn in E.
    rewrite orb_false_r in E. apply N.eqb_eq in E. by subst.
  - by rewrite IH.
Qed.

Lemma noDoubleUnderscore_tail c s :
  noDoubleUnderscore (c :: s) = true ->
  noDoubleUnderscore s = true
  /\ (isUnderscore c = true ->
      match s with d :: _ => isUnderscore d = false | [] => True end).
Proof.
  destruct s as [|d s]; [done|]. rewrite noDoubleUnderscore_cons.
  intros [Hcd Hnd]%andb_true_iff. split; [done|].
  intros Hc. rewrite Hc in Hcd. by destruct (isUnderscore d).
Qed.

Lemma dropLastUnderscore_noDouble s :
  noDoubleUnderscore s = true ->
  noDoubleUnderscore (dropLastUnderscore s) = true.
Proof.
  induction s as [|c s IH]; [done|]. intros Hnd.
  destruct (noDoubleUnderscore_tail _ _ Hnd) as [Hnd' _].
  cbn [dropLastUnderscore]. destruct s as [|d s];
    [by destruct (isUnderscore c)|].
  specialize (IH Hnd'). rewrite noDoubleUnderscore_cons in Hnd.
  apply andb_true_iff in Hnd as [Hcd _].
  destruct (dropLastUnderscore (d :: s)) as [|e rest] eqn:D; [done|].
  assert (e = d) as ->.
  { cbn [dropLastUnderscore] in D. destruct s; [|by injection D].
    destruct (isUnderscore d); [done|by injection D]. }
  by rewrite noDoubleUnderscore_cons, Hcd, IH.
Qed.

Lemma dropLastUnderscore_last s :
  noDoubleUnderscore s = true ->
  match last (dropLastUnderscore s) with
  | Some c => isUnderscore c = false
  | None => True
  end.
Proof.
  induction s as [|c s IH]; [done|]. intros Hnd.
  destruct (noDoubleUnderscore_tail _ _ Hnd) as [Hnd' Hnext].
  cbn [dropLastUnderscore]. destruct s as [|d s].
  - by destruct (isUnderscore c) eqn:E; cbn.
  - specialize (IH Hnd').
    destruct (dropLastUnderscore (d :: s)) as [|e rest] eqn:D.
    + cbn. cbn [dropLastUnderscore] in D. destruct s; [|done].
      destruct (isUnderscore d) eqn:Ed; [|done].
      destruct (isUnderscore c) eqn:Ec; [|done].
      specialize (Hnext eq_refl). cbn in Hnext. congruence.
    + by rewrite last_cons_cons.
Qed.

Lemma dropLastUnderscore_head c s :
  isUnderscore c = false ->
  exists rest, dropLastUnderscore (c :: s) = c :: rest.
Proof.
  intros Hc. cbn [dropLastUnderscore]. destruct s; [|by eexists].
  rewrite Hc. by eexists.
Qed.

Lemma stripEdges_safe s :
  noDoubleUnderscore s = true ->
  noDoubleUnderscore (stripEdges s) = true
  /\ noEdgeUnderscore (stripEdges s) = true.
Proof.
  intros Hnd. unfold stripEdges.
  assert (exists s', match s with
                     | c :: rest => if isUnderscore c then rest else s
                     | [] => []
                     end = s'
                     /\ noDoubleUnderscore s' = true
                     /\ match s' with
                        | c :: _ => isUnderscore c = false
                        | [] => True
                        end) as (s' & -> & Hnd' & Hhead).
  { destruct s as [|c rest]; [by exists []|].
    destruct (noDoubleUnderscore_tail _ _ Hnd) as [Hr Hnext].
    destruct (isUnderscore c) eqn:E; eexists; (split; [reflexivity|]).
    - split; [done|by apply Hnext].
    - by split. }
  split; [by apply dropLastUnderscore_noDouble|].
  unfold noEdgeUnderscore. apply andb_true_iff. split.
  - destruct s' as [|c rest]; [done|].
    destruct (dropLastUnderscore_head c rest Hhead) as [r ->].
    by rewrite Hhead.
  - pose proof (dropLastUnderscore_last s' Hnd') as Hlast.
    destruct (last (dropLastUnderscore s')) as [c|]; [|done].
    by rewrite Hlast.
Qed.

Lemma dropLastUnderscore_id s :
  match last s with Some c => isUnderscore c = false | None => True end ->
  dropLastUnderscore s = s.
Proof.
  induction s as [|c s IH]; [done|]. cbn [dropLastUnderscore].
  destruct s as [|d s]; [cbn; by intros ->|].
  rewrite last_cons_cons. intros Hl. by rewrite IH.
Qed.

Lemma stripEdges_id s :
  noEdgeUnderscore s = true -> stripEdges s = s.
Proof.
  unfold noEdgeUnderscore, stripEdges. intros [Hh Hl]%andb_true_iff.
  assert (match s with
          | c :: rest => if isUnderscore c then rest else s
          | [] => []
          end = s) as ->.
  { destruct s as [|c rest]; [done|]. by apply negb_true_iff in Hh as ->. }
  apply dropLastUnderscore_id. destruct (last s); [|done].
  by apply negb_true_iff.
Qed.

Lemma trimStart_id s :
  Forall (fun c => isWhiteSpace c = false) s -> trimStart s = s.
Proof. intros Hs. destruct Hs as [|c s Hc Hs]; [done|]. cbn. by rewrite Hc. Qed.

Lemma trim_id s :
  Forall (fun c => isWhiteSpace c = false) s -> trim s = s.
Proof.
  intros Hs. unfold trim. rewrite (trimStart_id s Hs).
  rewrite trimStart_id by (by apply Forall_reverse).
  apply reverse_involutive.
Qed.

Lemma isSpecial_false c :
  isSpecial c = false
  <-> isWhiteSpace c = false /\ isApostrophe c = false
      /\ isAmpersand c = false /\ isPunctuation c = false
      /\ isDash c = false.
Proof. unfold isSpecial. rewrite !orb_false_iff. tauto. Qed.

Lemma safeId_spec s :
  safeId s = true
  <-> Forall (fun c => isSpecial c = false) s
      /\ noDoubleUnderscore s = true /\ noEdgeUnderscore s = true.
Proof.
  unfold safeId. rewrite !andb_true_iff, forallb_forall, Forall_forall.
  split.
  - intros [[Hall Hnd] Hne]. split; [|done].
    intros c Hc. apply negb_true_iff, Hall. by apply list_elem_of_In.
  - intros (Hall & Hnd & Hne). split; [|done]. split; [|done].
    intros c Hc. apply negb_true_iff, Hall. by apply list_elem_of_In.
Qed.

Lemma ownProperty_value table key v :
  ownProperty table key = Some v -> v ∈ tableValues table.
Proof.
  induction table as [|[k w] table IH]; [done|]. cbn [ownProperty].
  case_decide.
  - intros [= <-]. apply list_elem_of_here.
  - intros Hv. apply list_elem_of_further. by apply IH.
Qed.

Lemma returned_Id table key s :
  returned (objectGet table key) = Some (Id s) -> s ∈ tableValues table.
Proof.
  unfold objectGet. destruct (ownProperty table key) as [v|] eqn:E.
  - destruct v as [|c v]; [done|]. intros [= <-].
    by eapply ownProperty_value.
  - by case_bool_decide.
Qed.

Lemma returned_NotAString table key :
  returned (objectGet table key) = Some NotAString ->
  key ∈ units <$> objectPrototypeKeys.
Proof.
  unfold objectGet. destruct (ownProperty table key) as [v|] eqn:E.
  - by destruct v.
  - by case_bool_decide.
Qed.

Lemma tableValues_safe :
  Forall (fun v => safeId v = true)
         (tableValues stageIdMapping ++ tableValues stageIdOverrides).
Proof. repeat constructor. Qed.

Lemma prototype_keys_not_mapped :
  Forall (fun k => ownProperty stageIdMapping (units k) = None)
         objectPrototypeKeys.
Proof. repeat constructor. Qed.

Lemma replaceRuns_Forall_iff (Q : N -> Prop) class r b s :
  Forall Q r ->
  Forall Q (replaceRuns class r b s)
  <-> Forall (fun c => class c = true \/ Q c) s.
Proof.
  intros Hr. revert b. induction s as [|c s IH]; intros b; [done|].
  cbn [replaceRuns]. rewrite Forall_cons. destruct (class c) eqn:E.
  - destruct b; [|rewrite Forall_app]; rewrite IH; intuition.
  - rewrite Forall_cons, IH. intuition congruence.
Qed.

Lemma replaceEach_Forall_iff (Q : N -> Prop) class r s :
  Forall Q (replaceEach class r s)
  <-> Forall (fun c => if class c then Forall Q r else Q c) s.
Proof.
  unfold replaceEach. rewrite Forall_bind. apply Forall_proper; [|done].
  intros c. unfold compose. destruct (class c); [done|].
  by rewrite Forall_singleton.
Qed.

Lemma trimStart_Forall_iff (Q : N -> Prop) s :
  (forall c, isWhiteSpace c = true -> Q c) ->
  Forall Q (trimStart s) <-> Forall Q s.
Proof.
  intros HQ. induction s as [|c s IH]; [done|]. cbn [trimStart].
  destruct (isWhiteSpace c) eqn:E; [|done].
  rewrite IH, Forall_cons. specialize (HQ c E). tauto.
Qed.

Lemma trim_Forall_iff (Q : N -> Prop) s :
  (forall c, isWhiteSpace c = true -> Q c) ->
  Forall Q (trim s) <-> Forall Q s.
Proof.
  intros HQ. unfold trim.
  by rewrite Forall_reverse, trimStart_Forall_iff, Forall_reverse,
    trimStart_Forall_iff.
Qed.

Lemma trim_Forall (Q : N -> Prop) s : Forall Q s -> Forall Q (trim s).
Proof.
  assert (forall l, Forall Q l -> Forall Q (trimStart l)) as Hts.
  { induction 1 as [|c l Hc Hl IH]; [done|]. cbn [trimStart].
    destruct (isWhiteSpace c); [done|by constructor]. }
  intros Hs. unfold trim. by apply Forall_reverse, Hts, Forall_reverse, Hts.
Qed.

Lemma stripEdges_nil s :
  stripEdges s = [] -> Forall (fun c => isUnderscore c = true) s.
Proof.
  assert (forall l, dropLastUnderscore l = [] ->
                    Forall (fun c => isUnderscore c = true) l) as Hd.
  { intros [|c [|d l]]; [done| |done]. cbn [dropLastUnderscore].
    destruct (isUnderscore c) eqn:E; [by repeat constructor|done]. }
  unfold stripEdges. destruct s as [|c rest]; [done|].
  destruct (isUnderscore c) eqn:E.
  - intros Hr. constructor; [done|by apply Hd].
  - apply Hd.
Qed.

Lemma stripEdges_underscores s :
  noDoubleUnderscore s = true ->
  Forall (fun c => isUnderscore c = true) s -> stripEdges s = [].
Proof.
  intros Hnd Hs. destruct Hs as [|c s Hc Hs]; [done|].
  unfold stripEdges. rewrite Hc. destruct Hs as [|d s Hd Hs]; [done|].
  rewrite noDoubleUnderscore_cons, Hc, Hd in Hnd. done.
Qed.

Lemma isOneOf_elem cs c : isOneOf cs c = true <-> c ∈ cs.
Proof.
  unfold isOneOf. rewrite existsb_exists. split.
  - intros (x & Hx & ->%N.eqb_eq). by apply list_elem_of_In.
  - intros Hc. exists c. split; [by apply list_elem_of_In|apply N.eqb_refl].
Qed.

Ltac class_gone :=
  repeat first
    [ apply stripEdges_Forall
    | apply replaceEach_removes; by repeat constructor
    | apply replaceRuns_removes; by repeat constructor
    | apply replaceEach_Forall; [by repeat constructor|]
    | apply replaceRuns_Forall; [by repeat constructor|] ].

(** The steps of [normalizeStageId] after [trim] give a safe id on every
    string. *)
Lemma normalized_steps_safe s0 :
  safeId
    (stripEdges
       (replaceRuns isUnderscore (units "_") false
          (replaceRuns isWhiteSpace (units "_") false
             (replaceEach isDash (units "_")
                (replaceEach isPunctuation []
                   (replaceEach isAmpersand (units "and")
                      (replaceEach isApostrophe [] s0)))))))
  = true.
Proof.
  apply safeId_spec. split; [|apply stripEdges_safe, collapse_noDouble].
  assert (forall P Q : N -> Prop, forall s, Forall P s -> Forall Q s ->
            Forall (fun c => P c /\ Q c) s) as Hand.
  { intros P Q s HP HQ. rewrite Forall_forall in *. naive_solver. }
  eapply Forall_impl.
  - apply Hand; [|apply Hand; [|apply Hand; [|apply Hand]]].
    1: instantiate (1 := fun c => isWhiteSpace c = false).
    2: instantiate (1 := fun c => isApostrophe c = false).
    3: instantiate (1 := fun c => isAmpersand c = false).
    4: instantiate (1 := fun c => isPunctuation c = false).
    5: instantiate (1 := fun c => isDash c = false).
    all: cbv beta; class_gone.
  - intros d. cbv beta. rewrite isSpecial_false. tauto.
Qed.

End StageIdSteps.

Section StageIdProperties.
Context `{JSString}.

(** X12. Whatever the name and whatever [toLowerCase] gives, the id
    [normalizeStageId] returns holds no white space, apostrophe,
    ampersand, punctuation mark or dash, no two underscores in a row and
    no underscore at either end. *)
Theorem normalizeStageId_is_safe name :
  safeId (normalizeStageId name) = true.
Proof.
  destruct name as [[|c l]|]; [done| |done].
  unfold normalizeStageId. apply normalized_steps_safe.
Qed.

(** X13. [normalizeStageId] returns the empty string exactly for a name
    that is not empty and whose lower-cased code units are all white
    space, apostrophes, punctuation marks, dashes or underscores; the
    [unknown_stage] default only covers the missing and the empty name. *)
Theorem normalizeStageId_empty_iff name :
  normalizeStageId name = []
  <-> exists n, name = Some n /\ n <> []
        /\ Forall (fun c => isDropped c = true) (toLowerCase n).
Proof.
  destruct name as [[|c l]|].
  - split; [done|]. by intros (n & [= <-] & ? & _).
  - unfold normalizeStageId.
    set (s0 := toLowerCase (c :: l)).
    pose proof (collapse_noDouble false
      (replaceRuns isWhiteSpace (units "_") false
         (replaceEach isDash (units "_")
            (replaceEach isPunctuation []
               (replaceEach isAmpersand (units "and")
                  (replaceEach isApostrophe [] (trim s0))))))) as [Hnd _].
    assert (Forall (fun c => isUnderscore c = true)
              (replaceRuns isUnderscore (units "_") false
                 (replaceRuns isWhiteSpace (units "_") false
                    (replaceEach isDash (units "_")
                       (replaceEach isPunctuation []
                          (replaceEach isAmpersand (units "and")
                             (replaceEach isApostrophe [] (trim s0)))))))
            <-> Forall (fun c => isDropped c = true) s0) as Hiff.
    { rewrite !replaceRuns_Forall_iff by (by repeat constructor).
      rewrite !replaceEach_Forall_iff.
      rewrite <- (trim_Forall_iff (fun c => isDropped c = true) s0).
      2: { intros d Hd. unfold isDropped. by rewrite Hd. }
      - apply Forall_proper; [|done]. intros d. unfold isDropped.
        destruct (isApostrophe d) eqn:E1.
        { rewrite orb_true_r. cbn. split; [done|by constructor]. }
        destruct (isAmpersand d) eqn:E2.
        { apply isOneOf_elem, list_elem_of_singleton in E2 as ->.
          split; [|done]. intros Hand. apply Forall_cons in Hand as [Ha _].
          cbv in Ha. intuition congruence. }
        destruct (isPunctuation d) eqn:E3.
        { rewrite orb_true_r. cbn. split; [done|by constructor]. }
        destruct (isDash d) eqn:E4.
        { rewrite orb_true_r. cbn. split; [done|].
          intros _. constructor; [right; left; reflexivity|constructor]. }
        rewrite !orb_false_r.
        destruct (isWhiteSpace d), (isUnderscore d); cbn; intuition congruence. }
    split.
    + intros Hs%stripEdges_nil. exists (c :: l).
      split; [done|]. split; [done|]. by apply Hiff.
    + intros (n & [= <-] & _ & Hn). apply stripEdges_underscores; [done|].
      by apply Hiff.
  - split; [done|]. by intros (n & [=] & _).
Qed.

(** X14. An id that is already safe and in lower case is left as it is,
    the empty one apart, which becomes [unknown_stage]: normalising a
    second time changes nothing but the empty id. *)
Theorem normalizeStageId_fixes_safe_ids s :
  safeId s = true -> toLowerCase s = s ->
  normalizeStageId (Some s) = if decide (s = []) then units "unknown_stage" else s.
Proof.
  intros (Hall & Hnd & Hne)%safeId_spec Hlow.
  destruct s as [|c l]; [done|]. rewrite decide_False by done.
  unfold normalizeStageId. rewrite Hlow.
  assert (forall cls : N -> bool,
            (forall d, isSpecial d = false -> cls d = false) ->
            Forall (fun d => cls d = false) (c :: l)) as Hcls.
  { intros cls Hc. eapply Forall_impl; [exact Hall|]. intros d. apply Hc. }
  rewrite trim_id by (apply Hcls; intros d; rewrite isSpecial_false; tauto).
  rewrite (replaceEach_id isApostrophe)
    by (apply Hcls; intros d; rewrite isSpecial_false; tauto).
  rewrite (replaceEach_id isAmpersand)
    by (apply Hcls; intros d; rewrite isSpecial_false; tauto).
  rewrite (replaceEach_id isPunctuation)
    by (apply Hcls; intros d; rewrite isSpecial_false; tauto).
  rewrite (replaceEach_id isDash)
    by (apply Hcls; intros d; rewrite isSpecial_false; tauto).
  rewrite (replaceRuns_id isWhiteSpace)
    by (apply Hcls; intros d; rewrite isSpecial_false; tauto).
  rewrite collapse_id by done.
  by apply stripEdges_id.
Qed.

(** X15. A string [getStageId] returns is the normalised id of the name
    or a value of one of the two tables, and it is a safe id in each
    case. *)
Theorem getStageId_gives_a_table_value_or_the_normalized_id name s :
  getStageId name = Id s ->
  (s = normalizeStageId name
   \/ s ∈ tableValues stageIdMapping \/ s ∈ tableValues stageIdOverrides)
  /\ safeId s = true.
Proof.
  intros Hs.
  assert (s = normalizeStageId name
          \/ s ∈ tableValues stageIdMapping
          \/ s ∈ tableValues stageIdOverrides) as Hor.
  { destruct name as [[|c l]|]; [left; by injection Hs| |left; by injection Hs].
    unfold getStageId in Hs.
    destruct (returned (objectGet stageIdMapping _)) as [r|] eqn:R1.
    { subst r. right; left. by eapply returned_Id. }
    destruct (returned (objectGet stageIdOverrides _)) as [r|] eqn:R2.
    { subst r. right; right. by eapply returned_Id. }
    destruct (omap _ _) as [|r rest] eqn:R3; [left; by injection Hs|].
    subst r. right; left.
    assert (Id s ∈ Id s :: rest) as Hin by apply list_elem_of_here.
    rewrite <- R3 in Hin. apply list_elem_of_omap in Hin as (v & _ & Hv).
    by eapply returned_Id. }
  split; [done|]. destruct Hor as [->|Hor].
  { destruct name as [[|c l]|]; [done| |done].
    unfold normalizeStageId. apply normalized_steps_safe. }
  pose proof tableValues_safe as Hsafe. rewrite Forall_forall in Hsafe.
  apply Hsafe, elem_of_app. tauto.
Qed.

(** X16. [getStageId] returns something that is not a string only when
    one of the keys it looks up, the lower-cased name, the normalised id
    or a variation, names a property the tables inherit from
    [Object.prototype]. *)
Theorem getStageId_not_a_string_only_for_inherited_keys name :
  getStageId name = NotAString ->
  exists n key, name = Some n /\ n <> []
    /\ key ∈ lookedUp n /\ key ∈ units <$> objectPrototypeKeys.
Proof.
  destruct name as [[|c l]|]; [done| |done]. intros Hs.
  exists (c :: l). unfold getStageId in Hs. unfold lookedUp.
  destruct (returned (objectGet stageIdMapping _)) as [r|] eqn:R1.
  { subst r. eexists. split; [done|]. split; [done|].
    split; [apply list_elem_of_here|by eapply returned_NotAString]. }
  destruct (returned (objectGet stageIdOverrides _)) as [r|] eqn:R2.
  { subst r. eexists. split; [done|]. split; [done|].
    split; [|by eapply returned_NotAString].
    apply list_elem_of_further, list_elem_of_here. }
  destruct (omap _ _) as [|r rest] eqn:R3; [done|]. subst r.
  assert (NotAString ∈ NotAString :: rest) as Hin by apply list_elem_of_here.
  rewrite <- R3 in Hin. apply list_elem_of_omap in Hin as (v & Hv & Hr).
  exists v. split; [done|]. split; [done|].
  split; [|by eapply returned_NotAString].
  by do 2 apply list_elem_of_further.
Qed.

(** X17. For a name whose trimmed lower case is the name of a property of
    [Object.prototype], [getStageId] returns that inherited property and
    not a string. *)
Theorem getStageId_returns_an_inherited_property n :
  n <> [] ->
  trim (toLowerCase n) ∈ units <$> objectPrototypeKeys ->
  getStageId (Some n) = NotAString.
Proof.
  intros Hn Hkey. destruct n as [|c l]; [done|].
  unfold getStageId.
  apply list_elem_of_fmap in Hkey as (k & Hk & Hin).
  pose proof prototype_keys_not_mapped as Hnot.
  rewrite Forall_forall in Hnot. specialize (Hnot k Hin).
  unfold objectGet. rewrite Hk, Hnot.
  rewrite bool_decide_eq_true_2; [done|]. by apply list_elem_of_fmap_2.
Qed.

End StageIdProperties.

(** * Properties of the placeholder data *)

Section Placeholders.
Context `{JSDate} `{JSArray}.

Lemma roundTrips_truthy t :
  roundTrips t ->
  truthy (Some (Date_toISOString t)) = true
  /\ msOf (Some (Date_toISOString t)) = Some t.
Proof.
  intros [Hne Hget]. split; [|done]. cbn.
  apply negb_true_iff. by apply String.eqb_neq.
Qed.

Lemma placeholder_wake_bound rd now c :
  0 <= now ->
  modeOf rd "regular" ≫= current = Some c ->
  truthy (endTime c) = true ->
  msOf (endTime c) = Some (now + 2 * 60 * 60 * 1000) ->
  forall al, exists time,
    scheduleNextRefresh rd now al !! "smartRefresh" = Some (When time)
    /\ now < time <= now + 2 * 60 * 60 * 1000 + 60000.
Proof.
  intros Hnow Hc Ht Hms al.
  pose proof (refreshLoop_inv rd now refreshModes [] None Hnow eq_refl) as Hinv.
  cbn [app] in Hinv.
  assert (now + 2 * 60 * 60 * 1000 + 60000
          ∈ futureCandidates rd now refreshModes) as Hcand.
  { unfold futureCandidates. apply list_elem_of_filter. split; [lia|].
    apply list_elem_of_omap. exists "regular". split; [left|].
    unfold wakeCandidate. by rewrite Hc, Ht, Hms. }
  unfold scheduleNextRefresh.
  destruct (fold_left (refreshStep rd now) refreshModes None) as [time|].
  - cbn [refreshInv] in Hinv. destruct Hinv as [Hin Hmin].
    apply list_elem_of_filter in Hin as [Hlt _].
    specialize (Hmin _ Hcand).
    assert (numTruthy (Some time) = true) as ->.
    { cbn. apply negb_true_iff, Z.eqb_neq. lia. }
    exists time. rewrite lookup_insert_eq. split; [done|lia].
  - cbn [refreshInv] in Hinv. rewrite Hinv in Hcand.
    by apply elem_of_nil in Hcand.
Qed.

(** X18. When the processor rejects the feed and the three dates of the
    placeholder are written and read back as they are, the snapshot a
    completed cycle stores shows for the regular, anarchy and X modes a
    current rotation that contains now and ends two hours later, and a
    next one that starts after now. The cycle arms [smartRefresh] at most
    two hours and one minute after now: the worker does not fall back to
    the thirty-minute alarm while the placeholders are shown. *)
Theorem rejected_feed_placeholders_hold_for_two_hours w response now w' :
  0 <= now ->
  Forall roundTrips (placeholderInstants now) ->
  processRotationData response now = None ->
  fetchCycle w (Response true (Some response)) now = Ok w' ->
  exists rd, rotationData (local w') = Some rd
    /\ (forall mode, mode ∈ ["regular"; "anarchy"; "xbattle"] ->
          exists c n,
            modeOf rd mode = Some {| current := Some c; next := Some n |}
            /\ spansNow now c = true /\ startsAfter now n = true
            /\ msOf (endTime c) = Some (now + 2 * 60 * 60 * 1000))
    /\ exists time,
         alarms w' !! "smartRefresh" = Some (When time)
         /\ now < time <= now + 2 * 60 * 60 * 1000 + 60000.
Proof.
  intros Hnow Hdates Hnone. unfold fetchCycle. rewrite Hnone. cbn [default].
  destruct (processSalmonRunData response now) as [salmonData|]; [|done].
  intros [= <-]. eexists. split; [reflexivity|].
  apply Forall_cons in Hdates as [[H0t H0m]%roundTrips_truthy Hdates].
  apply Forall_cons in Hdates as [[H2t H2m]%roundTrips_truthy Hdates].
  apply Forall_cons in Hdates as [[H4t H4m]%roundTrips_truthy _].
  assert (forall rn sn rn' sn',
            spansNow now (testRot (Date_toISOString now)
                            (Date_toISOString (now + 2 * 60 * 60 * 1000)) rn sn)
            = true
            /\ startsAfter now
                 (testRot (Date_toISOString (now + 2 * 60 * 60 * 1000))
                    (Date_toISOString (now + 4 * 60 * 60 * 1000)) rn' sn')
               = true) as Hrots.
  { intros rn sn rn' sn'. unfold spansNow, startsAfter, spans, testRot.
    cbn [startTime endTime]. rewrite H0t, H2t, H4t, H0m, H2m.
    cbn [andb num_le num_gt num_lt]. split.
    - apply andb_true_iff. split; [apply Z.leb_le|apply Z.ltb_lt]; lia.
    - apply Z.ltb_lt. lia. }
  split.
  - intros mode. rewrite !elem_of_cons, elem_of_nil.
    intros [->|[->|[->|[]]]]; eexists _, _;
      (split; [reflexivity|]);
      (split; [apply (Hrots _ _ EmptyString [])|]);
      (split; [apply (Hrots EmptyString [] _ _)|exact H2m]).
  - cbn [alarms]. eapply placeholder_wake_bound; [done|reflexivity|..].
    + exact H2t.
    + exact H2m.
Qed.

End Placeholders.

(** * Properties of the popup's countdowns *)

Section CountdownText.

Lemma append_cons c a b : String c a +:+ b = String c (a +:+ b).
Proof. done. Qed.

Lemma append_assoc a b c : (a +:+ b) +:+ c = a +:+ b +:+ c.
Proof.
  induction a as [|x a IH]; [done|]. by rewrite !append_cons, IH.
Qed.

Lemma allDigits_app a b : allDigits (a +:+ b) = allDigits a && allDigits b.
Proof.
  induction a as [|c a IH]; [done|].
  change (String c a +:+ b) with (String c (a +:+ b)).
  cbn [allDigits]. by rewrite IH, andb_assoc.
Qed.

Lemma pretty_N_char_digit x : isDigit (pretty_N_char x) = true.
Proof. unfold pretty_N_char. by repeat case_match. Qed.

Lemma pretty_N_go_digits x s :
  exists d, pretty_N_go x s = d +:+ s /\ allDigits d = true.
Proof.
  revert s. induction (N.lt_wf_0 x) as [x _ IH]; intros s.
  destruct (decide (x = 0%N)) as [->|Hx].
  - exists EmptyString. by rewrite pretty_N_go_0.
  - rewrite pretty_N_go_step by lia.
    destruct (IH (x `div` 10)%N
                 (N.div_lt x 10 ltac:(lia) ltac:(lia))
                 (String (pretty_N_char (x `mod` 10)) s)) as (d & -> & Hd).
    exists (d +:+ String (pretty_N_char (x `mod` 10)) EmptyString). split.
    + by rewrite append_assoc.
    + rewrite allDigits_app, Hd. cbn. by rewrite pretty_N_char_digit.
Qed.

Lemma pretty_Z_digits z : 0 <= z -> allDigits (pretty z) = true.
Proof.
  destruct z as [|p|p]; [done| |lia]. intros _.
  unfold pretty, pretty_Z, pretty, pretty_positive, pretty, pretty_N.
  rewrite decide_False by done.
  destruct (pretty_N_go_digits (N.pos p) EmptyString) as (d & -> & Hd).
  by rewrite allDigits_app, Hd.
Qed.

(** Two texts that start with digits and go on with another character
    agree on the digits, on that character and on the rest. *)
Lemma digits_prefix_inj a a' c c' r r' :
  allDigits a = true -> allDigits a' = true ->
  isDigit c = false -> isDigit c' = false ->
  a +:+ String c r = a' +:+ String c' r' ->
  a = a' /\ c = c' /\ r = r'.
Proof.
  intros Ha Ha' Hc Hc'. revert a' Ha'.
  induction a as [|x a IH]; intros [|x' a'] Ha'; cbn.
  - by intros [= -> ->].
  - intros [= -> _]. cbn in Ha'. by rewrite Hc in Ha'.
  - intros [= -> _]. cbn in Ha. by rewrite Hc' in Ha.
  - cbn in Ha, Ha'. apply andb_true_iff in Ha as [_ Ha].
    apply andb_true_iff in Ha' as [_ Ha'].
    intros [= -> Heq]. destruct (IH Ha a' Ha' Heq) as (-> & -> & ->). done.
Qed.

Lemma pretty_suffix_inj x y c c' r r' :
  0 <= x -> 0 <= y -> isDigit c = false -> isDigit c' = false ->
  pretty x +:+ String c r = pretty y +:+ String c' r' ->
  x = y /\ c = c' /\ r = r'.
Proof.
  intros Hx Hy Hc Hc' Heq.
  destruct (digits_prefix_inj _ _ _ _ _ _
              (pretty_Z_digits x Hx) (pretty_Z_digits y Hy) Hc Hc' Heq)
    as (Hp & -> & ->).
  split; [|done]. by apply (inj pretty).
Qed.

Lemma countdown_parts ms :
  0 <= ms ->
  let ts := ms / 1000 in
  0 <= ts / 3600 /\ 0 <= Z.rem ts 3600 / 60 < 60 /\ 0 <= Z.rem ts 60 < 60
  /\ ts = ts / 3600 * 3600 + Z.rem ts 3600 / 60 * 60 + Z.rem ts 60
  /\ ms / 60000 = ts / 3600 * 60 + Z.rem ts 3600 / 60
  /\ (0 < ts / 3600 <-> 3600000 <= ms).
Proof.
  intros Hms ts.
  assert (0 <= ts) as Hts by (subst ts; apply Z.div_pos; lia).
  rewrite !Z.rem_mod_nonneg by lia.
  subst ts. repeat split; Z.to_euclidean_division_equations; lia.
Qed.

(** X19. For remaining times that are not negative, two countdown texts
    are the same exactly when the times agree to the second, or, from one
    hour on, to the minute: the text tells the remaining time rounded
    down to the second under one hour and to the minute above, and
    nothing else. *)
Theorem countdown_text_tells_the_second_or_the_minute ms ms' :
  0 <= ms -> 0 <= ms' ->
  formatCountdown ms = formatCountdown ms'
  <-> shownDuration ms = shownDuration ms'.
Proof.
  intros Hms Hms'.
  destruct (countdown_parts ms Hms) as (Hh & Hm & Hs & Hts & Hmin & Hhour).
  destruct (countdown_parts ms' Hms') as (Hh' & Hm' & Hs' & Hts' & Hmin' & Hhour').
  cbv zeta in *. unfold formatCountdown, shownDuration.
  set (ts := ms / 1000) in *. set (ts' := ms' / 1000) in *.
  set (h := ts / 3600) in *. set (h' := ts' / 3600) in *.
  set (m := Z.rem ts 3600 / 60) in *. set (m' := Z.rem ts' 3600 / 60) in *.
  set (s := Z.rem ts 60) in *. set (s' := Z.rem ts' 60) in *.
  assert (forall x y c c' r r' (P : Prop),
            0 <= x -> 0 <= y -> isDigit c = false -> isDigit c' = false ->
            (x = y -> c = c' -> r = r' -> P) ->
            pretty x +:+ String c r = pretty y +:+ String c' r' -> P)
    as Hsplit.
  { intros x y c c' r r' P ? ? ? ? HP Heq.
    destruct (pretty_suffix_inj x y c c' r r') as (? & ? & ?); auto. }
  destruct (Z.ltb_spec ms 3600000) as [Hlt|Hge];
    destruct (Z.ltb_spec ms' 3600000) as [Hlt'|Hge'];
    destruct (Z.ltb_spec 0 h) as [Hpos|Hzero];
    destruct (Z.ltb_spec 0 h') as [Hpos'|Hzero']; try lia.
  - (* both under one hour *)
    assert (h = 0 /\ h' = 0) as [Hh0 Hh0'] by lia.
    split.
    + intros Htext. cut (ts = ts'); [lia|].
      destruct (Z.ltb_spec 0 m) as [Hmp|Hmz];
        destruct (Z.ltb_spec 0 m') as [Hmp'|Hmz'].
      * revert Htext. apply Hsplit; try done; try lia.
        intros Hmm _ [= Hrest]. revert Hrest.
        apply Hsplit; try done; try lia.
      * revert Htext. apply Hsplit; try done; lia.
      * revert Htext. apply Hsplit; try done; lia.
      * revert Htext. apply Hsplit; try done; try lia.
    + intros Hshown. assert (ts = ts') as Hsame by lia.
      subst m m' s s'. by rewrite Hsame.
  - (* under one hour and from one hour on *)
    split; [|lia]. intros Htext. exfalso.
    destruct (Z.ltb_spec 0 m) as [Hmp|Hmz];
      revert Htext; apply Hsplit; try done; lia.
  - split; [|lia]. intros Htext. exfalso.
    destruct (Z.ltb_spec 0 m') as [Hmp|Hmz];
      revert Htext; apply Hsplit; try done; lia.
  - (* both from one hour on *)
    split.
    + intros Htext. cut (h = h' /\ m = m'); [lia|].
      revert Htext.
      apply Hsplit; try done; try lia.
      intros Hhh _ [= Hrest]. revert Hrest.
      apply Hsplit; try done; try lia.
    + intros Hshown. assert (h = h' /\ m = m') as [-> ->] by lia. done.
Qed.

End CountdownText.

Section PopupProperties.
Context `{JSDate} `{JSArray}.

Lemma spansNow_window now c :
  spansNow now c = true ->
  exists s e a b, startTime c = Some s /\ endTime c = Some e
    /\ truthy (Some s) = true /\ truthy (Some e) = true
    /\ msOf (Some s) = Some a /\ msOf (Some e) = Some b
    /\ a <= now < b.
Proof.
  unfold spansNow, spans. rewrite !andb_true_iff.
  intros [[Hs He] [Hle Hgt]].
  destruct (startTime c) as [s|]; [|done].
  destruct (endTime c) as [e|]; [|done].
  destruct (msOf (Some s)) as [a|] eqn:A; [|done].
  destruct (msOf (Some e)) as [b|] eqn:B; [|done].
  cbn in Hle, Hgt. apply Z.leb_le in Hle. apply Z.ltb_lt in Hgt.
  by exists s, e, a, b.
Qed.

Lemma startsAfter_window now n :
  startsAfter now n = true ->
  exists s a, startTime n = Some s /\ truthy (Some s) = true
    /\ truthy (endTime n) = true
    /\ msOf (Some s) = Some a /\ now < a.
Proof.
  unfold startsAfter. rewrite !andb_true_iff. intros [[Hs He] Hgt].
  destruct (startTime n) as [s|]; [|done].
  destruct (msOf (Some s)) as [a|] eqn:A; [|done].
  cbn in Hgt. apply Z.ltb_lt in Hgt. by exists s, a.
Qed.

Lemma current_countdown_ended now t c :
  spansNow now c = true -> now <= t ->
  (updateCountdown t (countdownOf c true)).2 = negb (spansNow t c).
Proof.
  intros (s & e & a & b & Hs & He & Hst & Het & Ha & Hb & Hab)%spansNow_window
    Hle.
  unfold updateCountdown, countdownOf, spansNow, spans.
  cbn [dataset_endTime dataset_startTime].
  rewrite Hs, He. change (template (Some e)) with e.
  rewrite Hst, Het, Ha, Hb.
  cbn [num_sub num_le num_gt num_lt andb].
  replace (a <=? t) with true by (symmetry; apply Z.leb_le; lia).
  cbn [andb].
  destruct (Z.ltb_spec 0 (b - t)), (Z.ltb_spec t b); try lia; done.
Qed.

Lemma next_countdown_ended t n :
  truthy (startTime n) = true -> truthy (endTime n) = true ->
  (updateCountdown t (countdownOf n false)).2 = negb (startsAfter t n).
Proof.
  intros Hs He. unfold updateCountdown, countdownOf, startsAfter.
  destruct (startTime n) as [s|]; [|done].
  change (template (Some s)) with s.
  cbn [dataset_endTime dataset_startTime]. change (truthy None) with false.
  cbv iota. rewrite Hs, He. cbn [andb].
  destruct (msOf (Some s)) as [a|]; [|done].
  cbn [num_sub num_gt num_lt].
  destruct (Z.ltb_spec 0 (a - t)), (Z.ltb_spec t a); try lia; done.
Qed.

(** X20. For the countdowns of a state that was right at [now], a call
    of [updateCountdowns] at a later instant [t] calls [refreshData]
    exactly when the flag is not set and the state is no longer right at
    [t]: the current rotation has ended or the next one has started. *)
Theorem popup_requests_refresh_when_the_state_expires now t st latch :
  soundState now st -> now <= t ->
  (updateCountdowns
     {| countdowns := displayedCountdowns (Some st);
        hasTriggeredAutoRefresh := latch |} t).2 = true
  <-> latch = false /\ ~ soundState t st.
Proof.
  intros [Hcur Hnext] Hle.
  assert (existsb snd (updateCountdown t <$> displayedCountdowns (Some st))
          = true <-> ~ soundState t st) as Hended.
  { unfold displayedCountdowns, soundState.
    destruct (current st) as [c|] eqn:C, (next st) as [n|] eqn:N;
      cbn [app fmap list_fmap existsb].
    - rewrite (current_countdown_ended now t c (Hcur c eq_refl) Hle).
      destruct (startsAfter_window _ _ (Hnext n eq_refl))
        as (s & a & Hs & Hst & Het & _). rewrite <- Hs in Hst.
      rewrite (next_countdown_ended t n Hst Het).
      destruct (spansNow t c) eqn:Sc, (startsAfter t n) eqn:Sn;
        cbn [negb orb snd]; (split; [|done || idtac]);
        first [ done
              | intros Hno; destruct Hno; split; intros ? [= <-]; done
              | intros _ [Hc Hn]; specialize (Hc _ eq_refl);
                specialize (Hn _ eq_refl); congruence ].
    - rewrite (current_countdown_ended now t c (Hcur c eq_refl) Hle).
      destruct (spansNow t c) eqn:Sc; cbn [negb orb snd];
        (split; [|done || idtac]);
        first [ done
              | intros Hno; destruct Hno; split; intros ? [= <-]; done
              | intros _ [Hc _]; specialize (Hc _ eq_refl); congruence ].
    - destruct (startsAfter_window _ _ (Hnext n eq_refl))
        as (s & a & Hs & Hst & Het & _). rewrite <- Hs in Hst.
      rewrite (next_countdown_ended t n Hst Het).
      destruct (startsAfter t n) eqn:Sn; cbn [negb orb snd];
        (split; [|done || idtac]);
        first [ done
              | intros Hno; destruct Hno; split; intros ? [= <-]; done
              | intros _ [_ Hn]; specialize (Hn _ eq_refl); congruence ].
    - split; [done|]. intros Hno. by destruct Hno. }
  unfold updateCountdowns. cbn [countdowns hasTriggeredAutoRefresh].
  destruct (existsb snd _) eqn:E; destruct latch; cbn [andb negb snd];
    split; try done.
  - by intros [? _].
  - intros _. split; [done|]. by apply Hended.
  - by intros [? _].
  - intros [_ Hno]. by apply Hended in Hno.
Qed.

Lemma ticks_after_the_request tk instants :
  hasTriggeredAutoRefresh tk = true ->
  Forall (fun refreshed => refreshed = false) (countdownTicks tk instants).
Proof.
  revert tk. induction instants as [|now rest IH]; intros tk Hlatch;
    [constructor|].
  cbn [countdownTicks]. unfold updateCountdowns. rewrite Hlatch.
  rewrite andb_false_r. constructor; [done|]. by apply IH.
Qed.

Lemma request_sets_the_flag tk now tk' :
  updateCountdowns tk now = (tk', true) ->
  hasTriggeredAutoRefresh tk' = true /\ countdowns tk' = [].
Proof.
  unfold updateCountdowns. destruct (_ && _); [|done]. by intros [= <-].
Qed.

(** X21. While no refresh completes, the calls of [updateCountdowns]
    call [refreshData] at most once: never when the flag is set, and
    after a call that did, no later one does. *)
Theorem auto_refresh_fires_at_most_once tk instants :
  (length (filter (fun refreshed => refreshed = true)
             (countdownTicks tk instants)) <= 1)%nat
  /\ (hasTriggeredAutoRefresh tk = true ->
      Forall (fun refreshed => refreshed = false) (countdownTicks tk instants))
  /\ (forall before after,
        countdownTicks tk instants = (before ++ true :: after)%list ->
        Forall (fun refreshed => refreshed = false) (before ++ after)).
Proof.
  assert (forall l, Forall (fun refreshed => refreshed = false) l ->
                    filter (fun refreshed => refreshed = true) l = []) as Hnone.
  { intros l Hl. induction Hl as [|b l Hb _ IH]; [done|].
    rewrite filter_cons_False; [done|]. by rewrite Hb. }
  split; [|split; [apply ticks_after_the_request|]].
  - revert tk. induction instants as [|now rest IH]; intros tk; [cbn; lia|].
    cbn [countdownTicks].
    destruct (updateCountdowns tk now) as [tk' refreshed] eqn:E.
    destruct refreshed.
    + rewrite filter_cons_True by done.
      rewrite Hnone; [cbn; lia|]. apply ticks_after_the_request.
      by eapply request_sets_the_flag.
    + rewrite filter_cons_False by done. apply IH.
  - revert tk. induction instants as [|now rest IH]; intros tk before after.
    { by destruct before. }
    cbn [countdownTicks].
    destruct (updateCountdowns tk now) as [tk' refreshed] eqn:E.
    destruct before as [|b before]; cbn [app].
    + intros [= -> <-]. apply ticks_after_the_request.
      by eapply request_sets_the_flag.
    + intros [= <- Hrest]. destruct refreshed.
      * assert (Forall (fun refreshed => refreshed = false)
                  (countdownTicks tk' rest)) as Hall.
        { apply ticks_after_the_request. by eapply request_sets_the_flag. }
        rewrite Hrest in Hall. apply Forall_app in Hall as [_ Hall].
        by apply Forall_cons in Hall as [? _].
      * constructor; [done|]. by eapply IH.
Qed.

Lemma elem_of_classAdd c x classes :
  c ∈ classAdd x classes <-> c = x \/ c ∈ classes.
Proof.
  unfold classAdd. case_bool_decide as Hx.
  - split; [by right|]. by intros [->|].
  - rewrite elem_of_app, list_elem_of_singleton. tauto.
Qed.

Lemma NoDup_classAdd x classes : NoDup classes -> NoDup (classAdd x classes).
Proof.
  intros Hnd. unfold classAdd. case_bool_decide as Hx; [done|].
  apply NoDup_app. split; [done|]. split; [|apply NoDup_singleton].
  intros c Hc ->%list_elem_of_singleton. done.
Qed.

Lemma elem_of_classRemove c cs classes :
  c ∈ classRemove cs classes <-> c ∈ classes /\ c ∉ cs.
Proof. unfold classRemove. rewrite list_elem_of_filter. tauto. Qed.

(** X22. After [updateCountdowns] handled a span with an end time, the
    span carries [countdown-ended] exactly when its time is up or cannot
    be read, and [countdown-soon] when less than fifteen minutes remain,
    whatever classes it had before; when the time is up
    [countdown-soon] is left as it was. The other classes and the data
    attributes are kept, and no class is listed twice. *)
Theorem countdown_classes_follow_the_remaining_time t el :
  truthy (dataset_endTime el) = true ->
  let (el', ended) := updateCountdown t el in
  (ended = false
   <-> exists e, msOf (dataset_endTime el) = Some e /\ t < e)
  /\ ("countdown-ended" ∈ classList el' <-> ended = true)
  /\ ("countdown-soon" ∈ classList el'
      <-> (exists e, msOf (dataset_endTime el) = Some e
             /\ t < e < t + 15 * 60 * 1000)
          \/ (ended = true /\ "countdown-soon" ∈ classList el))
  /\ (forall c, c <> "countdown-ended" -> c <> "countdown-soon" ->
        (c ∈ classList el' <-> c ∈ classList el))
  /\ (NoDup (classList el) -> NoDup (classList el'))
  /\ dataset_endTime el' = dataset_endTime el
  /\ dataset_startTime el' = dataset_startTime el.
Proof.
  intros Hend. unfold updateCountdown. rewrite Hend.
  destruct (msOf (dataset_endTime el)) as [e|]; cbn [num_sub].
  - destruct (Z.ltb_spec 0 (e - t)) as [Hpos|Hneg].
    + cbn [classList dataset_endTime dataset_startTime].
      split; [split; [intros _; exists e; split; [done|lia]|done]|].
      assert (forall c, c ∈ classRemove ["countdown-soon"; "countdown-ended"]
                              (classList el)
                        <-> c ∈ classList el /\ c <> "countdown-soon"
                            /\ c <> "countdown-ended") as Hrem.
      { intros c. rewrite elem_of_classRemove.
        rewrite !not_elem_of_cons, elem_of_nil. tauto. }
      destruct (Z.ltb_spec (e - t) (15 * 60 * 1000)) as [Hsoon|Hlate].
      * split; [|split; [|split; [|split; [|done]]]].
        -- rewrite elem_of_classAdd, Hrem. split; [|done].
           intros [?|(_ & _ & ?)]; done.
        -- rewrite elem_of_classAdd. split; [|by left].
           intros _. left. exists e. split; [done|lia].
        -- intros c Hc1 Hc2. rewrite elem_of_classAdd, Hrem. tauto.
        -- intros Hnd. apply NoDup_classAdd. unfold classRemove.
           by apply NoDup_filter.
      * split; [|split; [|split; [|split; [|done]]]].
        -- rewrite Hrem. split; [|done]. by intros (_ & _ & ?).
        -- rewrite Hrem. split; [by intros (_ & ? & _)|].
           intros [(e' & [= <-] & ?)|[? _]]; [lia|done].
        -- intros c Hc1 Hc2. rewrite Hrem. tauto.
        -- intros Hnd. unfold classRemove. by apply NoDup_filter.
    + cbn [classList dataset_endTime dataset_startTime].
      split; [split; [done|intros (e' & [= <-] & ?); lia]|].
      split; [|split; [|split; [|split; [|done]]]].
      * rewrite elem_of_classAdd. split; [done|by left].
      * rewrite elem_of_classAdd. split.
        -- intros [?|?]; [done|by right].
        -- intros [(e' & [= <-] & ?)|[_ ?]]; [lia|by right].
      * intros c Hc1 Hc2. rewrite elem_of_classAdd. tauto.
      * apply NoDup_classAdd.
  - cbn [classList dataset_endTime dataset_startTime].
    split; [split; [done|by intros (e' & ? & ?)]|].
    split; [|split; [|split; [|split; [|done]]]].
    + rewrite elem_of_classAdd. split; [done|by left].
    + rewrite elem_of_classAdd. split.
      * intros [?|?]; [done|by right].
      * intros [(e' & ? & ?)|[_ ?]]; [done|by right].
    + intros c Hc1 Hc2. rewrite elem_of_classAdd. tauto.
    + apply NoDup_classAdd.
Qed.

End PopupProperties.

(** * Properties of the Salmon Run entries *)

Section SalmonProvenance.
Context `{JSDate} `{JSArray}.

Lemma salmonEntry_isBigRun bigRun schedule r :
  salmonEntry bigRun schedule = Ok r ->
  (isBigRun <$> salmonOf (payload r)) = Some bigRun.
Proof.
  unfold salmonEntry.
  destruct (match setting schedule with Some _ => _ | None => _ end);
    [|done].
  by intros [= <-].
Qed.

(** X23. A rotation the Salmon Run processor returns, when it is not its
    test data, is the entry made for a node of the Big Run list or of the
    regular list of the feed that has a start and an end, and it is
    flagged as a Big Run exactly when the node is from the Big Run
    list. *)
Theorem salmon_rotations_are_entries_of_the_feed response now coop st r :
  data response ≫= coopGroupingSchedule = Some coop ->
  processSalmonRunData response now = Ok st ->
  st <> createSalmonRunTestData now ->
  current st = Some r \/ next st = Some r ->
  exists (bigRun : bool) nodes schedule,
    iterNodes (if bigRun then bigRunSchedules coop
               else coop_regularSchedules coop) = Ok nodes
    /\ Some schedule ∈ nodes
    /\ truthy (coop_startTime schedule) = true
    /\ truthy (coop_endTime schedule) = true
    /\ salmonEntry bigRun schedule = Ok r
    /\ (isBigRun <$> salmonOf (payload r)) = Some bigRun.
Proof.
  intros Hcoop Hst Hne Hr.
  destruct (salmonSchedules coop) as [unsorted|] eqn:E.
  2: { unfold processSalmonRunData in Hst. by rewrite Hcoop, E in Hst. }
  destruct (processSalmonRunData_scan response now coop unsorted Hcoop E)
    as (sorted & _ & Hperm & [[_ Hfall]|(_ & _ & Hscan)]).
  { rewrite Hfall in Hst. by injection Hst as <-. }
  rewrite Hscan in Hst. injection Hst as <-.
  destruct (salmonScan_found now unsorted sorted) as [_ Hin];
    [by eapply salmonSchedules_hasWindow|done|].
  destruct (salmonSchedules_elem _ _ _ E (Hin r Hr))
    as (bigRun & nodes & schedule & ? & ? & ? & ? & Hentry).
  exists bigRun, nodes, schedule. do 5 (split; [done|]).
  by eapply salmonEntry_isBigRun.
Qed.

End SalmonProvenance.

(** * Properties of the refresh round trip *)

Section RefreshProperties.
Context `{JSDate} `{JSArray}.

Lemma updateCountdown_ended_later t t' el :
  t <= t' ->
  (updateCountdown t el).2 = true -> (updateCountdown t' el).2 = true.
Proof.
  intros Hle. unfold updateCountdown.
  destruct (truthy (dataset_endTime el)).
  - destruct (msOf (dataset_endTime el)) as [e|]; cbn [num_sub]; [|done].
    destruct (Z.ltb_spec 0 (e - t)), (Z.ltb_spec 0 (e - t')); try done; lia.
  - destruct (truthy (dataset_startTime el)); [|done].
    destruct (msOf (dataset_startTime el)) as [e|]; cbn [num_sub]; [|done].
    destruct (Z.ltb_spec 0 (e - t)), (Z.ltb_spec 0 (e - t')); try done; lia.
Qed.

Lemma expired_later t t' st :
  t <= t' -> expired t st = true -> expired t' st = true.
Proof.
  intros Hle. unfold expired. rewrite !existsb_exists.
  intros (x & Hin & Hx). apply list_elem_of_In, list_elem_of_fmap in Hin
    as (el & -> & Hel).
  exists (updateCountdown t' el). split.
  - apply list_elem_of_In, list_elem_of_fmap. by exists el.
  - by eapply updateCountdown_ended_later.
Qed.

Lemma stale_round w fetched workerNow mode tk popupNow rd st t :
  requestFailed fetched ->
  rotationData (local w) = Some rd ->
  isDataStillValid rd workerNow = true ->
  modeOf rd mode = Some st ->
  expired t st = true -> t <= popupNow ->
  exists w' tk',
    refreshData w fetched workerNow mode tk popupNow = (w', tk', true)
    /\ rotationData (local w') = Some rd
    /\ isOffline (local w') = Some true
    /\ hasTriggeredAutoRefresh tk' = true.
Proof.
  intros Hfail Hrd Hvalid Hst Hexp Hle.
  unfold refreshData, onMessage, fetchAllData. rewrite String.eqb_refl.
  rewrite (requestFailed_throws _ _ _ Hfail). unfold serveStale.
  rewrite Hrd, Hvalid. cbn [default]. unfold displayRotationData.
  cbn [local rotationData]. rewrite Hst. unfold updateCountdowns.
  cbn [countdowns hasTriggeredAutoRefresh].
  pose proof (expired_later t popupNow st Hle Hexp) as Hnow.
  unfold expired in Hnow. rewrite Hnow. cbn [andb negb].
  by eexists _, _.
Qed.

(** X24. While the request keeps failing and the cached snapshot stays
    valid for the worker, a popup that shows a mode of that snapshot with
    a countdown that has run out asks for another refresh at the end of
    every refresh: the worker answers from the cache with success, the
    popup clears its flag and shows the same rotations, and the first
    call of [updateCountdowns] calls [refreshData] again. *)
Theorem stale_cache_keeps_the_popup_refreshing
    w mode tk rounds rd st t :
  rotationData (local w) = Some rd ->
  modeOf rd mode = Some st ->
  expired t st = true ->
  Forall (fun '(fetched, workerNow, popupNow) =>
            requestFailed fetched
            /\ isDataStillValid rd workerNow = true
            /\ t <= popupNow) rounds ->
  refreshRounds w mode tk rounds = replicate (length rounds) true.
Proof.
  intros Hrd Hst Hexp Hrounds. revert w tk Hrd.
  induction Hrounds as [|[[fetched workerNow] popupNow] rounds
                          (Hfail & Hvalid & Hle) _ IH];
    intros w tk Hrd; [done|].
  cbn [refreshRounds length replicate].
  destruct (stale_round w fetched workerNow mode tk popupNow rd st t
              Hfail Hrd Hvalid Hst Hexp Hle) as (w' & tk' & -> & Hrd' & _).
  f_equal. by apply IH.
Qed.

End RefreshProperties.

(** * Properties of the settings panel *)

Section SettingsPanel.

Lemma saved_lookup checked store k :
  saveNotificationSettings checked store !! k
  = if decide (k = "enableNotifications") then Some (enableNotifications checked)
    else if decide (k = "notifyRegular") then Some (notifyRegular checked)
    else if decide (k = "notifyAnarchy") then Some (notifyAnarchy checked)
    else if decide (k = "notifyXbattle") then Some (notifyXbattle checked)
    else if decide (k = "notifySalmon") then Some (notifySalmon checked)
    else store !! k.
Proof.
  unfold saveNotificationSettings, storageSet. cbn [foldr fst snd].
  repeat (case_decide;
          [subst k; by rewrite lookup_insert_eq
          |rewrite lookup_insert_ne by congruence]).
  done.
Qed.

(** X25. What the settings panel saves is what the worker reads: after
    [saveNotificationSettings] the differ obeys the five checkboxes as
    they were ticked, [loadSettings] ticks them again the same way and
    disables the mode boxes exactly when notifications are off, no other
    key of the store is touched, and saving what was loaded changes
    nothing. *)
Theorem saved_settings_are_what_the_worker_reads checked store :
  readSettings (saveNotificationSettings checked store) = checked
  /\ loadSettings (saveNotificationSettings checked store)
     = (checked, negb (enableNotifications checked))
  /\ (forall k, k ∉ defaultSettings.*1 ->
        saveNotificationSettings checked store !! k = store !! k)
  /\ (forall new old,
        sendRotationNotifications
          (readSettings (saveNotificationSettings checked store)) new old
        = sendRotationNotifications checked new old)
  /\ saveNotificationSettings
       (loadSettings (saveNotificationSettings checked store)).1 store
     = saveNotificationSettings checked store.
Proof.
  assert (readSettings (saveNotificationSettings checked store) = checked)
    as Hread.
  { unfold readSettings. rewrite !saved_lookup. by destruct checked. }
  assert (loadSettings (saveNotificationSettings checked store)
          = (checked, negb (enableNotifications checked))) as Hload.
  { unfold loadSettings. rewrite !saved_lookup.
    destruct checked as [[] [] [] [] []]; reflexivity. }
  split; [done|]. split; [done|]. split; [|split].
  - intros k Hk. rewrite saved_lookup. cbn in Hk.
    rewrite !not_elem_of_cons in Hk. destruct Hk as (? & ? & ? & ? & ? & _).
    by rewrite !decide_False.
  - intros new old. by rewrite Hread.
  - by rewrite Hload.
Qed.

End SettingsPanel.

(** * The further properties on concrete inputs *)

Section FurtherWitnesses.
#[local] Existing Instance IsoDate.date.
#[local] Existing Instance insertion.

Lemma pad_not_empty width v c tail :
  IsoDate.pad width v (String c tail) <> EmptyString.
Proof.
  revert v c tail. induction width as [|w IH]; intros v c tail; [done|].
  cbn [IsoDate.pad]. apply IH.
Qed.

Lemma toISOString_not_empty t : IsoDate.toISOString t <> EmptyString.
Proof.
  unfold IsoDate.toISOString. destruct (IsoDate.civilFromDays _) as [[y mo] d].
  cbn [String.append]. apply pad_not_empty.
Qed.

(** X1 on a feed with one regular rotation around [Sample.midnight]:
    it is the current rotation, and it was built from the node. *)
Lemma selectors_sound_witness :
  exists st r node,
    findCurrentAndNext
      [Some (Sample.node "2023-12-31T23:00:00Z" "2024-01-01T01:00:00Z")]
      Sample.midnight "regular" = Ok st
    /\ current st = Some r
    /\ spansNow Sample.midnight r = true
    /\ Some node
       ∈ [Some (Sample.node "2023-12-31T23:00:00Z" "2024-01-01T01:00:00Z")]
    /\ processNode "regular" node = Ok r.
Proof.
  pose proof (proj1 (selectors_return_sound_rotations_of_the_feed
                       Sample.midnight)
                [Some (Sample.node "2023-12-31T23:00:00Z"
                                   "2024-01-01T01:00:00Z")]
                "regular") as Hsound.
  destruct (findCurrentAndNext
              [Some (Sample.node "2023-12-31T23:00:00Z"
                                 "2024-01-01T01:00:00Z")]
              Sample.midnight "regular") as [st|] eqn:E;
    [|by vm_compute in E].
  destruct Hsound as ([Hcur _] & Hin & _).
  destruct (current st) as [r|] eqn:C.
  2: { vm_compute in E. injection E as <-. discriminate C. }
  destruct (Hin r (or_introl eq_refl)) as (node & Hnode & Hr).
  exists st, r, node. split; [reflexivity|]. split; [exact C|].
  split; [exact (Hcur r eq_refl)|]. split; [exact Hnode|exact Hr].
Defined.

(** X2 on a feed whose only rotation ended before [Sample.midnight], and
    on one whose only node has a window that contains [Sample.midnight]
    and stages that are no list: the node is passed over. *)
Lemma selectors_empty_witness :
  (~ ((2 <= length [Some (Sample.node "2023-12-30T00:00:00Z"
                                      "2023-12-31T16:00:00Z")])%nat
      /\ None ∈ [Some (Sample.node "2023-12-30T00:00:00Z"
                                   "2023-12-31T16:00:00Z")])
   /\ nothingLeft Sample.midnight
        (candidates (processNode "regular")
           [Some (Sample.node "2023-12-30T00:00:00Z" "2023-12-31T16:00:00Z")])
   /\ findCurrentAndNext
        [Some (Sample.node "2023-12-30T00:00:00Z" "2023-12-31T16:00:00Z")]
        Sample.midnight "regular" = Ok emptyState)
  /\ (~ ((2 <= length [Some Sample.brokenNode])%nat
         /\ None ∈ [Some Sample.brokenNode])
      /\ candidates (processNode "regular") [Some Sample.brokenNode] = []
      /\ findCurrentAndNext [Some Sample.brokenNode] Sample.midnight "regular"
         = Ok emptyState).
Proof.
  assert (forall node : VsNode,
            ~ ((2 <= length [Some node])%nat /\ None ∈ [Some node]))
    as Hlist by (intros node; cbn; lia).
  assert (nothingLeft Sample.midnight
            (candidates (processNode "regular")
               [Some (Sample.node "2023-12-30T00:00:00Z"
                                  "2023-12-31T16:00:00Z")]))
    as Hnothing.
  { constructor; [|constructor]. split; by vm_compute. }
  assert (candidates (processNode "regular") [Some Sample.brokenNode] = [])
    as Hnone by reflexivity.
  split.
  - split; [apply Hlist|]. split; [exact Hnothing|].
    exact (proj2 (proj1 (selectors_empty_iff_nothing_left Sample.midnight)
                    _ "regular") (conj (Hlist _) Hnothing)).
  - split; [apply Hlist|]. split; [exact Hnone|].
    apply (proj2 (proj1 (selectors_empty_iff_nothing_left Sample.midnight)
                    _ "regular")).
    split; [apply Hlist|]. rewrite Hnone. constructor.
Defined.

(** X3 on [Sample.salmonNextOnly], valid at any instant, and on
    [Sample.twoCurrent], valid at 11:00 and so at midnight. *)
Lemma cache_expiry_witness :
  "salmon" ∈ validityModes
  /\ hasUpcoming Sample.salmonNextOnly "salmon" = true
  /\ isDataStillValid Sample.salmonNextOnly (2 * Sample.midnight) = true
  /\ isDataStillValid Sample.twoCurrent Sample.eleven = true
  /\ isDataStillValid Sample.twoCurrent Sample.midnight = true.
Proof.
  assert ("salmon" ∈ validityModes) as Hin by (do 3 right; left).
  assert (Sample.midnight <= Sample.eleven) as Hle by (by vm_compute).
  assert (isDataStillValid Sample.twoCurrent Sample.eleven = true) as Hvalid
    by (by vm_compute).
  split; [exact Hin|]. split; [reflexivity|]. split; [|split].
  - exact (proj2 (cache_validity_only_expires Sample.salmonNextOnly)
             "salmon" Hin eq_refl (2 * Sample.midnight)).
  - exact Hvalid.
  - exact (proj1 (cache_validity_only_expires Sample.twoCurrent)
             Sample.midnight Sample.eleven Hle Hvalid).
Defined.

(** X4 on [Sample.twoCurrent] at 11:00: [smartRefresh] is armed after
    11:00. *)
Lemma future_alarm_witness :
  0 <= Sample.eleven
  /\ exists time,
       scheduleNextRefresh Sample.twoCurrent Sample.eleven ∅ !! "smartRefresh"
       = Some (When time)
       /\ Sample.eleven < time.
Proof.
  assert (0 <= Sample.eleven) as Hnow by (by vm_compute).
  split; [exact Hnow|].
  destruct (scheduleNextRefresh Sample.twoCurrent Sample.eleven ∅
              !! "smartRefresh") as [t|] eqn:E; [|by vm_compute in E].
  destruct (proj2 (proj2 (scheduling_is_idempotent_and_arms_a_future_alarm
                            Sample.twoCurrent Sample.eleven ∅)) Hnow t E)
    as (time & Ht & Hlt).
  exists time. split; [by rewrite Ht|exact Hlt].
Defined.

(** X5 on the first cycle from [Sample.freshWorld] with the concrete
    [Date]. *)
Lemma completed_cycle_witness :
  (forall t, Date_toISOString t <> EmptyString)
  /\ exists w' rd,
       fetchCycle Sample.freshWorld (Response true (Some Sample.oneRegular))
         Sample.midnight = Ok w'
       /\ rotationData (local w') = Some rd
       /\ isDataStillValid rd Sample.midnight = true.
Proof.
  split; [exact toISOString_not_empty|].
  destruct (fetchCycle Sample.freshWorld
              (Response true (Some Sample.oneRegular)) Sample.midnight)
    as [w'|] eqn:E; [|by vm_compute in E].
  destruct (proj1 (completed_cycle_stores_a_valid_cache (H := IsoDate.date)
                     Sample.freshWorld (Response true (Some Sample.oneRegular))
                     Sample.midnight w' toISOString_not_empty E))
    as (rd & st & Hrd & _ & _ & Hvalid).
  exists w', rd. split; [reflexivity|]. split; [exact Hrd|exact Hvalid].
Defined.

(** X6 on the first cycle from [Sample.freshWorld]: it answers true
    and an alarm is armed. *)
Lemma cycle_stays_scheduled_witness :
  (fetchAllData Sample.freshWorld (Response true (Some Sample.oneRegular))
     Sample.midnight).2 = true
  /\ someTimerArmed (alarms Sample.afterFetch).
Proof.
  pose proof (cycle_keeps_cache_and_stays_scheduled Sample.freshWorld
                (Response true (Some Sample.oneRegular)) Sample.midnight)
    as Hcycle.
  unfold Sample.afterFetch.
  assert ((fetchAllData Sample.freshWorld
             (Response true (Some Sample.oneRegular)) Sample.midnight).2
          = true) as Hok by (by vm_compute).
  split; [exact Hok|].
  destruct (fetchAllData Sample.freshWorld
              (Response true (Some Sample.oneRegular)) Sample.midnight)
    as [w' success].
  destruct Hcycle as (_ & _ & _ & Harmed & _). exact (Harmed Hok).
Defined.

(** X7 with the settings of [Sample.challengeWorld], which are all
    off. *)
Lemma silent_differ_witness :
  enableNotifications (sync Sample.challengeWorld) = false
  /\ sendRotationNotifications (sync Sample.challengeWorld)
       Sample.twoCurrent None = [].
Proof.
  split; [reflexivity|].
  exact (proj1 (differ_is_silent_without_change_or_consent
                  (sync Sample.challengeWorld) Sample.twoCurrent None)
               eq_refl).
Defined.

(** X11 on a fresh install over an empty store. *)
Lemma install_witness :
  (∅ : gmap string bool) !! "enableNotifications" = None
  /\ onInstalled "install" ∅ !! "notifySalmon" = Some false
  /\ sendRotationNotifications (readSettings (onInstalled "install" ∅))
       Sample.twoCurrent None = [].
Proof.
  destruct (proj1 (proj2 (proj2
              (install_defaults_are_silent_and_keep_user_settings
                 "install" ∅))) (lookup_empty _)) as [Hkeys Hsilent].
  split; [apply lookup_empty|]. split.
  - exact (Hkeys "notifySalmon").
  - exact (Hsilent Sample.twoCurrent None).
Defined.


(** X9 on [Example.bigRunSnapshot]: the notification of the Big Run. *)
Lemma big_run_witness :
  exists n nc b,
    n ∈ sendRotationNotifications Sample.allOn Example.bigRunSnapshot None
    /\ n_title n = "BIG RUN IS HERE!"
    /\ n_key n = "salmon"
    /\ currentOf (Some Example.bigRunSnapshot) "salmon" = Some nc
    /\ payload nc = PSalmon b /\ isBigRun b = true.
Proof.
  destruct (sendRotationNotifications Sample.allOn Example.bigRunSnapshot None)
    as [|n rest] eqn:E; [by vm_compute in E|].
  assert (n ∈ sendRotationNotifications Sample.allOn Example.bigRunSnapshot
                None) as Hn by (rewrite E; left).
  assert (n_title n = "BIG RUN IS HERE!") as Htitle.
  { vm_compute in E. by injection E as <- _. }
  destruct (proj1 (proj1 (big_run_title_iff_salmon_big_run
                            Sample.allOn Example.bigRunSnapshot None n Hn))
                  Htitle) as (Hkey & nc & b & Hnc & Hb & Hbig).
  exists n, nc, b. split; [left|]. by repeat split.
Defined.

(** X14 on [scorch_gorge], with [asciiLower]. *)
Lemma normalizeStageId_fixpoint_witness :
  safeId (units "scorch_gorge") = true
  /\ normalizeStageId (H := asciiLower) (Some (units "scorch_gorge"))
     = units "scorch_gorge".
Proof.
  split; [reflexivity|].
  apply (normalizeStageId_fixes_safe_ids (H := asciiLower)
           (units "scorch_gorge")); reflexivity.
Defined.

(** X13 on a name of punctuation, a space and a dash. *)
Lemma normalizeStageId_empty_witness :
  normalizeStageId (H := asciiLower) (Some (units "?! -")) = [].
Proof.
  apply (normalizeStageId_empty_iff (H := asciiLower)).
  exists (units "?! -"). split; [reflexivity|]. split; [done|].
  repeat constructor.
Defined.

(** X15 on a name that only matches the legacy table through a
    variation. *)
Lemma getStageId_table_witness :
  getStageId (H := asciiLower) (Some (units "Mako  Mart")) = Id (units "makomart")
  /\ safeId (units "makomart") = true.
Proof.
  split; [reflexivity|].
  apply (getStageId_gives_a_table_value_or_the_normalized_id
           (H := asciiLower) (Some (units "Mako  Mart"))). reflexivity.
Defined.

(** X16 on a name whose normalised id is [constructor]. *)
Lemma getStageId_not_a_string_witness :
  getStageId (H := asciiLower) (Some (units "Constructor!")) = NotAString
  /\ exists n key, Some (units "Constructor!") = Some n /\ n <> []
       /\ key ∈ lookedUp (H := asciiLower) n
       /\ key ∈ units <$> objectPrototypeKeys.
Proof.
  split; [reflexivity|].
  apply (getStageId_not_a_string_only_for_inherited_keys (H := asciiLower)).
  reflexivity.
Defined.

(** X17 on a name whose trimmed lower case is [constructor]. *)
Lemma getStageId_inherited_witness :
  getStageId (H := asciiLower) (Some (units " Constructor ")) = NotAString.
Proof.
  apply (getStageId_returns_an_inherited_property (H := asciiLower)
           (units " Constructor ")); [done|].
  apply (bool_decide_unpack _). exact I.
Defined.

(** X18 on [Sample.noRoot], which the processor rejects, at midnight. *)
Lemma placeholder_witness :
  0 <= Sample.midnight
  /\ Forall roundTrips (placeholderInstants Sample.midnight)
  /\ processRotationData Sample.noRoot Sample.midnight = None
  /\ exists w' time,
       fetchCycle Sample.freshWorld (Response true (Some Sample.noRoot))
         Sample.midnight = Ok w'
       /\ alarms w' !! "smartRefresh" = Some (When time)
       /\ Sample.midnight < time <= Sample.midnight + 2 * 60 * 60 * 1000 + 60000.
Proof.
  assert (0 <= Sample.midnight) as Hnow by (by vm_compute).
  assert (Forall roundTrips (placeholderInstants Sample.midnight)) as Hdates.
  { repeat constructor; by vm_compute. }
  split; [exact Hnow|]. split; [exact Hdates|]. split; [reflexivity|].
  destruct (fetchCycle Sample.freshWorld (Response true (Some Sample.noRoot))
              Sample.midnight) as [w'|] eqn:E; [|by vm_compute in E].
  destruct (rejected_feed_placeholders_hold_for_two_hours
              Sample.freshWorld Sample.noRoot Sample.midnight w'
              Hnow Hdates eq_refl E) as (rd & _ & _ & time & Htime & Hbound).
  exists w', time. split; [reflexivity|]. split; [exact Htime|exact Hbound].
Defined.

(** X19 on 1h 30m 5.999s and 1h 30m: the same text. *)
Lemma countdown_text_witness :
  0 <= 5405999 /\ 0 <= 5400000
  /\ shownDuration 5405999 = shownDuration 5400000
  /\ formatCountdown 5405999 = formatCountdown 5400000.
Proof.
  assert (0 <= 5405999) as H1 by lia.
  assert (0 <= 5400000) as H2 by lia.
  split; [exact H1|]. split; [exact H2|]. split; [reflexivity|].
  exact (proj2 (countdown_text_tells_the_second_or_the_minute
                  5405999 5400000 H1 H2) eq_refl).
Defined.

(** X20 on [Example.morning], right at 11:00 and over at 12:01. *)
Lemma popup_refresh_witness :
  soundState Sample.eleven Example.morning
  /\ Sample.eleven <= Sample.twelveOhOne
  /\ ~ soundState Sample.twelveOhOne Example.morning
  /\ (updateCountdowns Example.morningTicker Sample.twelveOhOne).2 = true.
Proof.
  assert (soundState Sample.eleven Example.morning) as Hsound.
  { split; [by intros c [= <-]|by intros n [=]]. }
  assert (Sample.eleven <= Sample.twelveOhOne) as Hle by (by vm_compute).
  assert (~ soundState Sample.twelveOhOne Example.morning) as Hno.
  { intros [Hc _]. specialize (Hc _ eq_refl). by vm_compute in Hc. }
  split; [exact Hsound|]. split; [exact Hle|]. split; [exact Hno|].
  exact (proj2 (popup_requests_refresh_when_the_state_expires
                  Sample.eleven Sample.twelveOhOne Example.morning false
                  Hsound Hle) (conj eq_refl Hno)).
Defined.

(** X21 on three calls, at 11:00, at 12:01 and one second later. *)
Lemma auto_refresh_witness :
  countdownTicks Example.morningTicker
    [Sample.eleven; Sample.twelveOhOne; Sample.twelveOhOne + 1000]
  = ([false] ++ true :: [false])%list
  /\ Forall (fun refreshed => refreshed = false) ([false] ++ [false])%list.
Proof.
  assert (countdownTicks Example.morningTicker
            [Sample.eleven; Sample.twelveOhOne; Sample.twelveOhOne + 1000]
          = ([false] ++ true :: [false])%list) as Hrun by (by vm_compute).
  split; [exact Hrun|].
  exact (proj2 (proj2 (auto_refresh_fires_at_most_once
                         Example.morningTicker
                         [Sample.eleven; Sample.twelveOhOne;
                          Sample.twelveOhOne + 1000]))
               [false] [false] Hrun).
Defined.

(** X22 ten minutes before the end of the rotation. *)
Lemma countdown_soon_witness :
  truthy (dataset_endTime
            (countdownOf (Sample.window "2024-01-01T10:00:00Z"
                                        "2024-01-01T12:00:00Z") true)) = true
  /\ "countdown-soon"
     ∈ classList (updateCountdown Example.tenToTwelve
                    (countdownOf (Sample.window "2024-01-01T10:00:00Z"
                                                "2024-01-01T12:00:00Z") true)).1.
Proof.
  split; [reflexivity|].
  pose proof (countdown_classes_follow_the_remaining_time
                Example.tenToTwelve
                (countdownOf (Sample.window "2024-01-01T10:00:00Z"
                                            "2024-01-01T12:00:00Z") true)
                eq_refl) as Hclasses.
  destruct (updateCountdown Example.tenToTwelve _) as [el' ended].
  destruct Hclasses as (_ & _ & Hsoon & _). apply Hsoon. left.
  exists (Sample.midnight + 12 * 60 * 60 * 1000).
  split; [reflexivity|]. by vm_compute.
Defined.

(** X23 on [Sample.liveCoop] during its Big Run. *)
Lemma salmon_entry_witness :
  exists st r (bigRun : bool) nodes schedule,
    processSalmonRunData (Sample.coopFeed Sample.liveCoop) Example.bigRunTime
    = Ok st
    /\ st <> createSalmonRunTestData Example.bigRunTime
    /\ current st = Some r
    /\ iterNodes (if bigRun then bigRunSchedules Sample.liveCoop
                  else coop_regularSchedules Sample.liveCoop) = Ok nodes
    /\ Some schedule ∈ nodes
    /\ salmonEntry bigRun schedule = Ok r
    /\ bigRun = true.
Proof.
  destruct (processSalmonRunData (Sample.coopFeed Sample.liveCoop)
              Example.bigRunTime) as [st|] eqn:P; [|by vm_compute in P].
  assert (st <> createSalmonRunTestData Example.bigRunTime) as Hne.
  { vm_compute in P. injection P as <-. intros Heq. by vm_compute in Heq. }
  destruct (current st) as [r|] eqn:C;
    [|vm_compute in P; injection P as <-; by vm_compute in C].
  destruct (salmon_rotations_are_entries_of_the_feed
              (Sample.coopFeed Sample.liveCoop) Example.bigRunTime
              Sample.liveCoop st r eq_refl P Hne (or_introl C))
    as (bigRun & nodes & schedule & Hnodes & Hin & _ & _ & Hr & Hbig).
  exists st, r, bigRun, nodes, schedule. do 6 (split; [done|]).
  vm_compute in P. injection P as <-. vm_compute in C. injection C as <-.
  vm_compute in Hbig. by injection Hbig as <-.
Defined.

(** X24 on [Sample.offlineWorld] one hour after its shift has started. *)
Lemma refresh_loop_witness :
  exists st,
    rotationData (local Sample.offlineWorld) = Some Sample.salmonNextOnly
    /\ modeOf Sample.salmonNextOnly "salmon" = Some st
    /\ expired Example.threeOClock st = true
    /\ refreshRounds Sample.offlineWorld "salmon" Example.idleTicker
         Example.failingRounds
       = [true; true].
Proof.
  destruct (modeOf Sample.salmonNextOnly "salmon") as [st|] eqn:M;
    [|by vm_compute in M].
  assert (expired Example.threeOClock st = true) as Hexp.
  { vm_compute in M. injection M as <-. by vm_compute. }
  assert (Forall (fun '(fetched, workerNow, popupNow) =>
                    requestFailed fetched
                    /\ isDataStillValid Sample.salmonNextOnly workerNow = true
                    /\ Example.threeOClock <= popupNow)
                 Example.failingRounds) as Hrounds.
  { repeat constructor; by vm_compute. }
  exists st. split; [reflexivity|]. split; [reflexivity|]. split; [exact Hexp|].
  exact (stale_cache_keeps_the_popup_refreshing
           Sample.offlineWorld "salmon" Example.idleTicker
           Example.failingRounds Sample.salmonNextOnly st
           Example.threeOClock eq_refl M Hexp Hrounds).
Defined.

(** X25 on a store that holds the last tab. *)
Lemma settings_panel_witness :
  ("lastTab" ∉ defaultSettings.*1)
  /\ saveNotificationSettings Sample.allOn {["lastTab" := true]} !! "lastTab"
     = Some true.
Proof.
  assert ("lastTab" ∉ defaultSettings.*1) as Hk
    by (apply (bool_decide_unpack _); exact I).
  split; [exact Hk|].
  rewrite (proj1 (proj2 (proj2 (saved_settings_are_what_the_worker_reads
                                  Sample.allOn {["lastTab" := true]})))
             "lastTab" Hk).
  apply lookup_singleton_eq.
Defined.

End FurtherWitnesses.
